(** * diffparser: a shallow embedding of [Parse] and [Changed]

    The Go package [diffparser] turns the text of a unified / git diff into
    a [Diff]: files, hunks, the two ranges of every hunk and their lines.
    This development embeds the package (file [diffparser.go]) and states
    its properties.

    Conventions of the embedding:
    - a Go [string] is a sequence of bytes: [string] of the Standard
      Library, one [ascii] per byte;
    - a Go [int] is a 64-bit signed integer, as on the 64-bit platforms:
      [Z] with the wrap-around written out ([wrap]) wherever the code does
      arithmetic;
    - a call that can fail returns a [result]: a value, a Go [error], or a
      run-time panic (nil dereference, slice out of range);
    - the local variables of [Parse] are the fields of a [state] record
      that the loop body ([step]) transforms. *)

From Stdlib Require Import ZArith Ascii Lia.
From stdpp Require Import base gmap strings list.

Local Open Scope Z_scope.

(** ** Bytes and strings *)

(** The byte of a character, as a number in [0, 256). *)
Definition byte_of (c : ascii) : Z := Z.of_N (N_of_ascii c).

(** The character of a byte (taken modulo 256, as Go's [byte(x)]). *)
Definition of_byte (z : Z) : ascii := ascii_of_N (Z.to_N (z mod 256)).

Definition str1 (c : ascii) : string := String c EmptyString.

(** The two characters that cannot be written inside a literal. *)
Definition nl : string := str1 "010"%char.
Definition dquote : string := str1 "034"%char.

(** Go's [len(s)]. *)
Definition len (s : string) : Z := Z.of_nat (String.length s).

(** Go's [s[n:]] for [n <= len(s)]. *)
Fixpoint drop_str (n : nat) (s : string) : string :=
  match n, s with
  | O, _ => s
  | S n', String _ s' => drop_str n' s'
  | S _, EmptyString => EmptyString
  end.

(** Go's [s[:n]] for [n <= len(s)]. *)
Fixpoint take_str (n : nat) (s : string) : string :=
  match n, s with
  | O, _ => EmptyString
  | S n', String c s' => String c (take_str n' s')
  | S _, EmptyString => EmptyString
  end.

Definition is_empty (s : string) : bool :=
  match s with EmptyString => true | _ => false end.

Definition is_digit (c : ascii) : bool :=
  (48 <=? byte_of c) && (byte_of c <=? 57).

(** ** Go [int] *)

Definition maxInt : Z := 2 ^ 63 - 1.
Definition minInt : Z := - 2 ^ 63.

(** Two's-complement wrap-around of a 64-bit signed integer. *)
Definition wrap (z : Z) : Z := (z + 2 ^ 63) mod 2 ^ 64 - 2 ^ 63.

(** [x++] on an [int]. *)
Definition incr (z : Z) : Z := wrap (z + 1).

(** ** Outcomes of a call *)

Inductive NumErrKind := ErrSyntax | ErrRange.

(** The values of Go's [error] that [Parse] can return. *)
Inductive error :=
| ErrorString (msg : string)                      (* errors.New(msg) *)
| NumError (func num : string) (k : NumErrKind).  (* *strconv.NumError *)

Inductive result (A : Type) :=
| Ok (a : A)         (* the call returns [a] and a nil error *)
| Err (e : error)    (* the call returns a nil value and the error [e] *)
| Panic.             (* the goroutine panics; the call does not return *)
Arguments Ok {A} a.
Arguments Err {A} e.
Arguments Panic {A}.

(** Sequencing: an error or a panic of the first call ends the whole
    computation (Go's [if err != nil { return nil, err }]). *)
#[global] Instance result_bind : MBind result := fun A B k r =>
  match r with
  | Ok a => k a
  | Err e => Err e
  | Panic => Panic
  end.

(** ** Package [strings] of the Go library *)

Module strings.

Fixpoint HasPrefix (s prefix : string) {struct prefix} : bool :=
  match prefix, s with
  | EmptyString, _ => true
  | String p prefix', String c s' => Ascii.eqb c p && HasPrefix s' prefix'
  | String _ _, EmptyString => false
  end.

Definition HasSuffix (s suffix : string) : bool :=
  (String.length suffix <=? String.length s)%nat &&
  String.eqb (drop_str (String.length s - String.length suffix) s) suffix.

Definition TrimPrefix (s prefix : string) : string :=
  if HasPrefix s prefix then drop_str (String.length prefix) s else s.

Definition TrimSuffix (s suffix : string) : string :=
  if HasSuffix s suffix
  then take_str (String.length s - String.length suffix) s
  else s.

(** [split_from sep skip s]: the first piece and the later pieces of [s]
    cut at the non-overlapping occurrences of [sep], leftmost first;
    [skip] counts the bytes of an occurrence still to be passed over. *)
Fixpoint split_from (sep : string) (skip : nat) (s : string)
  : string * list string :=
  match s with
  | EmptyString => (EmptyString, [])
  | String c s' =>
      match skip with
      | S k => split_from sep k s'
      | O =>
          if HasPrefix s sep
          then let '(h, t) := split_from sep (String.length sep - 1) s' in
               (EmptyString, h :: t)
          else let '(h, t) := split_from sep O s' in
               (String c h, t)
      end
  end.

(** [strings.Split(s, sep)] for a non-empty [sep] (both call sites pass a
    constant, non-empty separator). *)
Definition Split (s sep : string) : list string :=
  let '(h, t) := split_from sep O s in h :: t.

End strings.

(** ** Package [unicode/utf8] of the Go library *)

Module utf8.

Definition RuneError : Z := 65533.
Definition RuneSelf : Z := 128.
Definition MaxRune : Z := 1114111.

Definition byte_at (s : string) (i : nat) : Z :=
  match String.get i s with Some c => byte_of c | None => 0 end.

(** The tables [first] and [acceptRanges]: for a leading byte, the size
    of the sequence and the bounds of its second byte. *)
Definition first (s0 : Z) : option (nat * Z * Z) :=
  if (194 <=? s0) && (s0 <=? 223) then Some (2%nat, 128, 191)
  else if s0 =? 224 then Some (3%nat, 160, 191)
  else if (225 <=? s0) && (s0 <=? 236) then Some (3%nat, 128, 191)
  else if s0 =? 237 then Some (3%nat, 128, 159)
  else if (238 <=? s0) && (s0 <=? 239) then Some (3%nat, 128, 191)
  else if s0 =? 240 then Some (4%nat, 144, 191)
  else if (241 <=? s0) && (s0 <=? 243) then Some (4%nat, 128, 191)
  else if s0 =? 244 then Some (4%nat, 128, 143)
  else None.

Definition cont (b : Z) : bool := (128 <=? b) && (b <=? 191).

(** [utf8.DecodeRuneInString]: the rune at the head of [s] and its width;
    an invalid or short sequence is [RuneError] of width 1. *)
Definition DecodeRuneInString (s : string) : Z * nat :=
  match s with
  | EmptyString => (RuneError, 0%nat)
  | String c0 _ =>
      let s0 := byte_of c0 in
      if s0 <? RuneSelf then (s0, 1%nat)
      else match first s0 with
      | None => (RuneError, 1%nat)
      | Some (sz, lo, hi) =>
          let s1 := byte_at s 1 in
          let s2 := byte_at s 2 in
          let s3 := byte_at s 3 in
          if (String.length s <? sz)%nat then (RuneError, 1%nat)
          else if (s1 <? lo) || (hi <? s1) then (RuneError, 1%nat)
          else if (sz <=? 2)%nat
          then (Z.lor (Z.shiftl (Z.land s0 31) 6) (Z.land s1 63), 2%nat)
          else if negb (cont s2) then (RuneError, 1%nat)
          else if (sz <=? 3)%nat
          then (Z.lor (Z.lor (Z.shiftl (Z.land s0 15) 12)
                             (Z.shiftl (Z.land s1 63) 6))
                      (Z.land s2 63), 3%nat)
          else if negb (cont s3) then (RuneError, 1%nat)
          else (Z.lor (Z.lor (Z.lor (Z.shiftl (Z.land s0 7) 18)
                                    (Z.shiftl (Z.land s1 63) 12))
                             (Z.shiftl (Z.land s2 63) 6))
                      (Z.land s3 63), 4%nat)
      end
  end.

Definition ValidRune (r : Z) : bool :=
  ((0 <=? r) && (r <? 55296)) || ((57343 <? r) && (r <=? MaxRune)).

Definition enc3 (r : Z) : string :=
  String (of_byte (Z.lor 224 (Z.shiftr r 12)))
    (String (of_byte (Z.lor 128 (Z.land (Z.shiftr r 6) 63)))
       (str1 (of_byte (Z.lor 128 (Z.land r 63))))).

(** [utf8.EncodeRune], as the bytes it writes. *)
Definition EncodeRune (r : Z) : string :=
  if (0 <=? r) && (r <=? 127) then str1 (of_byte r)
  else if (0 <=? r) && (r <=? 2047)
  then String (of_byte (Z.lor 192 (Z.shiftr r 6)))
         (str1 (of_byte (Z.lor 128 (Z.land r 63))))
  else if negb (ValidRune r) then enc3 RuneError
  else if r <=? 65535 then enc3 r
  else String (of_byte (Z.lor 240 (Z.shiftr r 18)))
         (String (of_byte (Z.lor 128 (Z.land (Z.shiftr r 12) 63)))
            (String (of_byte (Z.lor 128 (Z.land (Z.shiftr r 6) 63)))
               (str1 (of_byte (Z.lor 128 (Z.land r 63)))))).

End utf8.

(** ** Package [strconv] of the Go library *)

Module strconv.

(** The value of a run of decimal digits; [None] when a byte is not a
    digit. *)
Fixpoint digits_val (acc : Z) (s : string) : option Z :=
  match s with
  | EmptyString => Some acc
  | String c s' =>
      if is_digit c then digits_val (10 * acc + (byte_of c - 48)) s'
      else None
  end.

(** [strconv.Atoi]: the value and the error. As in Go, the value is 0
    with a syntax error and the nearest bound with a range error. *)
Definition Atoi (s : string) : Z * option error :=
  let '(neg, body) :=
    match s with
    | String "-"%char r => (true, r)
    | String "+"%char r => (false, r)
    | _ => (false, s)
    end in
  if is_empty body then (0, Some (NumError "Atoi" s ErrSyntax))
  else match digits_val 0 body with
  | None => (0, Some (NumError "Atoi" s ErrSyntax))
  | Some v =>
      let n := if neg then - v else v in
      if maxInt <? n then (maxInt, Some (NumError "Atoi" s ErrRange))
      else if n <? minInt then (minInt, Some (NumError "Atoi" s ErrRange))
      else (n, None)
  end.

Definition unhex (c : ascii) : option Z :=
  let b := byte_of c in
  if (48 <=? b) && (b <=? 57) then Some (b - 48)
  else if (97 <=? b) && (b <=? 102) then Some (b - 97 + 10)
  else if (65 <=? b) && (b <=? 70) then Some (b - 65 + 10)
  else None.

(** The value of the first [n] bytes of [s] read as hexadecimal digits,
    and the rest of [s]. *)
Fixpoint hex_val (n : nat) (acc : Z) (s : string) : option (Z * string) :=
  match n with
  | O => Some (acc, s)
  | S n' =>
      match s with
      | EmptyString => None
      | String c s' =>
          match unhex c with
          | Some x => hex_val n' (Z.lor (Z.shiftl acc 4) x) s'
          | None => None
          end
      end
  end.

Definition octal (c : ascii) : option Z :=
  let b := byte_of c in
  if (48 <=? b) && (b <=? 55) then Some (b - 48) else None.

(** [strconv.UnquoteChar(s, quote)]: the value of the first character or
    escape sequence of [s], whether it is to be written as UTF-8, and
    the rest of [s]; [None] is [ErrSyntax]. *)
Definition UnquoteChar (s : string) (quote : ascii)
  : option (Z * bool * string) :=
  match s with
  | EmptyString => None
  | String c s1 =>
      if Ascii.eqb c quote
         && (Ascii.eqb quote "'"%char || Ascii.eqb quote "034"%char)
      then None
      else if utf8.RuneSelf <=? byte_of c
      then let '(r, size) := utf8.DecodeRuneInString s in
           Some (r, true, drop_str size s)
      else if negb (Ascii.eqb c "\"%char)
      then Some (byte_of c, false, s1)
      else match s1 with
      | EmptyString => None
      | String e s2 =>
          let simple (v : Z) := Some (v, false, s2) in
          let hex (n : nat) (multi : bool) :=
            match hex_val n 0 s2 with
            | None => None
            | Some (v, rest) =>
                if multi
                then if utf8.ValidRune v then Some (v, true, rest) else None
                else Some (v, false, rest)
            end in
          let b := byte_of e in
          if b =? 97 then simple 7           (* \a *)
          else if b =? 98 then simple 8      (* \b *)
          else if b =? 102 then simple 12    (* \f *)
          else if b =? 110 then simple 10    (* \n *)
          else if b =? 114 then simple 13    (* \r *)
          else if b =? 116 then simple 9     (* \t *)
          else if b =? 118 then simple 11    (* \v *)
          else if b =? 120 then hex 2%nat false   (* \xNN *)
          else if b =? 117 then hex 4%nat true    (* \uNNNN *)
          else if b =? 85 then hex 8%nat true     (* \UNNNNNNNN *)
          else if (48 <=? b) && (b <=? 55)
          then match s2 with
               | String d1 (String d2 rest) =>
                   match octal d1, octal d2 with
                   | Some x1, Some x2 =>
                       let v := Z.lor (Z.shiftl
                                  (Z.lor (Z.shiftl (b - 48) 3) x1) 3) x2 in
                       if 255 <? v then None else Some (v, false, rest)
                   | _, _ => None
                   end
               | _ => None
               end
          else if b =? 92 then simple 92     (* \\ *)
          else if (b =? 39) || (b =? 34)     (* \' and \dquote *)
          then if Ascii.eqb e quote then simple b else None
          else None
      end
  end.

(** The loop of [unquote] over the text after the opening quote of an
    interpreted string literal: characters are unquoted up to the first
    unescaped quote, which must be the last byte. [fuel] bounds the
    number of iterations; each one consumes at least one byte. *)
Fixpoint unquote_loop (fuel : nat) (s buf : string) : option string :=
  match fuel with
  | O => None
  | S fuel' =>
      match s with
      | EmptyString => None                  (* no terminating quote *)
      | String c rest =>
          if Ascii.eqb c "034"%char
          then if is_empty rest then Some buf else None
          else if Ascii.eqb c "010"%char then None
          else match UnquoteChar s "034"%char with
          | None => None
          | Some (r, multibyte, rem) =>
              let out :=
                if (r <? utf8.RuneSelf) || negb multibyte
                then str1 (of_byte r)
                else utf8.EncodeRune r in
              unquote_loop fuel' rem (buf +:+ out)
          end
      end
  end.

(** [strconv.Unquote] on an interpreted string literal (one that starts
    with a double quote), the only form the package passes to it.
    [None] is [ErrSyntax]. *)
Definition Unquote (s : string) : option string :=
  match s with
  | String q rest =>
      if Ascii.eqb q "034"%char && negb (is_empty rest)
      then unquote_loop (S (String.length rest)) rest EmptyString
      else None
  | EmptyString => None
  end.

End strconv.


(** ** Package [regexp]: the three expressions of the package

    Each expression is fixed, so its matcher is written out. Go's engine
    returns the leftmost match and, among the matches that start there,
    the one a backtracking search with greedy operators finds first. *)

Module regexp.

(** The longest prefix of [s] whose bytes satisfy [p], and the rest. *)
Fixpoint span (p : ascii -> bool) (s : string) : string * string :=
  match s with
  | EmptyString => (EmptyString, EmptyString)
  | String c s' =>
      if p c then let '(a, b) := span p s' in (String c a, b)
      else (EmptyString, s)
  end.

(** [.] matches every character but the line feed. *)
Definition dot (c : ascii) : bool := negb (Ascii.eqb c "010"%char).

(** [.+$] at the head of [s]: [s] is not empty and holds no line feed. *)
Definition dot_plus_eot (s : string) : bool :=
  negb (is_empty s) && is_empty (snd (span dot s)).

(** A literal at the head of [s]: the rest of [s] after it. *)
Definition lit (l s : string) : option string :=
  if strings.HasPrefix s l then Some (drop_str (String.length l) s)
  else None.

(** An optional literal (greedy): it is consumed when it is there. *)
Definition opt_lit (l s : string) : string :=
  if strings.HasPrefix s l then drop_str (String.length l) s else s.

(** [reinReg = `^index .+$`]. *)
Definition reinReg_MatchString (s : string) : bool :=
  match lit "index " s with
  | Some r => dot_plus_eot r
  | None => false
  end.

Definition sign (c : ascii) : bool :=
  Ascii.eqb c "-"%char || Ascii.eqb c "+"%char.

(** [rempReg = `^(-|\+){3} .+$`]. *)
Definition rempReg_MatchString (s : string) : bool :=
  match s with
  | String c1 (String c2 (String c3 (String c4 r))) =>
      sign c1 && sign c2 && sign c3 && Ascii.eqb c4 " "%char
      && dot_plus_eot r
  | _ => false
  end.

(** [(\d+),?(\d+)?] at the head of [s]: the two groups (the second one
    empty when it does not take part) and the rest. The expression is
    always followed by a space, which is neither a digit nor a comma, so
    a match has to end where the greedy one does: after the whole first
    run of digits, the comma if there is one, and the whole second run. *)
Definition range (s : string) : option (string * string * string) :=
  let '(d1, r1) := span is_digit s in
  if is_empty d1 then None
  else let '(d2, r2) := span is_digit (opt_lit "," r1) in
       Some (d1, d2, r2).

(** [hunkHeaderReg = `@@ \-(\d+),?(\d+)? \+(\d+),?(\d+)? @@ ?(.+)?`]
    matched at the head of [s]: the whole match and the five groups. *)
Definition hunkHeaderReg_at (s : string) : option (list string) :=
  r0 ← lit "@@ -" s;
  '(m1, m2, r1) ← range r0;
  r2 ← lit " +" r1;
  '(m3, m4, r3) ← range r2;
  r4 ← lit " @@" r3;
  let '(m5, r5) := span dot (opt_lit " " r4) in
  let m0 := take_str (String.length s - String.length r5) s in
  Some [m0; m1; m2; m3; m4; m5].

(** [hunkHeaderReg.FindStringSubmatch(s)]: the expression is not
    anchored, so every start is tried, from the left; [None] is the nil
    slice of no match. *)
Fixpoint hunkHeaderReg_FindStringSubmatch (s : string)
  : option (list string) :=
  match hunkHeaderReg_at s with
  | Some m => Some m
  | None =>
      match s with
      | EmptyString => None
      | String _ s' => hunkHeaderReg_FindStringSubmatch s'
      end
  end.

End regexp.


(** ** The data model of the package *)

(** [FileMode]: the status of a file in a diff. *)
Inductive FileMode :=
| FileModeDeleted
| FileModeModified
| FileModeNew
| FileModeRenamed.

(** [DiffLineMode]: added, removed or unchanged. *)
Inductive DiffLineMode :=
| DiffLineModeAdded
| DiffLineModeRemoved
| DiffLineModeUnchanged.

#[global] Instance FileMode_eq_dec : EqDecision FileMode.
Proof. solve_decision. Defined.
#[global] Instance DiffLineMode_eq_dec : EqDecision DiffLineMode.
Proof. solve_decision. Defined.

(** [DiffLine]. The field [Mode] of a line is [LMode] here: [Mode] names
    the field of [DiffFile]. *)
Record DiffLine := {
  LMode : DiffLineMode;
  Number : Z;
  Content : string;
  Position : Z;   (* the line in the diff *)
}.

Record DiffRange := {
  Start : Z;                (* starting line number *)
  Length : Z;               (* the number of lines the hunk applies to *)
  Lines : list DiffLine;    (* each line of the hunk range *)
}.

Record DiffHunk := {
  HunkHeader : string;
  OrigRange : DiffRange;
  NewRange : DiffRange;
  WholeRange : DiffRange;
}.

Record DiffFile := {
  DiffHeader : string;
  Mode : FileMode;
  OrigName : string;
  NewName : string;
  Hunks : list DiffHunk;
  SimilarityIndex : Z;
}.

Record Diff := {
  Files : list DiffFile;
  Raw : string;
  PullID : Z;
}.

(** The zero values [DiffRange{}], [DiffHunk{}] and [DiffFile{}]. *)
Definition zeroRange : DiffRange := {| Start := 0; Length := 0; Lines := [] |}.

Definition zeroHunk : DiffHunk :=
  {| HunkHeader := EmptyString; OrigRange := zeroRange;
     NewRange := zeroRange; WholeRange := zeroRange |}.

Definition zeroFile : DiffFile :=
  {| DiffHeader := EmptyString; Mode := FileModeDeleted;
     OrigName := EmptyString; NewName := EmptyString;
     Hunks := []; SimilarityIndex := 0 |}.

(** Assignments to one field. *)
Definition set_Lines (ls : list DiffLine) (r : DiffRange) : DiffRange :=
  {| Start := Start r; Length := Length r; Lines := ls |}.

Definition append_Line (dl : DiffLine) (r : DiffRange) : DiffRange :=
  set_Lines (Lines r ++ [dl]) r.

Definition set_HunkHeader (s : string) (h : DiffHunk) : DiffHunk :=
  {| HunkHeader := s; OrigRange := OrigRange h;
     NewRange := NewRange h; WholeRange := WholeRange h |}.

Definition set_OrigRange (r : DiffRange) (h : DiffHunk) : DiffHunk :=
  {| HunkHeader := HunkHeader h; OrigRange := r;
     NewRange := NewRange h; WholeRange := WholeRange h |}.

Definition set_NewRange (r : DiffRange) (h : DiffHunk) : DiffHunk :=
  {| HunkHeader := HunkHeader h; OrigRange := OrigRange h;
     NewRange := r; WholeRange := WholeRange h |}.

Definition set_WholeRange (r : DiffRange) (h : DiffHunk) : DiffHunk :=
  {| HunkHeader := HunkHeader h; OrigRange := OrigRange h;
     NewRange := NewRange h; WholeRange := r |}.

Definition set_DiffHeader (s : string) (f : DiffFile) : DiffFile :=
  {| DiffHeader := s; Mode := Mode f; OrigName := OrigName f;
     NewName := NewName f; Hunks := Hunks f;
     SimilarityIndex := SimilarityIndex f |}.

Definition set_Mode (m : FileMode) (f : DiffFile) : DiffFile :=
  {| DiffHeader := DiffHeader f; Mode := m; OrigName := OrigName f;
     NewName := NewName f; Hunks := Hunks f;
     SimilarityIndex := SimilarityIndex f |}.

Definition set_OrigName (s : string) (f : DiffFile) : DiffFile :=
  {| DiffHeader := DiffHeader f; Mode := Mode f; OrigName := s;
     NewName := NewName f; Hunks := Hunks f;
     SimilarityIndex := SimilarityIndex f |}.

Definition set_NewName (s : string) (f : DiffFile) : DiffFile :=
  {| DiffHeader := DiffHeader f; Mode := Mode f; OrigName := OrigName f;
     NewName := s; Hunks := Hunks f;
     SimilarityIndex := SimilarityIndex f |}.

Definition set_Hunks (hs : list DiffHunk) (f : DiffFile) : DiffFile :=
  {| DiffHeader := DiffHeader f; Mode := Mode f; OrigName := OrigName f;
     NewName := NewName f; Hunks := hs;
     SimilarityIndex := SimilarityIndex f |}.

Definition set_SimilarityIndex (n : Z) (f : DiffFile) : DiffFile :=
  {| DiffHeader := DiffHeader f; Mode := Mode f; OrigName := OrigName f;
     NewName := NewName f; Hunks := Hunks f; SimilarityIndex := n |}.

(** [hunk.Length()]: the hunk's line length. *)
Definition DiffHunk_Length (hunk : DiffHunk) : Z :=
  wrap (Z.of_nat (length (Lines (WholeRange hunk))) + 1).

(** ** [Changed] *)

(** [dFiles[k] = append(dFiles[k], n)]: a missing key reads as the nil
    slice. *)
Definition map_append (k : string) (n : Z) (dFiles : gmap string (list Z))
  : gmap string (list Z) :=
  <[k := default [] (dFiles !! k) ++ [n]]> dFiles.

(** The two inner loops of [Changed], over the hunks of [f] and the lines
    of their new range. *)
Definition changed_file (dFiles : gmap string (list Z)) (f : DiffFile)
  : gmap string (list Z) :=
  foldl (fun dFiles h =>
    foldl (fun dFiles dl =>
      if decide (LMode dl = DiffLineModeAdded)
      then map_append (NewName f) (Number dl) dFiles
      else dFiles)
    dFiles (Lines (NewRange h)))
  dFiles (Hunks f).

(** [d.Changed()]: a map of filename to lines changed in that file;
    deleted files are ignored. *)
Definition Changed (d : Diff) : gmap string (list Z) :=
  foldl (fun dFiles f =>
    if decide (Mode f = FileModeDeleted) then dFiles
    else changed_file dFiles f)
  ∅ (Files d).

(** ** [lineMode], [isSourceLine], the filename decoder *)

Definition lineMode (line : string) : result DiffLineMode :=
  match line with
  | EmptyString => Panic        (* line[:1]: slice bounds out of range *)
  | String c _ =>
      if Ascii.eqb c " "%char then Ok DiffLineModeUnchanged
      else if Ascii.eqb c "+"%char then Ok DiffLineModeAdded
      else if Ascii.eqb c "-"%char then Ok DiffLineModeRemoved
      else Err (ErrorString
             ("could not parse line mode for line: " +:+ dquote
              +:+ line +:+ dquote))
  end.

Definition oldFilePrefix : string := "--- ".
Definition newFilePrefix : string := "+++ ".
Definition similarityPrefix : string := "similarity index ".
Definition renameFromPrefix : string := "rename from ".
Definition renameToPrefix : string := "rename to ".
Definition binaryPrefix : string := "Binary files ".

Definition noNewline : string := "\ No newline at end of file".

Definition isSourceLine (line : string) : bool :=
  if String.eqb line noNewline then false
  else
    let l := String.length line in
    if (l =? 0)%nat
       || ((3 <=? l)%nat
           && (String.eqb (take_str 3 line) "---"
               || String.eqb (take_str 3 line) "+++"))
    then false
    else true.

Definition decodeOctalString (s : string) : string :=
  match strconv.Unquote (dquote +:+ s +:+ dquote) with
  | None => s          (* err != nil *)
  | Some s2 => s2
  end.

Definition parseFileName (filenameWithPrefix : string) : string :=
  if strings.HasPrefix filenameWithPrefix "a/"
  then strings.TrimPrefix filenameWithPrefix "a/"
  else if strings.HasPrefix filenameWithPrefix "b/"
  then strings.TrimPrefix filenameWithPrefix "b/"
  else if strings.HasPrefix filenameWithPrefix dquote
  then
    let filenameWithPrefix :=
      strings.TrimSuffix (strings.TrimPrefix filenameWithPrefix dquote)
                         dquote in
    if strings.HasPrefix filenameWithPrefix "a/"
    then decodeOctalString (strings.TrimPrefix filenameWithPrefix "a/")
    else if strings.HasPrefix filenameWithPrefix "b/"
    then decodeOctalString (strings.TrimPrefix filenameWithPrefix "b/")
    else decodeOctalString filenameWithPrefix
  else filenameWithPrefix.

(** ** [Parse]

    The variables of [Parse]. The pointer [file] is assigned once, in the
    ["diff "] case, where the new file is also appended to [diff.Files]:
    [file] is nil exactly when [diff.Files] is empty, and otherwise it
    points to the last element. In the same way [hunk] is assigned only in
    the ["@@ "] case, which appends it to [file.Hunks] and sets [inHunk];
    [inHunk] is cleared only where [file] changes, so that whenever a
    content line is added [hunk] points to the last hunk of the last file.
    The state therefore keeps [diff.Files] and reads both pointers off
    it. *)
Record state := {
  diff_Files : list DiffFile;
  addedCount : Z;
  removedCount : Z;
  inHunk : bool;
  diffPosCount : Z;
  firstHunkInFile : bool;
}.

Definition init : state :=
  {| diff_Files := []; addedCount := 0; removedCount := 0;
     inHunk := false; diffPosCount := 0; firstHunkInFile := false |}.

Definition set_diff_Files (fs : list DiffFile) (st : state) : state :=
  {| diff_Files := fs; addedCount := addedCount st;
     removedCount := removedCount st; inHunk := inHunk st;
     diffPosCount := diffPosCount st;
     firstHunkInFile := firstHunkInFile st |}.

(** [g] applied to the last element of a list, if there is one. *)
Fixpoint map_last {A} (g : A -> A) (l : list A) : list A :=
  match l with
  | [] => []
  | [x] => [g x]
  | x :: l' => x :: map_last g l'
  end.

(** The file [file] points to, [None] for the nil pointer. *)
Definition file_of (st : state) : option DiffFile := last (diff_Files st).

(** An assignment through [file], such as [file.Mode = m]: the file is
    replaced by its image under [g]. It panics on the nil pointer. *)
Definition assign_file (g : DiffFile -> DiffFile) (st : state)
  : result state :=
  match file_of st with
  | None => Panic
  | Some _ => Ok (set_diff_Files (map_last g (diff_Files st)) st)
  end.

(** An assignment through [hunk], in the same way. *)
Definition assign_hunk (g : DiffHunk -> DiffHunk) (st : state)
  : result state :=
  match file_of st with
  | None => Panic
  | Some f =>
      match last (Hunks f) with
      | None => Panic
      | Some _ =>
          assign_file (fun f => set_Hunks (map_last g (Hunks f)) f) st
      end
  end.

(** The header block of a file, from the ["diff "] line and the three
    lines after it ([rest] is [lines[idx+1:]]). *)
Definition diffHeader (l : string) (rest : list string) : string :=
  match rest with
  | index :: mp1 :: mp2 :: _ =>        (* len(lines) > idx+3 *)
      let header :=
        if regexp.reinReg_MatchString index
        then l +:+ nl +:+ index else l in
      if regexp.rempReg_MatchString mp1 && regexp.rempReg_MatchString mp2
      then header +:+ nl +:+ mp1 +:+ nl +:+ mp2
      else header
  | _ => l
  end.

(** [strconv.Atoi] followed by [if err != nil { return nil, err }]. *)
Definition atoi (s : string) : result Z :=
  match strconv.Atoi s with
  | (n, None) => Ok n
  | (_, Some e) => Err e
  end.

(** The hunk a ["@@ "] line opens: the header is matched against
    [hunkHeaderReg] and its numbers are read. *)
Definition hunkOfHeader (l : string) : result DiffHunk :=
  match regexp.hunkHeaderReg_FindStringSubmatch l with
  | Some [_; m1; m2; m3; m4; m5] =>
      a ← atoi m1;
      b ← (if (0 <? len m2) then atoi m2 else Ok a);
      c ← atoi m3;
      d ← (if (0 <? len m4) then atoi m4 else Ok c);
      Ok {| HunkHeader := (if (0 <? len m5) then m5 else EmptyString);
            OrigRange := {| Start := a; Length := b; Lines := [] |};
            NewRange := {| Start := c; Length := d; Lines := [] |};
            WholeRange := zeroRange |}
  | _ =>                                (* len(m) < 5 *)
      Err (ErrorString ("Error parsing line: " +:+ l))
  end.

(** The body of the case [inHunk && isSourceLine(l)] once the mode [m]
    of the line is known. [newLine] and [origLine] are the two copies of
    the line; the inner [switch m] appends them to the ranges of [hunk]
    and advances the counters. *)
Definition mkLine (m : DiffLineMode) (l : string) (pos n : Z) : DiffLine :=
  {| LMode := m; Number := n; Content := drop_str 1 l; Position := pos |}.

Definition addToHunk (m : DiffLineMode) (newLine origLine : DiffLine)
  (hunk : DiffHunk) : DiffHunk :=
  match m with
  | DiffLineModeAdded =>
      set_WholeRange (append_Line newLine (WholeRange hunk))
        (set_NewRange (append_Line newLine (NewRange hunk)) hunk)
  | DiffLineModeRemoved =>
      set_WholeRange (append_Line origLine (WholeRange hunk))
        (set_OrigRange (append_Line origLine (OrigRange hunk)) hunk)
  | DiffLineModeUnchanged =>
      set_OrigRange (append_Line origLine (OrigRange hunk))
        (set_WholeRange (append_Line newLine (WholeRange hunk))
           (set_NewRange (append_Line newLine (NewRange hunk)) hunk))
  end.

Definition addLine (m : DiffLineMode) (l : string) (st : state)
  : result state :=
  let newLine := mkLine m l (diffPosCount st) (addedCount st) in
  let origLine := mkLine m l (diffPosCount st) (removedCount st) in
  st' ← assign_hunk (addToHunk m newLine origLine) st;
  Ok {| diff_Files := diff_Files st';
        addedCount :=
          match m with
          | DiffLineModeAdded | DiffLineModeUnchanged =>
              incr (addedCount st)
          | DiffLineModeRemoved => addedCount st
          end;
        removedCount :=
          match m with
          | DiffLineModeRemoved | DiffLineModeUnchanged =>
              incr (removedCount st)
          | DiffLineModeAdded => removedCount st
          end;
        inHunk := inHunk st; diffPosCount := diffPosCount st;
        firstHunkInFile := firstHunkInFile st |}.

(** [diffPosCount++], the first statement of the loop body. *)
Definition tick (st : state) : state :=
  {| diff_Files := diff_Files st; addedCount := addedCount st;
     removedCount := removedCount st; inHunk := inHunk st;
     diffPosCount := incr (diffPosCount st);
     firstHunkInFile := firstHunkInFile st |}.

(** One iteration of the loop of [Parse] on the line [l = lines[idx]],
    with [rest = lines[idx+1:]]. The cases of the [switch] are tried in
    the order of the source. *)
Definition step (st0 : state) (l : string) (rest : list string)
  : result state :=
  let st := tick st0 in
  if strings.HasPrefix l "diff " then
    let file :=
      set_Mode FileModeModified
        (set_DiffHeader (diffHeader l rest) zeroFile) in
    Ok {| diff_Files := diff_Files st ++ [file];
          addedCount := addedCount st; removedCount := removedCount st;
          inHunk := false; diffPosCount := diffPosCount st;
          firstHunkInFile := true |}
  else if String.eqb l "+++ /dev/null" then
    assign_file (set_Mode FileModeDeleted) st
  else if String.eqb l "--- /dev/null" then
    assign_file (set_Mode FileModeNew) st
  else if strings.HasPrefix l similarityPrefix then
    assign_file
      (fun f =>
         set_SimilarityIndex
           (fst (strconv.Atoi
                   (strings.TrimSuffix
                      (strings.TrimPrefix l similarityPrefix) "%")))
           (set_Mode FileModeRenamed f)) st
  else if strings.HasPrefix l oldFilePrefix then
    assign_file
      (set_OrigName (parseFileName (strings.TrimPrefix l oldFilePrefix))) st
  else if strings.HasPrefix l newFilePrefix then
    assign_file
      (set_NewName (parseFileName (strings.TrimPrefix l newFilePrefix))) st
  else if strings.HasPrefix l renameFromPrefix then
    assign_file
      (set_OrigName (parseFileName (strings.TrimPrefix l renameFromPrefix)))
      st
  else if strings.HasPrefix l renameToPrefix then
    assign_file
      (set_NewName (parseFileName (strings.TrimPrefix l renameToPrefix))) st
  else if strings.HasPrefix l binaryPrefix then
    st ← assign_file (set_Mode FileModeModified) st;
    let binaryDiffer :=
      strings.TrimSuffix (strings.TrimPrefix l binaryPrefix) " differ" in
    match strings.Split binaryDiffer " and " with
    | [name0; name1] =>
        assign_file
          (fun f => set_NewName (parseFileName name1)
                      (set_OrigName (parseFileName name0) f)) st
    | _ => Err (ErrorString "invalid binary diff")
    end
  else if strings.HasPrefix l "@@ " then
    let st :=
      {| diff_Files := diff_Files st; addedCount := addedCount st;
         removedCount := removedCount st; inHunk := true;
         diffPosCount :=
           (if firstHunkInFile st then 0 else diffPosCount st);
         firstHunkInFile := false |} in
    (* file.Hunks = append(file.Hunks, hunk) comes before the header is
       read: a nil [file] panics whatever the header is *)
    st ← assign_file (fun f => f) st;
    hunk ← hunkOfHeader l;
    st ← assign_file (fun f => set_Hunks (Hunks f ++ [hunk]) f) st;
    Ok {| diff_Files := diff_Files st;
          addedCount := Start (NewRange hunk);
          removedCount := Start (OrigRange hunk);
          inHunk := inHunk st; diffPosCount := diffPosCount st;
          firstHunkInFile := firstHunkInFile st |}
  else if inHunk st && isSourceLine l then
    m ← lineMode l;
    addLine m l st
  else Ok st.

(** The loop over [lines]. *)
Fixpoint loop (st : state) (lines : list string) : result state :=
  match lines with
  | [] => Ok st
  | l :: rest => st' ← step st l rest; loop st' rest
  end.

(** [Parse] takes a diff, such as produced by [git diff], and parses it
    into a [Diff]. *)
Definition Parse (diffString : string) : result Diff :=
  st ← loop init (strings.Split diffString nl);
  Ok {| Files := diff_Files st; Raw := diffString; PullID := 0 |}.

(** An input written line by line: every line is followed by a line
    feed. *)
Definition unlines (ls : list string) : string :=
  foldr (fun l s => l +:+ nl +:+ s) EmptyString ls.

(** ** Notions the properties are stated with *)

(** The loop over the lines [pre] when the lines [tail] follow them: the
    state in which [Parse] reaches the first line of [tail]. *)
Fixpoint loop_upto (st : state) (pre tail : list string) : result state :=
  match pre with
  | [] => Ok st
  | l :: pre' => st' ← step st l (pre' ++ tail); loop_upto st' pre' tail
  end.

(** The lines one of the first ten cases of the [switch] takes. *)
Definition headerLine (l : string) : bool :=
  strings.HasPrefix l "diff "
  || String.eqb l "+++ /dev/null"
  || String.eqb l "--- /dev/null"
  || strings.HasPrefix l similarityPrefix
  || strings.HasPrefix l oldFilePrefix
  || strings.HasPrefix l newFilePrefix
  || strings.HasPrefix l renameFromPrefix
  || strings.HasPrefix l renameToPrefix
  || strings.HasPrefix l binaryPrefix
  || strings.HasPrefix l "@@ ".

(** The sections of a diff: a line that starts with ["diff "] opens a
    section and every other line joins the section that is open; the
    lines before the first section belong to none. *)
Definition sections (lines : list string) : list (list string) :=
  foldl (fun secs l =>
           if strings.HasPrefix l "diff " then secs ++ [[l]]
           else map_last (fun sec => sec ++ [l]) secs)
        [] lines.

(** The lines that assign [OrigName], and those that assign [NewName]. *)
Definition writesOrigName (l : string) : bool :=
  (strings.HasPrefix l oldFilePrefix && negb (String.eqb l "--- /dev/null"))
  || strings.HasPrefix l renameFromPrefix
  || strings.HasPrefix l binaryPrefix.

Definition writesNewName (l : string) : bool :=
  (strings.HasPrefix l newFilePrefix && negb (String.eqb l "+++ /dev/null"))
  || strings.HasPrefix l renameToPrefix
  || strings.HasPrefix l binaryPrefix.

(** The positions of the content lines of a hunk in the order of the
    diff ([WholeRange] holds one copy of every content line), and those
    of all the hunks of a file. *)
Definition positions (h : DiffHunk) : list Z :=
  map Position (Lines (WholeRange h)).

Definition filePositions (f : DiffFile) : list Z :=
  flat_map positions (Hunks f).

(** The line numbers of a range. *)
Definition numbers (r : DiffRange) : list Z := map Number (Lines r).

(** A strictly increasing sequence. *)
Definition increasing (l : list Z) : Prop :=
  forall (i j : nat) (x y : Z),
    l !! i = Some x -> l !! j = Some y -> (i < j)%nat -> x < y.

(** The numbers of the added lines of a file, by its new side, and those
    of all the files of a diff that are not deleted and have the new name
    [name]. *)
Definition addedNumbers (f : DiffFile) : list Z :=
  flat_map (fun h =>
              map Number
                (filter (fun dl => LMode dl = DiffLineModeAdded)
                        (Lines (NewRange h))))
           (Hunks f).

Definition addedIn (d : Diff) (name : string) : list Z :=
  flat_map addedNumbers
    (filter (fun f => Mode f <> FileModeDeleted /\ NewName f = name)
            (Files d)).

(** *** The iteration as a relation

    [FieldUpdate l g]: the line [l] is taken by one of the cases that
    assign to the mode or to the names of [file], and [g] is what the case
    does to the file. *)
Inductive FieldUpdate (l : string) : (DiffFile -> DiffFile) -> Prop :=
| FU_deleted :
    l = "+++ /dev/null" ->
    FieldUpdate l (set_Mode FileModeDeleted)
| FU_new :
    l = "--- /dev/null" ->
    FieldUpdate l (set_Mode FileModeNew)
| FU_similarity :
    strings.HasPrefix l similarityPrefix = true ->
    FieldUpdate l
      (fun f =>
         set_SimilarityIndex
           (fst (strconv.Atoi
                   (strings.TrimSuffix
                      (strings.TrimPrefix l similarityPrefix) "%")))
           (set_Mode FileModeRenamed f))
| FU_orig :
    strings.HasPrefix l oldFilePrefix = true ->
    l <> "--- /dev/null" ->
    FieldUpdate l
      (set_OrigName (parseFileName (strings.TrimPrefix l oldFilePrefix)))
| FU_newname :
    strings.HasPrefix l newFilePrefix = true ->
    l <> "+++ /dev/null" ->
    FieldUpdate l
      (set_NewName (parseFileName (strings.TrimPrefix l newFilePrefix)))
| FU_renameFrom :
    strings.HasPrefix l renameFromPrefix = true ->
    FieldUpdate l
      (set_OrigName (parseFileName (strings.TrimPrefix l renameFromPrefix)))
| FU_renameTo :
    strings.HasPrefix l renameToPrefix = true ->
    FieldUpdate l
      (set_NewName (parseFileName (strings.TrimPrefix l renameToPrefix)))
| FU_binary name0 name1 :
    strings.HasPrefix l binaryPrefix = true ->
    strings.Split
      (strings.TrimSuffix (strings.TrimPrefix l binaryPrefix) " differ")
      " and " = [name0; name1] ->
    FieldUpdate l
      (fun f => set_NewName (parseFileName name1)
                  (set_OrigName (parseFileName name0)
                     (set_Mode FileModeModified f))).

(** [Step st l rest st']: the iteration on [l] ends in [st'] without an
    error. The files are [fs ++ [f]] where [f] is the one [file] points
    to, and its hunks are [hs ++ [h]] where [h] is the one [hunk] points
    to. *)
Inductive Step (st : state) (l : string) (rest : list string)
  : state -> Prop :=
| Step_diff :
    strings.HasPrefix l "diff " = true ->
    Step st l rest
      {| diff_Files :=
           diff_Files st
           ++ [set_Mode FileModeModified
                 (set_DiffHeader (diffHeader l rest) zeroFile)];
         addedCount := addedCount st; removedCount := removedCount st;
         inHunk := false; diffPosCount := incr (diffPosCount st);
         firstHunkInFile := true |}
| Step_field g fs f :
    strings.HasPrefix l "diff " = false ->
    FieldUpdate l g ->
    diff_Files st = fs ++ [f] ->
    Step st l rest (set_diff_Files (fs ++ [g f]) (tick st))
| Step_hunk hunk fs f :
    headerLine l = true ->
    strings.HasPrefix l "diff " = false ->
    strings.HasPrefix l "@@ " = true ->
    hunkOfHeader l = Ok hunk ->
    diff_Files st = fs ++ [f] ->
    Step st l rest
      {| diff_Files := fs ++ [set_Hunks (Hunks f ++ [hunk]) f];
         addedCount := Start (NewRange hunk);
         removedCount := Start (OrigRange hunk);
         inHunk := true;
         diffPosCount :=
           (if firstHunkInFile st then 0 else incr (diffPosCount st));
         firstHunkInFile := false |}
| Step_line m fs f hs h :
    headerLine l = false ->
    inHunk st = true ->
    isSourceLine l = true ->
    lineMode l = Ok m ->
    diff_Files st = fs ++ [f] ->
    Hunks f = hs ++ [h] ->
    Step st l rest
      {| diff_Files :=
           fs ++ [set_Hunks
                    (hs ++ [addToHunk m
                              (mkLine m l (incr (diffPosCount st))
                                 (addedCount st))
                              (mkLine m l (incr (diffPosCount st))
                                 (removedCount st)) h]) f];
         addedCount :=
           match m with
           | DiffLineModeAdded | DiffLineModeUnchanged =>
               incr (addedCount st)
           | DiffLineModeRemoved => addedCount st
           end;
         removedCount :=
           match m with
           | DiffLineModeRemoved | DiffLineModeUnchanged =>
               incr (removedCount st)
           | DiffLineModeAdded => removedCount st
           end;
         inHunk := true; diffPosCount := incr (diffPosCount st);
         firstHunkInFile := firstHunkInFile st |}
| Step_skip :
    headerLine l = false ->
    inHunk st && isSourceLine l = false ->
    Step st l rest (tick st).

(** *** Invariants of the loop *)

(** The lines of a range are numbered from its start, one by one. *)
Definition rangeNumbered (r : DiffRange) : Prop :=
  minInt <= Start r <= maxInt
  /\ forall (i : nat) (dl : DiffLine),
       Lines r !! i = Some dl -> Number dl = wrap (Start r + Z.of_nat i).

Definition hunkNumbered (h : DiffHunk) : Prop :=
  rangeNumbered (OrigRange h) /\ rangeNumbered (NewRange h).

(** Inside a hunk the two counters are the numbers of the next lines. *)
Definition countersAhead (st : state) : Prop :=
  inHunk st = true ->
  exists fs f hs h,
    diff_Files st = fs ++ [f] /\ Hunks f = hs ++ [h]
    /\ addedCount st
       = wrap (Start (NewRange h)
               + Z.of_nat (length (Lines (NewRange h))))
    /\ removedCount st
       = wrap (Start (OrigRange h)
               + Z.of_nat (length (Lines (OrigRange h)))).

Definition numberingInv (st : state) : Prop :=
  Forall (fun f => Forall hunkNumbered (Hunks f)) (diff_Files st)
  /\ countersAhead st.

(** The positions of a file are positive and increase along its hunks. *)
Definition filePositioned (f : DiffFile) : Prop :=
  increasing (filePositions f) /\ Forall (fun p => 1 <= p) (filePositions f).

(** [diffPosCount] counts lines that were read, it is only reset at the
    first hunk of a file, and no position of the file at hand is ahead of
    it. *)
Definition positionInv (pre : list string) (st : state) : Prop :=
  0 <= diffPosCount st <= Z.of_nat (length pre)
  /\ Forall filePositioned (diff_Files st)
  /\ (firstHunkInFile st = true -> inHunk st = false)
  /\ forall fs f,
       diff_Files st = fs ++ [f] ->
       if firstHunkInFile st then Hunks f = []
       else Forall (fun p => p <= diffPosCount st) (filePositions f).

(** A line that is read as a content line when a hunk is open. *)
Definition contentLine (l : string) : Prop :=
  headerLine l = false /\ isSourceLine l = true.

(** What the mode and the names of a file say about the lines of its
    section: a name is empty unless a line of the section assigns it, and
    each of the modes Deleted, New and Renamed comes from its line. *)
Definition fileTraced (f : DiffFile) (sec : list string) : Prop :=
  (existsb writesNewName sec = false -> NewName f = EmptyString)
  /\ (existsb writesOrigName sec = false -> OrigName f = EmptyString)
  /\ (Mode f = FileModeDeleted -> "+++ /dev/null" ∈ sec)
  /\ (Mode f = FileModeNew -> "--- /dev/null" ∈ sec)
  /\ (Mode f = FileModeRenamed ->
      exists l, l ∈ sec /\ strings.HasPrefix l similarityPrefix = true).

(** The entry of a map after the numbers [ns] were appended to it, one by
    one: nothing changes when there are none. *)
Definition appended (o : option (list Z)) (ns : list Z) : option (list Z) :=
  match ns with
  | [] => o
  | _ => Some (default [] o ++ ns)
  end.

(** The index, in a section, of its first line that starts with ["@@ "]:
    the header of the first hunk of the file. *)
Fixpoint firstHunkHeader (sec : list string) : option nat :=
  match sec with
  | [] => None
  | l :: sec' =>
      if strings.HasPrefix l "@@ " then Some O
      else S <$> firstHunkHeader sec'
  end.

(** Every content line of the file is found in its section, as many
    lines below the header of the first hunk as its position says. *)
Definition fileLocated (f : DiffFile) (sec : list string) : Prop :=
  forall h dl,
    h ∈ Hunks f -> dl ∈ Lines (WholeRange h) ->
    exists (k0 : nat) (l : string),
      firstHunkHeader sec = Some k0
      /\ 1 <= Position dl
      /\ sec !! (k0 + Z.to_nat (Position dl))%nat = Some l
      /\ Content dl = drop_str 1 l
      /\ lineMode l = Ok (LMode dl).

(** [diffPosCount] is the number of lines read since the header of the
    first hunk of the file at hand. *)
Definition locatedInv (pre : list string) (st : state) : Prop :=
  0 <= diffPosCount st <= Z.of_nat (length pre)
  /\ (firstHunkInFile st = true -> inHunk st = false)
  /\ Forall2 fileLocated (diff_Files st) (sections pre)
  /\ forall fs f secs sec,
       diff_Files st = fs ++ [f] -> sections pre = secs ++ [sec] ->
       if firstHunkInFile st then firstHunkHeader sec = None
       else exists k0 : nat,
              firstHunkHeader sec = Some k0
              /\ Z.of_nat (length sec)
                 = Z.of_nat k0 + 1 + diffPosCount st.

(** The errors [Parse] returns: the three kinds of the package (a
    ["Binary files "] line without exactly two names, a hunk header that
    does not match or whose number [strconv.Atoi] rejects, a content line
    with an unknown first byte). None of them comes from a file name. *)
Inductive ParseError : error -> Prop :=
| PE_binary : ParseError (ErrorString "invalid binary diff")
| PE_header l : ParseError (ErrorString ("Error parsing line: " +:+ l))
| PE_number num k : ParseError (NumError "Atoi" num k)
| PE_lineMode l :
    ParseError
      (ErrorString
         ("could not parse line mode for line: " +:+ dquote +:+ l
          +:+ dquote)).

(** *** Sample inputs *)

(** The scenario of a new file as the specification gives it, without a
    ["diff "] line, and the same section as [git diff] opens it. *)
Definition scenario_new_file : string :=
  unlines ["--- /dev/null"; "+++ b/file4"; "@@ -0,0 +1,1 @@"; "+hello"].

Definition git_new_file : string :=
  unlines ["diff --git a/file4 b/file4"; "--- /dev/null"; "+++ b/file4";
           "@@ -0,0 +1,1 @@"; "+hello"].

(** The first file of the test suite of the package. *)
Definition file1_diff : string :=
  unlines ["diff --git a/file1 b/file1"; "--- a/file1"; "+++ b/file1";
           "@@ -1,4 +1,4 @@"; "+add a line"; " some"; " lines"; "-in";
           " file1"].

(** A hunk header with both counts left out. *)
Definition omitted_counts : string :=
  unlines ["diff --git a/f b/f"; "--- a/f"; "+++ b/f"; "@@ -5 +7 @@";
           "-x"; "+y"].

(** A file with two hunks. *)
Definition two_hunks : string :=
  unlines ["diff --git a/f b/f"; "--- a/f"; "+++ b/f"; "@@ -1 +1 @@";
           "-a"; "+b"; "@@ -9 +9 @@"; "-c"; "+d"].

(** Two lines added at the largest line number an [int] holds. *)
Definition last_number : string :=
  unlines ["diff --git a/f b/f"; "--- a/f"; "+++ b/f";
           "@@ -0,0 +9223372036854775807,2 @@"; "+a"; "+b"].

(** A second file that starts while the hunk of the first one is open. *)
Definition two_files : string :=
  unlines ["diff --git a/f b/f"; "--- a/f"; "+++ b/f"; "@@ -1 +1 @@";
           "-a"; "+b"; "diff --git a/g b/g"; "--- a/g"; "+++ b/g";
           "@@ -1 +1 @@"; "-c"; "+d"].

(** A line that is no line of a diff, inside a hunk. *)
Definition garbage_in_hunk : string :=
  unlines ["diff --git a/f b/f"; "--- a/f"; "+++ b/f"; "@@ -1 +1 @@";
           "-a"; "garbage"; "+b"].

(** A hunk that adds the text [++ /dev/null] to a file. *)
Definition added_plus_line : string :=
  unlines ["diff --git a/f b/f"; "--- a/f"; "+++ b/f"; "@@ -1 +1,2 @@";
           " x"; "+++ /dev/null"].


(** A state inside the first hunk of a file. *)
Definition in_hunk_file : DiffFile :=
  {| DiffHeader := "diff --git a/f b/f"; Mode := FileModeModified;
     OrigName := "f"; NewName := "f";
     Hunks := [ {| HunkHeader := EmptyString;
                   OrigRange := {| Start := 1; Length := 1; Lines := [] |};
                   NewRange := {| Start := 1; Length := 1; Lines := [] |};
                   WholeRange := zeroRange |} ];
     SimilarityIndex := 0 |}.

Definition in_hunk_state : state :=
  {| diff_Files := [in_hunk_file];
     addedCount := 1; removedCount := 1; inHunk := true;
     diffPosCount := 0; firstHunkInFile := false |}.

(** ** Notions for further properties of the package *)

(** The file a ["diff "] line opens. *)
Definition newFile (l : string) (rest : list string) : DiffFile :=
  set_Mode FileModeModified (set_DiffHeader (diffHeader l rest) zeroFile).

(** [FileStep l g]: what an iteration on the line [l], which is no
    ["diff "] line, can do to the file at hand when it ends without an
    error: an assignment to its mode or names, a new hunk, a content line
    added to its last hunk, or nothing. *)
Inductive FileStep (l : string) : (DiffFile -> DiffFile) -> Prop :=
| FS_field g :
    FieldUpdate l g -> FileStep l g
| FS_hunk hunk :
    strings.HasPrefix l "@@ " = true ->
    hunkOfHeader l = Ok hunk ->
    FileStep l (fun f => set_Hunks (Hunks f ++ [hunk]) f)
| FS_line m pos n1 n2 :
    headerLine l = false ->
    isSourceLine l = true ->
    lineMode l = Ok m ->
    FileStep l
      (fun f =>
         set_Hunks
           (map_last (addToHunk m (mkLine m l pos n1) (mkLine m l pos n2))
                     (Hunks f)) f)
| FS_skip :
    headerLine l = false -> FileStep l (fun f => f).

(** The lines that start with ["diff "] and those that start with
    ["@@ "]. *)
Definition isDiffLine (l : string) : bool := strings.HasPrefix l "diff ".
Definition isHunkLine (l : string) : bool := strings.HasPrefix l "@@ ".

(** What the three copies of a line share. *)
Definition lineCore (dl : DiffLine) : DiffLineMode * string * Z :=
  (LMode dl, Content dl, Position dl).

(** The three ranges of a hunk tell the same story: the new range holds
    the lines of the whole range that are not removed, the original range
    holds those that are not added, with its own numbers, and the whole
    range has neither a start nor a length. *)
Definition hunkConsistent (h : DiffHunk) : Prop :=
  Lines (NewRange h)
  = filter (fun dl => LMode dl <> DiffLineModeRemoved)
           (Lines (WholeRange h))
  /\ map lineCore (Lines (OrigRange h))
     = map lineCore
         (filter (fun dl => LMode dl <> DiffLineModeAdded)
                 (Lines (WholeRange h)))
  /\ Start (WholeRange h) = 0 /\ Length (WholeRange h) = 0.

(** The first byte of a content line of a given mode. *)
Definition modeChar (m : DiffLineMode) : ascii :=
  match m with
  | DiffLineModeAdded => "+"%char
  | DiffLineModeRemoved => "-"%char
  | DiffLineModeUnchanged => " "%char
  end.

(** The line of the diff a [DiffLine] was read from. *)
Definition physical (dl : DiffLine) : string :=
  String (modeChar (LMode dl)) (Content dl).

(** All the lines of a hunk, and of a file. *)
Definition hunkLines (h : DiffHunk) : list DiffLine :=
  Lines (OrigRange h) ++ Lines (NewRange h) ++ Lines (WholeRange h).

Definition fileLines (f : DiffFile) : list DiffLine :=
  flat_map hunkLines (Hunks f).

(** A string of decimal digits, and a decimal numeral: a non-empty string
    of digits whose value an [int] holds. *)
Fixpoint allDigits (s : string) : bool :=
  match s with
  | EmptyString => true
  | String c s' => is_digit c && allDigits s'
  end.

Definition numeral (ds : string) (n : Z) : Prop :=
  ds <> EmptyString /\ allDigits ds = true
  /\ strconv.digits_val 0 ds = Some n /\ n <= maxInt.

(** [file] points to a file and, inside a hunk, that file has a hunk for
    [hunk] to point to. *)
Definition pointersSet (st : state) : Prop :=
  exists fs f,
    diff_Files st = fs ++ [f] /\ (inHunk st = true -> Hunks f <> []).

(** A string that holds no line feed, as every line of [lines] does. *)
Fixpoint oneLine (s : string) : bool :=
  match s with
  | EmptyString => true
  | String c s' => regexp.dot c && oneLine s'
  end.

(** The number a ["similarity index "] line gives, as the case of the
    switch reads it: the error of [strconv.Atoi] is dropped. *)
Definition similarityOf (l : string) : Z :=
  fst (strconv.Atoi
         (strings.TrimSuffix (strings.TrimPrefix l similarityPrefix) "%")).

Definition isSimilarityLine (l : string) : bool :=
  strings.HasPrefix l similarityPrefix.

(** The similarity index after the lines [sec]: the one of the last
    ["similarity index "] line, 0 when there is none. *)
Definition similarityIndexOf (sec : list string) : Z :=
  foldl (fun acc l => if isSimilarityLine l then similarityOf l else acc)
    0 sec.

(** A renamed file, as [git diff -M] prints it. *)
Definition renamed_file : string :=
  unlines ["diff --git a/old.txt b/new.txt"; "similarity index 90%";
           "rename from old.txt"; "rename to new.txt"].

(** *** Quoted file names

    [git diff] writes a file name with unusual bytes between double
    quotes, in the style of a C string literal: a printable ASCII
    character other than the double quote and the backslash stands for
    itself, and a byte can be written as a backslash and three octal
    digits, or as one of the escapes that [strconv.UnquoteChar] knows by
    name. *)
Definition plainChar (c : ascii) : bool :=
  let b := byte_of c in
  (32 <=? b) && (b <=? 126) && negb (b =? 34) && negb (b =? 92).

Definition octal3 (b : Z) : string :=
  String (of_byte (48 + b / 64))
    (String (of_byte (48 + (b / 8) mod 8))
       (str1 (of_byte (48 + b mod 8)))).

Definition namedEscape (e : ascii) : option ascii :=
  let b := byte_of e in
  if b =? 97 then Some (of_byte 7)
  else if b =? 98 then Some (of_byte 8)
  else if b =? 102 then Some (of_byte 12)
  else if b =? 110 then Some (of_byte 10)
  else if b =? 114 then Some (of_byte 13)
  else if b =? 116 then Some (of_byte 9)
  else if b =? 118 then Some (of_byte 11)
  else if (b =? 92) || (b =? 34) then Some e
  else None.

(** [quotedByte e c]: the text [e] is a way to write the byte [c]. *)
Inductive quotedByte : string -> ascii -> Prop :=
| QB_plain c : plainChar c = true -> quotedByte (str1 c) c
| QB_octal c : quotedByte (String "\"%char (octal3 (byte_of c))) c
| QB_named e c :
    namedEscape e = Some c -> quotedByte (String "\"%char (str1 e)) c.

(** [quoted e bs]: the text [e] is a way to write the bytes [bs]. *)
Inductive quoted : string -> string -> Prop :=
| Q_nil : quoted EmptyString EmptyString
| Q_cons e c es cs :
    quotedByte e c -> quoted es cs -> quoted (e +:+ es) (String c cs).

(** *** One diff after another *)

(** Two files that agree on everything but the [DiffHeader]. *)
Definition sameButHeader (f1 f2 : DiffFile) : Prop :=
  Mode f1 = Mode f2 /\ OrigName f1 = OrigName f2
  /\ NewName f1 = NewName f2 /\ Hunks f1 = Hunks f2
  /\ SimilarityIndex f1 = SimilarityIndex f2.

(** [follows R fs s1 s2]: the state [s2] is the state [s1] with the files
    [fs] before its own, which are related by [R]; the counters agree
    where the loop reads them before it writes them. *)
Definition follows (R : DiffFile -> DiffFile -> Prop) (fs : list DiffFile)
  (s1 s2 : state) : Prop :=
  (exists fs2, diff_Files s2 = fs ++ fs2 /\ Forall2 R (diff_Files s1) fs2)
  /\ inHunk s1 = inHunk s2
  /\ firstHunkInFile s1 = firstHunkInFile s2
  /\ ((inHunk s1 = false /\ firstHunkInFile s1 = true)
      \/ diffPosCount s1 = diffPosCount s2)
  /\ (inHunk s1 = true ->
      addedCount s1 = addedCount s2 /\ removedCount s1 = removedCount s2).

(** *** The structure of a parsed diff *)

(** A content line: a line that no header case of the switch takes and
    that [isSourceLine] accepts. *)
Definition isContentLine (l : string) : bool :=
  negb (headerLine l) && isSourceLine l.

(** The blocks of a section: a line that starts with ["@@ "] opens a block
    and every other line joins the block that is open; the lines before
    the first block belong to none. *)
Definition hunkBlocks (sec : list string) : list (list string) :=
  foldl (fun bs l =>
           if isHunkLine l then bs ++ [[l]]
           else map_last (fun b => b ++ [l]) bs)
        [] sec.

(** [hunkOfBlock h block]: the hunk [h] is what the block says: its header
    and the bounds of its ranges are read from the first line of the
    block, and its lines are the content lines of the block, in their
    order. *)
Definition hunkOfBlock (h : DiffHunk) (block : list string) : Prop :=
  exists l body h0,
    block = l :: body /\ hunkOfHeader l = Ok h0
    /\ HunkHeader h = HunkHeader h0
    /\ Start (OrigRange h) = Start (OrigRange h0)
    /\ Length (OrigRange h) = Length (OrigRange h0)
    /\ Start (NewRange h) = Start (NewRange h0)
    /\ Length (NewRange h) = Length (NewRange h0)
    /\ map physical (Lines (WholeRange h))
       = filter (fun l => isContentLine l = true) body.

(** The invariant of the loop behind it: every file is what its section
    says, and outside a hunk the section that is open has no block. *)
Definition structureInv (pre : list string) (st : state) : Prop :=
  Forall2 (fun f sec => Forall2 hunkOfBlock (Hunks f) (hunkBlocks sec))
    (diff_Files st) (sections pre)
  /\ (inHunk st = false ->
      forall secs sec, sections pre = secs ++ [sec] -> hunkBlocks sec = []).

(** *** The header of a file *)

(** What a line writes to the mode and to the names of the file at hand,
    if anything: the cases of the switch, for one field at a time. *)
Definition modeWritten (l : string) : option FileMode :=
  if String.eqb l "+++ /dev/null" then Some FileModeDeleted
  else if String.eqb l "--- /dev/null" then Some FileModeNew
  else if strings.HasPrefix l similarityPrefix then Some FileModeRenamed
  else if strings.HasPrefix l binaryPrefix then Some FileModeModified
  else None.

Definition binaryNames (l : string) : list string :=
  strings.Split
    (strings.TrimSuffix (strings.TrimPrefix l binaryPrefix) " differ")
    " and ".

Definition origNameWritten (l : string) : option string :=
  if String.eqb l "--- /dev/null" then None
  else if strings.HasPrefix l oldFilePrefix
  then Some (parseFileName (strings.TrimPrefix l oldFilePrefix))
  else if strings.HasPrefix l renameFromPrefix
  then Some (parseFileName (strings.TrimPrefix l renameFromPrefix))
  else if strings.HasPrefix l binaryPrefix
  then match binaryNames l with
       | [name0; _] => Some (parseFileName name0)
       | _ => None
       end
  else None.

Definition newNameWritten (l : string) : option string :=
  if String.eqb l "+++ /dev/null" then None
  else if strings.HasPrefix l newFilePrefix
  then Some (parseFileName (strings.TrimPrefix l newFilePrefix))
  else if strings.HasPrefix l renameToPrefix
  then Some (parseFileName (strings.TrimPrefix l renameToPrefix))
  else if strings.HasPrefix l binaryPrefix
  then match binaryNames l with
       | [_; name1] => Some (parseFileName name1)
       | _ => None
       end
  else None.

(** [lastWritten w d sec v]: [v] is what the last line of [sec] that
    writes something wrote, and [d] when no line of [sec] writes. *)
Definition lastWritten {A} (w : string -> option A) (d : A)
  (sec : list string) (v : A) : Prop :=
  (Forall (fun x => w x = None) sec -> v = d)
  /\ (forall pre l post a,
         sec = pre ++ l :: post -> w l = Some a ->
         Forall (fun x => w x = None) post -> v = a).

(** *** The inputs on which [Parse] succeeds *)

(** Whether a hunk is open after the lines [pre]: a ["@@ "] line opens
    one and a ["diff "] line closes it. *)
Definition openHunk (pre : list string) : bool :=
  foldl (fun b l =>
           if isDiffLine l then false
           else if isHunkLine l then true else b)
        false pre.

(** [lineAccepted pre l]: the line [l], read after the lines [pre], is one
    the loop can read: a header line comes after a ["diff "] line, a
    [Binary files] line names two files, a ["@@ "] line holds a header
    whose numbers an [int] holds, and a content line of an open hunk has
    a mode. *)
Definition lineAccepted (pre : list string) (l : string) : Prop :=
  (headerLine l = true -> isDiffLine l = false ->
   exists x, x ∈ pre /\ isDiffLine x = true)
  /\ (strings.HasPrefix l binaryPrefix = true ->
      exists name0 name1, binaryNames l = [name0; name1])
  /\ (isHunkLine l = true -> exists hunk, hunkOfHeader l = Ok hunk)
  /\ (openHunk pre = true -> isContentLine l = true ->
      exists m, lineMode l = Ok m).

(** The invariant of the loop behind it. *)
Definition runInv (pre : list string) (st : state) : Prop :=
  inHunk st = openHunk pre
  /\ (diff_Files st = [] ->
      inHunk st = false /\ Forall (fun x => isDiffLine x = false) pre)
  /\ (diff_Files st <> [] ->
      pointersSet st /\ exists x, x ∈ pre /\ isDiffLine x = true).

(** * Checks of the model on known values

    The values are those of the tests of the package
    ([TestDecodeOctalString]) and of the Go library. *)

Example atoi_test :
  strconv.Atoi "12" = (12, None)
  /\ strconv.Atoi "-7" = (-7, None)
  /\ fst (strconv.Atoi "9223372036854775807") = maxInt
  /\ strconv.Atoi "9223372036854775808"
     = (maxInt, Some (NumError "Atoi" "9223372036854775808" ErrRange))
  /\ strconv.Atoi "1x" = (0, Some (NumError "Atoi" "1x" ErrSyntax)).
Proof. vm_compute. repeat split; reflexivity. Qed.

Example unquote_test :
  strconv.Unquote (dquote +:+ "file-\344\270\255\346\226\207.md" +:+ dquote)
  = Some ("file-" +:+
          String (of_byte 228) (String (of_byte 184) (String (of_byte 173)
          (String (of_byte 230) (String (of_byte 150) (str1 (of_byte 135))))))
          +:+ ".md")
  /\ strconv.Unquote (dquote +:+ "file-1.md" +:+ dquote) = Some "file-1.md"
  /\ strconv.Unquote (dquote +:+ "bad\q" +:+ dquote) = None
  /\ strconv.Unquote (dquote +:+ "bad\34" +:+ dquote) = None
  /\ strconv.Unquote (dquote +:+ "é" +:+ dquote)
     = Some (String (of_byte 195) (str1 (of_byte 169))).
Proof. vm_compute. repeat split; reflexivity. Qed.

Example regexp_test :
  regexp.hunkHeaderReg_FindStringSubmatch "@@ -1,4 +1,4 @@"
  = Some ["@@ -1,4 +1,4 @@"; "1"; "4"; "1"; "4"; EmptyString]
  /\ regexp.hunkHeaderReg_FindStringSubmatch "@@ -12 +3,0 @@ func f() {"
     = Some ["@@ -12 +3,0 @@ func f() {"; "12"; EmptyString; "3"; "0";
             "func f() {"]
  /\ regexp.hunkHeaderReg_FindStringSubmatch "@@ x @@ -1, +2 @@  y"
     = Some ["@@ -1, +2 @@  y"; "1"; EmptyString; "2"; EmptyString; " y"]
  /\ regexp.hunkHeaderReg_FindStringSubmatch "@@ -1,2 3,4 @@" = None
  /\ regexp.reinReg_MatchString "index 0123..4567 100644" = true
  /\ regexp.reinReg_MatchString "index " = false
  /\ regexp.rempReg_MatchString "--- a/file1" = true
  /\ regexp.rempReg_MatchString "+-+ x" = true
  /\ regexp.rempReg_MatchString "--- " = false.
Proof. vm_compute. repeat split; reflexivity. Qed.

Example split_test :
  strings.Split "a and b and  and c" " and " = ["a"; "b"; EmptyString; "c"]
  /\ strings.Split EmptyString " and " = [EmptyString]
  /\ strings.Split "xaaay" "aa" = ["x"; "ay"]
  /\ strings.Split (unlines ["a"; "b"]) nl = ["a"; "b"; EmptyString]
  /\ strings.TrimSuffix "a differ" " differ" = "a"
  /\ strings.TrimPrefix "--- a/b" "--- " = "a/b".
Proof. vm_compute. repeat split; reflexivity. Qed.

(** The expectations of [TestFileModeAndNaming] and [TestHunk] for the
    first file of [example.diff]. *)
Example TestHunk_file1 :
  exists d f h,
    Parse file1_diff = Ok d /\ Files d = [f] /\ Hunks f = [h]
    /\ Mode f = FileModeModified
    /\ OrigName f = "file1" /\ NewName f = "file1"
    /\ Start (OrigRange h) = 1 /\ Length (OrigRange h) = 4
    /\ Start (NewRange h) = 1 /\ Length (NewRange h) = 4
    /\ Lines (OrigRange h)
       = [ {| LMode := DiffLineModeUnchanged; Number := 1;
              Content := "some"; Position := 2 |};
           {| LMode := DiffLineModeUnchanged; Number := 2;
              Content := "lines"; Position := 3 |};
           {| LMode := DiffLineModeRemoved; Number := 3;
              Content := "in"; Position := 4 |};
           {| LMode := DiffLineModeUnchanged; Number := 4;
              Content := "file1"; Position := 5 |} ]
    /\ Lines (NewRange h)
       = [ {| LMode := DiffLineModeAdded; Number := 1;
              Content := "add a line"; Position := 1 |};
           {| LMode := DiffLineModeUnchanged; Number := 2;
              Content := "some"; Position := 2 |};
           {| LMode := DiffLineModeUnchanged; Number := 3;
              Content := "lines"; Position := 3 |};
           {| LMode := DiffLineModeUnchanged; Number := 4;
              Content := "file1"; Position := 5 |} ].
Proof.
  destruct (Parse file1_diff) as [d|e|] eqn:E;
    vm_compute in E; try discriminate E. injection E as <-.
  eexists _, _, _. split; [reflexivity|]. repeat split; reflexivity.
Qed.

(** Quoted names of [example.diff]: octal escapes are decoded, the quotes
    and the prefix are removed. *)
Example parseFileName_test :
  parseFileName "a/file1" = "file1"
  /\ parseFileName "b/dir/file 2" = "dir/file 2"
  /\ parseFileName (dquote +:+ "a/file5-\344\270\255\346\226\207" +:+ dquote)
     = "file5-" +:+
       String (of_byte 228) (String (of_byte 184) (String (of_byte 173)
       (String (of_byte 230) (String (of_byte 150) (str1 (of_byte 135))))))
  /\ parseFileName (dquote +:+ "b/bad\q" +:+ dquote) = "bad\q"
  /\ parseFileName "/dev/null" = "/dev/null".
Proof. vm_compute. repeat split; reflexivity. Qed.

(** * Properties *)

(** ** Lists and strings *)

Lemma map_last_snoc {A} (g : A -> A) (l : list A) (x : A) :
  map_last g (l ++ [x]) = l ++ [g x].
Proof.
  induction l as [|y l IH]; [reflexivity|].
  simpl. rewrite IH. destruct (l ++ [x]) eqn:E; [|reflexivity].
  destruct l; discriminate.
Qed.

Lemma HasPrefix_inv (s p : string) :
  strings.HasPrefix s p = true -> s = p +:+ drop_str (String.length p) s.
Proof.
  revert s. induction p as [|c p IH]; intros s H; simpl in *; [reflexivity|].
  destruct s as [|d s]; [discriminate|].
  apply andb_true_iff in H as [Hc Hp]. apply Ascii.eqb_eq in Hc. subst d.
  simpl. rewrite (IH s Hp) at 1. reflexivity.
Qed.

Lemma eqb_neq_false (s t : string) : s <> t -> String.eqb s t = false.
Proof. intros H. apply String.eqb_neq, H. Qed.

(** ** Assignments through [file] and [hunk] *)

Lemma file_of_snoc st fs f : diff_Files st = fs ++ [f] -> file_of st = Some f.
Proof. intros H. unfold file_of. rewrite H. apply last_snoc. Qed.

Lemma assign_file_snoc g st fs f :
  diff_Files st = fs ++ [f] ->
  assign_file g st = Ok (set_diff_Files (fs ++ [g f]) st).
Proof.
  intros H. unfold assign_file. rewrite (file_of_snoc _ _ _ H).
  rewrite H, map_last_snoc. reflexivity.
Qed.

Lemma assign_file_nil g st : diff_Files st = [] -> assign_file g st = Panic.
Proof. intros H. unfold assign_file, file_of. rewrite H. reflexivity. Qed.

Lemma assign_file_Ok g st st' :
  assign_file g st = Ok st' ->
  exists fs f, diff_Files st = fs ++ [f]
               /\ st' = set_diff_Files (fs ++ [g f]) st.
Proof.
  intros H. destruct (file_of st) as [f|] eqn:E.
  - apply last_Some in E as [fs E]. exists fs, f. split; [exact E|].
    rewrite (assign_file_snoc _ _ _ _ E) in H. congruence.
  - unfold assign_file in H. rewrite E in H. discriminate.
Qed.

Lemma assign_hunk_Ok g st st' :
  assign_hunk g st = Ok st' ->
  exists fs f hs h,
    diff_Files st = fs ++ [f] /\ Hunks f = hs ++ [h]
    /\ st' = set_diff_Files (fs ++ [set_Hunks (hs ++ [g h]) f]) st.
Proof.
  unfold assign_hunk. intros H.
  destruct (file_of st) as [f|] eqn:E; [|discriminate].
  destruct (last (Hunks f)) as [h|] eqn:Eh; [|discriminate].
  apply last_Some in E as [fs E]. apply last_Some in Eh as [hs Eh].
  exists fs, f, hs, h. repeat split; try assumption.
  rewrite (assign_file_snoc _ _ _ _ E) in H.
  rewrite Eh, map_last_snoc in H. congruence.
Qed.

(** ** The iteration and its relation *)

Lemma bind_Ok {A B} (r : result A) (k : A -> result B) (b : B) :
  (r ≫= k) = Ok b -> exists a, r = Ok a /\ k a = Ok b.
Proof. destruct r; simpl; intros H; try discriminate. eauto. Qed.

Lemma bind_ret {A B} (a : A) (k : A -> result B) : (Ok a ≫= k) = k a.
Proof. reflexivity. Qed.

Lemma headerLine_false l :
  headerLine l = false ->
  strings.HasPrefix l "diff " = false
  /\ String.eqb l "+++ /dev/null" = false
  /\ String.eqb l "--- /dev/null" = false
  /\ strings.HasPrefix l similarityPrefix = false
  /\ strings.HasPrefix l oldFilePrefix = false
  /\ strings.HasPrefix l newFilePrefix = false
  /\ strings.HasPrefix l renameFromPrefix = false
  /\ strings.HasPrefix l renameToPrefix = false
  /\ strings.HasPrefix l binaryPrefix = false
  /\ strings.HasPrefix l "@@ " = false.
Proof.
  unfold headerLine. intros H.
  repeat (apply orb_false_iff in H as [H ?]). repeat split; assumption.
Qed.

(** A line that no case of the header takes is a content line of the
    open hunk, or it is passed over. *)
Lemma step_noheader st l rest :
  headerLine l = false ->
  step st l rest =
  if inHunk st && isSourceLine l
  then lineMode l ≫= fun m => addLine m l (tick st)
  else Ok (tick st).
Proof.
  intros H. apply headerLine_false in H.
  destruct H as (H1 & H2 & H3 & H4 & H5 & H6 & H7 & H8 & H9 & H10).
  unfold step. rewrite H1, H2, H3, H4, H5, H6, H7, H8, H9, H10.
  reflexivity.
Qed.

Lemma step_sound st l rest st' :
  step st l rest = Ok st' -> Step st l rest st'.
Proof.
  destruct (headerLine l) eqn:Hh.
  2:{ rewrite (step_noheader _ _ _ Hh).
      destruct (inHunk st && isSourceLine l) eqn:Hc.
      - intros H. apply bind_Ok in H as (m & Hm & H).
        unfold addLine in H. apply bind_Ok in H as (st1 & H1 & H).
        apply assign_hunk_Ok in H1 as (fs & f & hs & h & Hf & Hhs & ->).
        apply andb_true_iff in Hc as [Hi Hs].
        injection H as <-. simpl. rewrite Hi.
        eapply Step_line; eassumption.
      - intros H. injection H as <-. apply Step_skip; assumption. }
  unfold step.
  destruct (strings.HasPrefix l "diff ") eqn:H1.
  { intros H. injection H as <-. simpl. apply Step_diff, H1. }
  assert (Hfield : forall g, FieldUpdate l g ->
            assign_file g (tick st) = Ok st' -> Step st l rest st').
  { intros g Hg H. apply assign_file_Ok in H as (fs & f & Hf & ->).
    eapply Step_field; eassumption. }
  destruct (String.eqb l "+++ /dev/null") eqn:H2.
  { apply String.eqb_eq in H2. apply Hfield, FU_deleted, H2. }
  destruct (String.eqb l "--- /dev/null") eqn:H3.
  { apply String.eqb_eq in H3. apply Hfield, FU_new, H3. }
  destruct (strings.HasPrefix l similarityPrefix) eqn:H4.
  { apply Hfield, FU_similarity, H4. }
  apply String.eqb_neq in H2, H3.
  destruct (strings.HasPrefix l oldFilePrefix) eqn:H5.
  { apply Hfield, FU_orig; assumption. }
  destruct (strings.HasPrefix l newFilePrefix) eqn:H6.
  { apply Hfield, FU_newname; assumption. }
  destruct (strings.HasPrefix l renameFromPrefix) eqn:H7.
  { apply Hfield, FU_renameFrom, H7. }
  destruct (strings.HasPrefix l renameToPrefix) eqn:H8.
  { apply Hfield, FU_renameTo, H8. }
  destruct (strings.HasPrefix l binaryPrefix) eqn:H9.
  { intros H. apply bind_Ok in H as (st1 & Hst1 & H).
    apply assign_file_Ok in Hst1 as (fs & f & Hf & ->).
    destruct (strings.Split _ _) as [|name0 [|name1 [|]]] eqn:Hs;
      try discriminate.
    apply assign_file_Ok in H as (fs' & f' & Hf' & ->).
    simpl in Hf'. apply app_inj_tail in Hf' as [<- <-].
    change (diff_Files st = fs ++ [f]) in Hf.
    exact (Step_field st l rest _ fs f H1 (FU_binary _ _ _ H9 Hs) Hf). }
  destruct (strings.HasPrefix l "@@ ") eqn:H10.
  { intros H. apply bind_Ok in H as (st1 & Hst1 & H).
    apply assign_file_Ok in Hst1 as (fs & f & Hf & ->).
    apply bind_Ok in H as (hunk & Hhunk & H).
    apply bind_Ok in H as (st2 & Hst2 & H).
    apply assign_file_Ok in Hst2 as (fs' & f' & Hf' & ->).
    simpl in Hf, Hf'. apply app_inj_tail in Hf' as [<- <-].
    injection H as <-. simpl.
    eapply Step_hunk; eassumption. }
  unfold headerLine in Hh.
  rewrite H1, H4, H5, H6, H7, H8, H9, H10 in Hh.
  apply String.eqb_neq in H2, H3. rewrite H2, H3 in Hh. discriminate.
Qed.

Lemma loop_app st pre tail :
  loop st (pre ++ tail) = loop_upto st pre tail ≫= fun st' => loop st' tail.
Proof.
  revert st. induction pre as [|l pre IH]; intros st; simpl.
  - reflexivity.
  - destruct (step st l (pre ++ tail)); simpl; [apply IH | reflexivity..].
Qed.

(** An invariant of the loop: a property [I pre st] of the lines [pre]
    read so far and of the state, kept by every iteration that ends
    without an error. *)
Lemma loop_invariant (I : list string -> state -> Prop) (all : list string) :
  (forall pre l rest st st',
      all = pre ++ l :: rest -> I pre st -> Step st l rest st' ->
      I (pre ++ [l]) st') ->
  forall lines pre st st',
    all = pre ++ lines -> I pre st -> loop st lines = Ok st' -> I all st'.
Proof.
  intros Hstep lines. induction lines as [|l rest IH]; intros pre st st' -> HI H.
  - injection H as <-. rewrite app_nil_r. exact HI.
  - simpl in H. apply bind_Ok in H as (st1 & H1 & H).
    apply step_sound in H1.
    apply (IH (pre ++ [l]) st1 st').
    + rewrite <- app_assoc. reflexivity.
    + eapply Hstep; [reflexivity | exact HI | exact H1].
    + exact H.
Qed.

Lemma Parse_Ok s d :
  Parse s = Ok d ->
  exists st, loop init (strings.Split s nl) = Ok st
             /\ Files d = diff_Files st.
Proof.
  unfold Parse. intros H. apply bind_Ok in H as (st & Hst & H).
  injection H as <-. exists st. split; [exact Hst | reflexivity].
Qed.

Lemma Parse_invariant (I : list string -> state -> Prop) s d :
  I [] init ->
  (forall pre l rest st st',
      strings.Split s nl = pre ++ l :: rest -> I pre st ->
      Step st l rest st' -> I (pre ++ [l]) st') ->
  Parse s = Ok d ->
  exists st, Files d = diff_Files st /\ I (strings.Split s nl) st.
Proof.
  intros H0 Hstep H. apply Parse_Ok in H as (st & Hst & Hd).
  exists st. split; [exact Hd|].
  eapply (loop_invariant I _ Hstep _ [] init st); [reflexivity | exact H0 | exact Hst].
Qed.

Lemma FieldUpdate_Hunks l g f : FieldUpdate l g -> Hunks (g f) = Hunks f.
Proof. intros H. destruct H; reflexivity. Qed.

(** ** Arithmetic of [int] *)

Lemma wrap_small z : minInt <= z <= maxInt -> wrap z = z.
Proof.
  unfold wrap, minInt, maxInt. intros H.
  rewrite Z.mod_small; lia.
Qed.

Lemma wrap_incr z k : incr (wrap (z + k)) = wrap (z + (k + 1)).
Proof.
  unfold incr, wrap.
  replace ((z + k + 2 ^ 63) mod 2 ^ 64 - 2 ^ 63 + 1 + 2 ^ 63)
    with ((z + k + 2 ^ 63) mod 2 ^ 64 + 1) by lia.
  rewrite Zplus_mod_idemp_l. f_equal. f_equal. lia.
Qed.

Lemma Atoi_range s : minInt <= fst (strconv.Atoi s) <= maxInt.
Proof.
  unfold strconv.Atoi.
  destruct (match s with
            | String "-"%char r => (true, r)
            | String "+"%char r => (false, r)
            | _ => (false, s)
            end) as [neg body].
  assert (Hb : minInt <= 0 <= maxInt) by (unfold minInt, maxInt; lia).
  assert (Hm : minInt <= maxInt) by (unfold minInt, maxInt; lia).
  destruct (is_empty body); [exact Hb|].
  destruct (strconv.digits_val 0 body) as [v|]; [|exact Hb].
  destruct (maxInt <? _) eqn:E1; simpl; [lia|].
  destruct (_ <? minInt) eqn:E2; simpl; [lia|].
  apply Z.ltb_ge in E1, E2. lia.
Qed.

Lemma atoi_range s n : atoi s = Ok n -> minInt <= n <= maxInt.
Proof.
  unfold atoi. pose proof (Atoi_range s) as H.
  destruct (strconv.Atoi s) as [m [e|]]; [discriminate|].
  intros E. injection E as <-. exact H.
Qed.

Lemma hunkOfHeader_Ok l hunk :
  hunkOfHeader l = Ok hunk ->
  Lines (OrigRange hunk) = [] /\ Lines (NewRange hunk) = []
  /\ Lines (WholeRange hunk) = []
  /\ minInt <= Start (OrigRange hunk) <= maxInt
  /\ minInt <= Start (NewRange hunk) <= maxInt.
Proof.
  unfold hunkOfHeader.
  destruct (regexp.hunkHeaderReg_FindStringSubmatch l)
    as [[|m0 [|m1 [|m2 [|m3 [|m4 [|m5 [|]]]]]]]|]; try discriminate.
  intros H.
  apply bind_Ok in H as (a & Ha & H). apply bind_Ok in H as (b & Hb & H).
  apply bind_Ok in H as (c & Hc & H). apply bind_Ok in H as (d & Hd & H).
  injection H as <-. simpl.
  apply atoi_range in Ha, Hc. auto.
Qed.

(** ** Line numbers (C4) *)

Lemma rangeNumbered_snoc r dl :
  rangeNumbered r ->
  Number dl = wrap (Start r + Z.of_nat (length (Lines r))) ->
  rangeNumbered (append_Line dl r).
Proof.
  intros [Hs Hn] Hdl. split; [exact Hs|]. simpl.
  intros i dl' Hi. apply lookup_snoc_Some in Hi as [[_ Hi]|[-> <-]].
  - apply Hn, Hi.
  - exact Hdl.
Qed.

Lemma numberingInv_init : numberingInv init.
Proof. split; [constructor | intros H; discriminate]. Qed.

Lemma numberingInv_step st l rest st' :
  numberingInv st -> Step st l rest st' -> numberingInv st'.
Proof.
  intros [Hall Hcnt] HS. destruct HS.
  - (* a new file *)
    split; [|intros H'; discriminate]. simpl.
    apply Forall_app. split; [exact Hall|]. repeat constructor.
  - (* a field of the file *)
    rewrite H1 in Hall. apply Forall_app in Hall as [Hfs Hf].
    rewrite Forall_singleton in Hf.
    split; simpl.
    + apply Forall_app. split; [exact Hfs|]. apply Forall_singleton.
      rewrite (FieldUpdate_Hunks _ _ _ H0). exact Hf.
    + intros Hin. destruct (Hcnt Hin) as (fs' & f' & hs & h & E1 & E2 & E3 & E4).
      rewrite H1 in E1. apply app_inj_tail in E1 as [<- <-].
      exists fs, (g f), hs, h. simpl.
      rewrite (FieldUpdate_Hunks _ _ _ H0). auto.
  - (* a new hunk *)
    apply hunkOfHeader_Ok in H2 as (L1 & L2 & _ & R1 & R2).
    rewrite H3 in Hall. apply Forall_app in Hall as [Hfs Hf].
    rewrite Forall_singleton in Hf.
    split; simpl.
    + apply Forall_app. split; [exact Hfs|]. apply Forall_singleton. simpl.
      apply Forall_app. split; [exact Hf|]. apply Forall_singleton.
      split; (split; [assumption|]).
      * rewrite L1. intros i dl Hi. discriminate.
      * rewrite L2. intros i dl Hi. discriminate.
    + intros _. exists fs, (set_Hunks (Hunks f ++ [hunk]) f), (Hunks f), hunk.
      simpl. rewrite L1, L2. simpl. rewrite !Z.add_0_r.
      rewrite !wrap_small by assumption. auto.
  - (* a content line *)
    destruct (Hcnt H0) as (fs' & f' & hs' & h' & E1 & E2 & E3 & E4).
    rewrite H3 in E1. apply app_inj_tail in E1 as [<- <-].
    rewrite H4 in E2. apply app_inj_tail in E2 as [<- <-].
    rewrite H3 in Hall. apply Forall_app in Hall as [Hfs Hf].
    rewrite Forall_singleton in Hf. rewrite H4 in Hf.
    apply Forall_app in Hf as [Hhs Hh]. rewrite Forall_singleton in Hh.
    destruct Hh as [Ho Hn].
    split; simpl.
    + apply Forall_app. split; [exact Hfs|]. apply Forall_singleton. simpl.
      apply Forall_app. split; [exact Hhs|]. apply Forall_singleton.
      destruct m; simpl; split; simpl;
        try assumption; apply rangeNumbered_snoc; assumption.
    + intros _. eexists fs, _, hs, _. split; [reflexivity|].
      split; [reflexivity|].
      destruct m; simpl; rewrite ?length_app, ?Nat2Z.inj_add; simpl;
        rewrite ?E3, ?E4, ?wrap_incr; auto.
  - (* a line that is passed over *)
    split; [exact Hall|]. exact Hcnt.
Qed.

Lemma Parse_numbered s d f h :
  Parse s = Ok d -> f ∈ Files d -> h ∈ Hunks f -> hunkNumbered h.
Proof.
  intros HP Hf Hh.
  destruct (Parse_invariant (fun _ => numberingInv) s d) as (st & E & [Hall _]).
  - apply numberingInv_init.
  - intros pre l0 rest st st' _. apply numberingInv_step.
  - exact HP.
  - rewrite E in Hf. rewrite Forall_forall in Hall.
    specialize (Hall f Hf). rewrite Forall_forall in Hall. apply Hall, Hh.
Qed.

Lemma rangeNumbered_increasing r :
  rangeNumbered r ->
  Start r + Z.of_nat (length (Lines r)) <= maxInt + 1 ->
  increasing (numbers r)
  /\ forall n, head (numbers r) = Some n -> n = Start r.
Proof.
  intros [Hs Hn] Hno.
  assert (Hexact : forall (i : nat) n,
             numbers r !! i = Some n -> n = Start r + Z.of_nat i).
  { intros i n Hi. unfold numbers in Hi.
    rewrite list_lookup_fmap in Hi.
    destruct (Lines r !! i) as [dl|] eqn:E; [|discriminate].
    injection Hi as <-. rewrite (Hn i dl E).
    apply lookup_lt_Some in E. apply wrap_small. lia. }
  split.
  - intros i j x y Hi Hj Hij.
    rewrite (Hexact i x Hi), (Hexact j y Hj). lia.
  - intros n Hh. rewrite head_lookup in Hh.
    rewrite (Hexact 0%nat n Hh). lia.
Qed.

(** ** Positions (C3) *)

Lemma increasing_nil : increasing [].
Proof. intros i j x y H. discriminate. Qed.

Lemma increasing_snoc l p :
  increasing l -> Forall (fun x => x < p) l -> increasing (l ++ [p]).
Proof.
  intros Hl Hp i j x y Hi Hj Hij.
  apply lookup_snoc_Some in Hj as [[Hlt Hj]|[-> <-]].
  - rewrite lookup_app_l in Hi by lia. eapply Hl; eassumption.
  - rewrite lookup_app_l in Hi by lia.
    rewrite Forall_lookup in Hp. eapply Hp, Hi.
Qed.

Lemma increasing_app_l l k : increasing (l ++ k) -> increasing l.
Proof.
  intros H i j x y Hi Hj Hij.
  apply (H i j); [apply lookup_app_l_Some, Hi | apply lookup_app_l_Some, Hj | exact Hij].
Qed.

Lemma increasing_app_r l k : increasing (l ++ k) -> increasing k.
Proof.
  intros H i j x y Hi Hj Hij.
  apply (H (length l + i)%nat (length l + j)%nat);
    [rewrite lookup_app_r by lia | rewrite lookup_app_r by lia | lia].
  - replace (length l + i - length l)%nat with i by lia. exact Hi.
  - replace (length l + j - length l)%nat with j by lia. exact Hj.
Qed.

Lemma filePositions_snoc hs h f :
  Hunks f = hs ++ [h] ->
  filePositions f = flat_map positions hs ++ positions h.
Proof.
  intros H. unfold filePositions. rewrite H, flat_map_app. simpl.
  rewrite app_nil_r. reflexivity.
Qed.

Lemma positions_addToHunk m nl ol h :
  Position ol = Position nl ->
  positions (addToHunk m nl ol h) = positions h ++ [Position nl].
Proof.
  intros E. unfold positions.
  destruct m; simpl; rewrite map_app; simpl; rewrite ?E; reflexivity.
Qed.

Lemma split_from_length sep skip s :
  (length (snd (strings.split_from sep skip s)) <= String.length s)%nat.
Proof.
  revert skip. induction s as [|c s IH]; intros skip; simpl; [lia|].
  destruct skip as [|k].
  - destruct (strings.HasPrefix (String c s) sep).
    + specialize (IH (String.length sep - 1)%nat).
      destruct (strings.split_from sep _ s); simpl in *. lia.
    + specialize (IH O).
      destruct (strings.split_from sep _ s); simpl in *. lia.
  - specialize (IH k). lia.
Qed.

Lemma Split_length s sep :
  (length (strings.Split s sep) <= S (String.length s))%nat.
Proof.
  unfold strings.Split. pose proof (split_from_length sep O s) as H.
  destruct (strings.split_from sep O s); simpl in *. lia.
Qed.

Lemma positionInv_init : positionInv [] init.
Proof.
  split; [simpl; lia|]. split; [constructor|]. split; [discriminate|].
  intros fs f H. destruct fs; discriminate.
Qed.

Lemma positionInv_step all pre l rest st st' :
  Z.of_nat (length all) <= maxInt ->
  all = pre ++ l :: rest ->
  positionInv pre st -> Step st l rest st' -> positionInv (pre ++ [l]) st'.
Proof.
  intros Hlen -> (Hc & Hall & Hfh & Hlast) HS.
  rewrite length_app in Hlen. simpl in Hlen.
  assert (Hincr : incr (diffPosCount st) = diffPosCount st + 1).
  { unfold incr. apply wrap_small. unfold minInt. lia. }
  unfold positionInv. rewrite length_app. simpl.
  destruct HS; simpl; rewrite ?Hincr.
  - (* a new file *)
    split; [lia|]. split; [|split; [reflexivity|]].
    + apply Forall_app. split; [exact Hall|]. apply Forall_singleton.
      split; [apply increasing_nil | constructor].
    + intros fs f E. apply app_inj_tail in E as [_ <-]. reflexivity.
  - (* a field of the file *)
    rewrite H1 in Hall. apply Forall_app in Hall as [Hfs Hf].
    rewrite Forall_singleton in Hf.
    assert (Ep : filePositions (g f) = filePositions f).
    { unfold filePositions. rewrite (FieldUpdate_Hunks _ _ _ H0). reflexivity. }
    split; [lia|]. split; [|split; [exact Hfh|]].
    + apply Forall_app. split; [exact Hfs|]. apply Forall_singleton.
      unfold filePositioned. rewrite Ep. exact Hf.
    + intros fs' f' E. apply app_inj_tail in E as [_ <-].
      specialize (Hlast fs f H1).
      destruct (firstHunkInFile st).
      * rewrite (FieldUpdate_Hunks _ _ _ H0). exact Hlast.
      * rewrite Ep. eapply Forall_impl; [exact Hlast|]. simpl. intros; lia.
  - (* a new hunk *)
    apply hunkOfHeader_Ok in H2 as (_ & _ & Lw & _ & _).
    rewrite H3 in Hall. apply Forall_app in Hall as [Hfs Hf].
    rewrite Forall_singleton in Hf.
    assert (Ep : filePositions (set_Hunks (Hunks f ++ [hunk]) f)
                 = filePositions f).
    { unfold filePositions. simpl. rewrite flat_map_app. simpl.
      unfold positions at 2. rewrite Lw. simpl. rewrite !app_nil_r.
      reflexivity. }
    specialize (Hlast fs f H3).
    split; [destruct (firstHunkInFile st); lia|].
    split; [|split; [discriminate|]].
    + apply Forall_app. split; [exact Hfs|]. apply Forall_singleton.
      unfold filePositioned. rewrite Ep. exact Hf.
    + intros fs' f' E. apply app_inj_tail in E as [_ <-]. rewrite Ep.
      destruct (firstHunkInFile st).
      * unfold filePositions. rewrite Hlast. constructor.
      * eapply Forall_impl; [exact Hlast|]. simpl. intros; lia.
  - (* a content line *)
    rewrite H3 in Hall. apply Forall_app in Hall as [Hfs Hf].
    rewrite Forall_singleton in Hf. destruct Hf as [Hinc Hpos].
    specialize (Hlast fs f H3).
    destruct (firstHunkInFile st) eqn:Efh.
    { rewrite (Hfh eq_refl) in H0. discriminate. }
    set (h' := addToHunk m _ _ h).
    assert (Ep : filePositions (set_Hunks (hs ++ [h']) f)
                 = filePositions f ++ [diffPosCount st + 1]).
    { rewrite (filePositions_snoc hs h' (set_Hunks (hs ++ [h']) f) eq_refl).
      rewrite (filePositions_snoc hs h f H4).
      unfold h'. rewrite positions_addToHunk by reflexivity.
      simpl. rewrite app_assoc. reflexivity. }
    split; [lia|]. split; [|split; [discriminate|]].
    + apply Forall_app. split; [exact Hfs|]. apply Forall_singleton.
      unfold filePositioned. rewrite Ep. split.
      * apply increasing_snoc; [exact Hinc|].
        eapply Forall_impl; [exact Hlast|]. simpl. intros; lia.
      * apply Forall_app. split; [exact Hpos|]. apply Forall_singleton. lia.
    + intros fs' f' E. apply app_inj_tail in E as [_ <-]. rewrite Ep.
      apply Forall_app. split.
      * eapply Forall_impl; [exact Hlast|]. simpl. intros; lia.
      * apply Forall_singleton. lia.
  - (* a line that is passed over *)
    split; [lia|]. split; [exact Hall|]. split; [exact Hfh|].
    intros fs f E. specialize (Hlast fs f E).
    destruct (firstHunkInFile st); [exact Hlast|].
    eapply Forall_impl; [exact Hlast|]. simpl. intros; lia.
Qed.

Lemma Parse_positioned s d f :
  Parse s = Ok d -> len s < maxInt -> f ∈ Files d -> filePositioned f.
Proof.
  intros HP Hlen Hf.
  destruct (Parse_invariant positionInv s d) as (st & E & (_ & Hall & _)).
  - apply positionInv_init.
  - intros pre l0 rest st st' Hsplit. eapply positionInv_step; [|exact Hsplit].
    pose proof (Split_length s nl). unfold len in Hlen. lia.
  - exact HP.
  - rewrite E in Hf. rewrite Forall_forall in Hall. apply Hall, Hf.
Qed.

(** ** Modes and names (C6) *)

Lemma sections_snoc pre l :
  sections (pre ++ [l]) =
  if strings.HasPrefix l "diff " then sections pre ++ [[l]]
  else map_last (fun sec => sec ++ [l]) (sections pre).
Proof. unfold sections. rewrite foldl_app. reflexivity. Qed.

Lemma Forall2_map_last {A B} (P : A -> B -> Prop) (g : A -> A) (k : B -> B)
  (l : list A) (m : list B) :
  Forall2 P l m ->
  (forall x y, P x y -> P (g x) (k y)) ->
  Forall2 P (map_last g l) (map_last k m).
Proof.
  intros H Hg. induction H as [|x y l m Hxy Hlm IH]; [constructor|].
  destruct Hlm as [|x' y' l m Hxy' Hlm].
  - simpl. constructor; [apply Hg, Hxy | constructor].
  - change (Forall2 P (x :: map_last g (x' :: l)) (y :: map_last k (y' :: m))).
    constructor; [exact Hxy | exact IH].
Qed.

Lemma map_last_id {A} (l : list A) : map_last (fun x => x) l = l.
Proof.
  induction l as [|x l IH]; [reflexivity|].
  destruct l; [reflexivity|]. simpl in *. rewrite IH. reflexivity.
Qed.

Lemma existsb_snoc_false {A} (p : A -> bool) l x :
  existsb p (l ++ [x]) = false -> existsb p l = false /\ p x = false.
Proof.
  rewrite existsb_app. simpl. rewrite orb_false_r.
  intros H. apply orb_false_iff in H. exact H.
Qed.

(** A line that leaves the mode and the names alone keeps the trace. *)
Lemma fileTraced_weaken f f' sec l :
  Mode f' = Mode f -> OrigName f' = OrigName f -> NewName f' = NewName f ->
  fileTraced f sec -> fileTraced f' (sec ++ [l]).
Proof.
  intros Em Eo En (H1 & H2 & H3 & H4 & H5).
  rewrite <- Em, <- Eo, <- En in *.
  repeat split.
  - intros H. apply existsb_snoc_false in H as [H _]. auto.
  - intros H. apply existsb_snoc_false in H as [H _]. auto.
  - intros H. apply elem_of_app. left. auto.
  - intros H. apply elem_of_app. left. auto.
  - intros H. destruct (H5 H) as (l' & Hin & Hp). exists l'.
    split; [apply elem_of_app; left; exact Hin | exact Hp].
Qed.

Lemma fileTraced_field l g f sec :
  FieldUpdate l g -> fileTraced f sec -> fileTraced (g f) (sec ++ [l]).
Proof.
  intros Hg HT.
  pose proof (fileTraced_weaken f f sec l eq_refl eq_refl eq_refl HT)
    as (H1 & H2 & H3 & H4 & H5).
  assert (Hl : l ∈ sec ++ [l]).
  { apply elem_of_app. right. apply list_elem_of_singleton. reflexivity. }
  assert (Hw : forall p, p l = true -> existsb p (sec ++ [l]) = false -> False).
  { intros p Hp H. apply existsb_snoc_false in H as [_ H]. congruence. }
  destruct Hg; unfold fileTraced; simpl.
  - subst l. repeat split; auto; discriminate.
  - subst l. repeat split; auto; discriminate.
  - repeat split; auto; try discriminate. intros _. exists l. auto.
  - repeat split; auto. intros H'. exfalso. apply (Hw writesOrigName); [|exact H'].
    unfold writesOrigName. rewrite H. rewrite eqb_neq_false by assumption.
    reflexivity.
  - repeat split; auto. intros H'. exfalso. apply (Hw writesNewName); [|exact H'].
    unfold writesNewName. rewrite H. rewrite eqb_neq_false by assumption.
    reflexivity.
  - repeat split; auto. intros H'. exfalso. apply (Hw writesOrigName); [|exact H'].
    unfold writesOrigName. rewrite H. apply orb_true_iff. left.
    apply orb_true_r.
  - repeat split; auto. intros H'. exfalso. apply (Hw writesNewName); [|exact H'].
    unfold writesNewName. rewrite H. apply orb_true_iff. left.
    apply orb_true_r.
  - repeat split; try discriminate.
    + intros H'. exfalso. apply (Hw writesNewName); [|exact H'].
      unfold writesNewName. rewrite H. apply orb_true_r.
    + intros H'. exfalso. apply (Hw writesOrigName); [|exact H'].
      unfold writesOrigName. rewrite H. apply orb_true_r.
Qed.

Lemma headerLine_diff l :
  headerLine l = false -> strings.HasPrefix l "diff " = false.
Proof. intros H. apply headerLine_false in H. tauto. Qed.

Lemma tracedInv_step pre l rest st st' :
  Forall2 fileTraced (diff_Files st) (sections pre) ->
  Step st l rest st' ->
  Forall2 fileTraced (diff_Files st') (sections (pre ++ [l])).
Proof.
  intros HI HS. rewrite sections_snoc.
  assert (Hmap : forall g,
    strings.HasPrefix l "diff " = false ->
    (forall f sec, fileTraced f sec -> fileTraced (g f) (sec ++ [l])) ->
    Forall2 fileTraced (map_last g (diff_Files st))
      (if strings.HasPrefix l "diff " then sections pre ++ [[l]]
       else map_last (fun sec => sec ++ [l]) (sections pre))).
  { intros g -> Hg. apply Forall2_map_last; assumption. }
  assert (Hkeep : forall hs f sec,
    fileTraced f sec -> fileTraced (set_Hunks hs f) (sec ++ [l])).
  { intros hs f sec. apply fileTraced_weaken; reflexivity. }
  destruct HS; cbn [diff_Files set_diff_Files tick].
  - rewrite H. apply Forall2_app; [exact HI|].
    constructor; [|constructor].
    repeat split; simpl; try reflexivity; discriminate.
  - rewrite <- (map_last_snoc g), <- H1. apply Hmap; [exact H|].
    intros f0 sec. apply fileTraced_field, H0.
  - rewrite <- (map_last_snoc (set_Hunks (Hunks f ++ [hunk]))).
    rewrite <- H3. apply Hmap; [exact H0|]. intros f0 sec. apply Hkeep.
  - rewrite <- map_last_snoc with (g := fun f0 => set_Hunks _ f0).
    rewrite <- H3. apply Hmap; [apply headerLine_diff, H|].
    intros f0 sec. apply Hkeep.
  - rewrite <- (map_last_id (diff_Files st)).
    apply Hmap; [apply headerLine_diff, H|].
    intros f0 sec. apply fileTraced_weaken; reflexivity.
Qed.

Lemma Parse_traced s d :
  Parse s = Ok d ->
  Forall2 fileTraced (Files d) (sections (strings.Split s nl)).
Proof.
  intros HP.
  destruct (Parse_invariant
              (fun pre st => Forall2 fileTraced (diff_Files st) (sections pre))
              s d) as (st & E & H).
  - constructor.
  - intros pre l0 rest st st' _. apply tracedInv_step.
  - exact HP.
  - rewrite E. exact H.
Qed.

(** ** The cases of the [switch], line by line *)

Lemma HasPrefix_cons s a p :
  strings.HasPrefix s (String a p) = true ->
  exists r, s = String a r /\ strings.HasPrefix r p = true.
Proof.
  destruct s as [|c r]; simpl; [discriminate|]. intros H.
  apply andb_true_iff in H as [Hc Hp]. apply Ascii.eqb_eq in Hc. subst c.
  exists r. split; [reflexivity | exact Hp].
Qed.

(** [no_case t]: the condition [t] of a case is false by its first
    byte. *)
Ltac no_case t := replace t with false by reflexivity.

Lemma step_deleted st rest :
  step st "+++ /dev/null" rest
  = assign_file (set_Mode FileModeDeleted) (tick st).
Proof. reflexivity. Qed.

Lemma step_new st rest :
  step st "--- /dev/null" rest = assign_file (set_Mode FileModeNew) (tick st).
Proof. reflexivity. Qed.

Lemma step_similarity st l rest :
  strings.HasPrefix l similarityPrefix = true ->
  step st l rest =
  assign_file
    (fun f =>
       set_SimilarityIndex
         (fst (strconv.Atoi
                 (strings.TrimSuffix
                    (strings.TrimPrefix l similarityPrefix) "%")))
         (set_Mode FileModeRenamed f))
    (tick st).
Proof.
  intros H. unfold step. rewrite H.
  apply HasPrefix_cons in H as (r & -> & _).
  no_case (strings.HasPrefix (String "s" r) "diff ").
  no_case (String.eqb (String "s" r) "+++ /dev/null").
  no_case (String.eqb (String "s" r) "--- /dev/null").
  reflexivity.
Qed.

Lemma step_orig st l rest :
  strings.HasPrefix l oldFilePrefix = true -> l <> "--- /dev/null" ->
  step st l rest =
  assign_file
    (set_OrigName (parseFileName (strings.TrimPrefix l oldFilePrefix)))
    (tick st).
Proof.
  intros H Hne. unfold step. rewrite H, (eqb_neq_false _ _ Hne).
  apply HasPrefix_cons in H as (r & -> & _).
  no_case (strings.HasPrefix (String "-" r) "diff ").
  no_case (String.eqb (String "-" r) "+++ /dev/null").
  no_case (strings.HasPrefix (String "-" r) similarityPrefix).
  reflexivity.
Qed.

Lemma step_newname st l rest :
  strings.HasPrefix l newFilePrefix = true -> l <> "+++ /dev/null" ->
  step st l rest =
  assign_file
    (set_NewName (parseFileName (strings.TrimPrefix l newFilePrefix)))
    (tick st).
Proof.
  intros H Hne. unfold step. rewrite H, (eqb_neq_false _ _ Hne).
  apply HasPrefix_cons in H as (r & -> & _).
  no_case (strings.HasPrefix (String "+" r) "diff ").
  no_case (String.eqb (String "+" r) "--- /dev/null").
  no_case (strings.HasPrefix (String "+" r) similarityPrefix).
  no_case (strings.HasPrefix (String "+" r) oldFilePrefix).
  reflexivity.
Qed.

Lemma rename_prefixes l :
  strings.HasPrefix l renameFromPrefix = true ->
  strings.HasPrefix l renameToPrefix = false.
Proof.
  intros H. apply HasPrefix_inv in H. rewrite H. reflexivity.
Qed.

Lemma step_renameFrom st l rest :
  strings.HasPrefix l renameFromPrefix = true ->
  step st l rest =
  assign_file
    (set_OrigName (parseFileName (strings.TrimPrefix l renameFromPrefix)))
    (tick st).
Proof.
  intros H. unfold step. rewrite H.
  apply HasPrefix_cons in H as (r & -> & _).
  no_case (strings.HasPrefix (String "r" r) "diff ").
  no_case (String.eqb (String "r" r) "+++ /dev/null").
  no_case (String.eqb (String "r" r) "--- /dev/null").
  no_case (strings.HasPrefix (String "r" r) similarityPrefix).
  no_case (strings.HasPrefix (String "r" r) oldFilePrefix).
  no_case (strings.HasPrefix (String "r" r) newFilePrefix).
  reflexivity.
Qed.

Lemma step_renameTo st l rest :
  strings.HasPrefix l renameToPrefix = true ->
  step st l rest =
  assign_file
    (set_NewName (parseFileName (strings.TrimPrefix l renameToPrefix)))
    (tick st).
Proof.
  intros H. unfold step. rewrite H.
  assert (H' : strings.HasPrefix l renameFromPrefix = false).
  { destruct (strings.HasPrefix l renameFromPrefix) eqn:E; [|reflexivity].
    apply rename_prefixes in E. congruence. }
  rewrite H'.
  apply HasPrefix_cons in H as (r & -> & _).
  no_case (strings.HasPrefix (String "r" r) "diff ").
  no_case (String.eqb (String "r" r) "+++ /dev/null").
  no_case (String.eqb (String "r" r) "--- /dev/null").
  no_case (strings.HasPrefix (String "r" r) similarityPrefix).
  no_case (strings.HasPrefix (String "r" r) oldFilePrefix).
  no_case (strings.HasPrefix (String "r" r) newFilePrefix).
  reflexivity.
Qed.

Lemma step_binary st l rest :
  strings.HasPrefix l binaryPrefix = true ->
  step st l rest =
  assign_file (set_Mode FileModeModified) (tick st) ≫= fun st1 =>
  match strings.Split
          (strings.TrimSuffix (strings.TrimPrefix l binaryPrefix) " differ")
          " and " with
  | [name0; name1] =>
      assign_file
        (fun f => set_NewName (parseFileName name1)
                    (set_OrigName (parseFileName name0) f)) st1
  | _ => Err (ErrorString "invalid binary diff")
  end.
Proof.
  intros H. unfold step. rewrite H.
  apply HasPrefix_cons in H as (r & -> & _).
  no_case (strings.HasPrefix (String "B" r) "diff ").
  no_case (String.eqb (String "B" r) "+++ /dev/null").
  no_case (String.eqb (String "B" r) "--- /dev/null").
  no_case (strings.HasPrefix (String "B" r) similarityPrefix).
  no_case (strings.HasPrefix (String "B" r) oldFilePrefix).
  no_case (strings.HasPrefix (String "B" r) newFilePrefix).
  no_case (strings.HasPrefix (String "B" r) renameFromPrefix).
  no_case (strings.HasPrefix (String "B" r) renameToPrefix).
  reflexivity.
Qed.

Lemma step_hunk st l rest fs f hunk :
  strings.HasPrefix l "@@ " = true ->
  diff_Files st = fs ++ [f] ->
  hunkOfHeader l = Ok hunk ->
  step st l rest =
  Ok {| diff_Files := fs ++ [set_Hunks (Hunks f ++ [hunk]) f];
        addedCount := Start (NewRange hunk);
        removedCount := Start (OrigRange hunk);
        inHunk := true;
        diffPosCount :=
          (if firstHunkInFile st then 0 else incr (diffPosCount st));
        firstHunkInFile := false |}.
Proof.
  intros H Hf Hh. unfold step. rewrite H, Hh.
  apply HasPrefix_cons in H as (r & -> & _).
  no_case (strings.HasPrefix (String "@" r) "diff ").
  no_case (String.eqb (String "@" r) "+++ /dev/null").
  no_case (String.eqb (String "@" r) "--- /dev/null").
  no_case (strings.HasPrefix (String "@" r) similarityPrefix).
  no_case (strings.HasPrefix (String "@" r) oldFilePrefix).
  no_case (strings.HasPrefix (String "@" r) newFilePrefix).
  no_case (strings.HasPrefix (String "@" r) renameFromPrefix).
  no_case (strings.HasPrefix (String "@" r) renameToPrefix).
  no_case (strings.HasPrefix (String "@" r) binaryPrefix).
  cbn iota.
  rewrite (assign_file_snoc _ _ fs f) by exact Hf. simpl.
  rewrite (assign_file_snoc _ _ fs f) by reflexivity. simpl.
  rewrite map_last_snoc || reflexivity.
Qed.

(** A content line of an open hunk. *)
Lemma step_content st l rest fs f hs h m :
  contentLine l -> inHunk st = true ->
  diff_Files st = fs ++ [f] -> Hunks f = hs ++ [h] ->
  lineMode l = Ok m ->
  step st l rest =
  Ok {| diff_Files :=
          fs ++ [set_Hunks
                   (hs ++ [addToHunk m
                             (mkLine m l (incr (diffPosCount st))
                                (addedCount st))
                             (mkLine m l (incr (diffPosCount st))
                                (removedCount st)) h]) f];
        addedCount :=
          match m with
          | DiffLineModeAdded | DiffLineModeUnchanged =>
              incr (addedCount st)
          | DiffLineModeRemoved => addedCount st
          end;
        removedCount :=
          match m with
          | DiffLineModeRemoved | DiffLineModeUnchanged =>
              incr (removedCount st)
          | DiffLineModeAdded => removedCount st
          end;
        inHunk := true; diffPosCount := incr (diffPosCount st);
        firstHunkInFile := firstHunkInFile st |}.
Proof.
  intros [Hh Hs] Hi Hf Hhs Hm.
  rewrite (step_noheader _ _ _ Hh), Hi, Hs, Hm. simpl.
  unfold addLine, assign_hunk.
  rewrite (file_of_snoc (tick st) fs f Hf), Hhs, last_snoc.
  rewrite (assign_file_snoc _ (tick st) fs f Hf). simpl.
  rewrite Hhs, map_last_snoc, Hi. reflexivity.
Qed.

(** Every case that assigns to the mode or to the names is one assignment
    through [file]; it panics when no ["diff "] line has been read. *)
Lemma step_field st l rest g :
  FieldUpdate l g -> step st l rest = assign_file g (tick st).
Proof.
  intros Hg. destruct Hg as [-> | -> | H | H Hne | H Hne | H | H | n0 n1 H Hs].
  - apply step_deleted.
  - apply step_new.
  - apply step_similarity, H.
  - apply step_orig; assumption.
  - apply step_newname; assumption.
  - apply step_renameFrom, H.
  - apply step_renameTo, H.
  - rewrite (step_binary _ _ _ H), Hs.
    destruct (file_of (tick st)) as [f|] eqn:Ef.
    + apply last_Some in Ef as [fs Ef].
      rewrite !(assign_file_snoc _ (tick st) fs f Ef), bind_ret.
      rewrite (assign_file_snoc _
                 (set_diff_Files (fs ++ [set_Mode FileModeModified f])
                    (tick st))
                 fs (set_Mode FileModeModified f) eq_refl).
      reflexivity.
    + apply last_None in Ef.
      rewrite !(assign_file_nil _ (tick st) Ef). reflexivity.
Qed.

Lemma step_field_nil st l rest g :
  diff_Files st = [] -> FieldUpdate l g -> step st l rest = Panic.
Proof.
  intros Hnil Hg. rewrite (step_field _ _ _ _ Hg).
  apply assign_file_nil. exact Hnil.
Qed.

(** ** A run of content lines *)

(** Content lines that follow one another get positions that follow one
    another. *)
Lemma content_run body : forall st tail st' fs f hs h,
  inHunk st = true ->
  diff_Files st = fs ++ [f] -> Hunks f = hs ++ [h] ->
  Forall contentLine body ->
  0 <= diffPosCount st ->
  diffPosCount st + Z.of_nat (length body) <= maxInt ->
  loop_upto st body tail = Ok st' ->
  exists f' h',
    diff_Files st' = fs ++ [f'] /\ Hunks f' = hs ++ [h']
    /\ inHunk st' = true
    /\ positions h' =
       positions h
       ++ map (fun i => diffPosCount st + Z.of_nat i) (seq 1 (length body)).
Proof.
  induction body as [|l body IH];
    intros st tail st' fs f hs h Hi Hf Hhs Hall H0 Hmax Hrun.
  - injection Hrun as <-. exists f, h. simpl. rewrite app_nil_r. auto.
  - apply Forall_cons in Hall as [Hl Hall]. simpl in Hrun, Hmax.
    apply bind_Ok in Hrun as (st1 & Hstep & Hrun).
    assert (Hm : exists m, lineMode l = Ok m).
    { destruct Hl as [Hh Hs]. rewrite (step_noheader _ _ _ Hh), Hi, Hs in Hstep.
      simpl in Hstep. apply bind_Ok in Hstep as (m & Hm & _). eauto. }
    destruct Hm as [m Hm].
    rewrite (step_content st l _ fs f hs h m Hl Hi Hf Hhs Hm) in Hstep.
    injection Hstep as <-.
    assert (Hincr : incr (diffPosCount st) = diffPosCount st + 1).
    { unfold incr. apply wrap_small. unfold minInt. lia. }
    match type of Hrun with
    | loop_upto ?s _ _ = _ =>
        edestruct (IH s tail st' fs _ hs _ eq_refl eq_refl eq_refl Hall)
          as (f' & h' & E1 & E2 & E3 & E4); [| |exact Hrun|]
    end.
    + simpl. lia.
    + simpl. lia.
    + exists f', h'. repeat split; try assumption.
      rewrite E4, positions_addToHunk by reflexivity.
      cbn [diffPosCount Position mkLine length seq map].
      rewrite Hincr, <- app_assoc. cbn [app]. do 2 f_equal.
      rewrite <- (seq_shift (length body) 1), map_map.
      apply map_ext. intros i. lia.
Qed.

(** The positions of the first hunk of a file are 1, 2, ..., k when its
    k content lines follow the header one after the other. *)
Lemma first_hunk_positions st hl body tail st' :
  firstHunkInFile st = true ->
  strings.HasPrefix hl "@@ " = true ->
  Forall contentLine body ->
  Z.of_nat (length body) <= maxInt ->
  loop_upto st (hl :: body) tail = Ok st' ->
  exists fs f hs h,
    diff_Files st' = fs ++ [f] /\ Hunks f = hs ++ [h]
    /\ positions h = map Z.of_nat (seq 1 (length body)).
Proof.
  intros Hfh Hp Hall Hmax Hrun. simpl in Hrun.
  apply bind_Ok in Hrun as (st1 & Hstep & Hrun).
  pose proof (step_sound _ _ _ _ Hstep) as HS.
  assert (Hhl : headerLine hl = true).
  { unfold headerLine. rewrite Hp. apply orb_true_r. }
  destruct HS as [Hd|g fs f Hd Hg Hf|hunk fs f _ Hd _ Hhunk Hf| |];
    try congruence.
  - apply HasPrefix_cons in Hp as (r & -> & _). discriminate.
  - exfalso. apply HasPrefix_cons in Hp as (r & -> & _).
    inversion Hg; discriminate.
  - apply hunkOfHeader_Ok in Hhunk as (_ & _ & Lw & _ & _).
    match type of Hrun with
    | loop_upto ?s _ _ = _ =>
        edestruct (content_run body s tail st' fs _ (Hunks f) hunk
                     eq_refl eq_refl eq_refl Hall)
          as (f' & h' & E1 & E2 & _ & E4); [| |exact Hrun|]
    end.
    + simpl. rewrite Hfh. lia.
    + simpl. rewrite Hfh. lia.
    + exists fs, f', (Hunks f), h'. repeat split; try assumption.
      rewrite E4. unfold positions at 1. rewrite Lw. simpl.
      rewrite Hfh. reflexivity.
Qed.

(** ** Positions are offsets from the first hunk header *)

Lemma firstHunkHeader_cons l sec :
  firstHunkHeader (l :: sec)
  = if strings.HasPrefix l "@@ " then Some O else S <$> firstHunkHeader sec.
Proof. reflexivity. Qed.

Lemma firstHunkHeader_app_Some sec t k :
  firstHunkHeader sec = Some k -> firstHunkHeader (sec ++ t) = Some k.
Proof.
  revert k. induction sec as [|l sec IH]; intros k H.
  - discriminate.
  - rewrite <- app_comm_cons. rewrite firstHunkHeader_cons in *.
    destruct (strings.HasPrefix l "@@ "); [exact H|].
    destruct (firstHunkHeader sec) as [k'|]; [|discriminate].
    rewrite (IH k' eq_refl). exact H.
Qed.

Lemma firstHunkHeader_snoc_None sec l :
  firstHunkHeader sec = None ->
  firstHunkHeader (sec ++ [l])
  = if strings.HasPrefix l "@@ " then Some (length sec) else None.
Proof.
  induction sec as [|l' sec IH]; intros H.
  - change ([] ++ [l]) with [l]. rewrite firstHunkHeader_cons.
    destruct (strings.HasPrefix l "@@ "); reflexivity.
  - rewrite <- app_comm_cons. rewrite firstHunkHeader_cons in *.
    destruct (strings.HasPrefix l' "@@ "); [discriminate|].
    destruct (firstHunkHeader sec) as [k'|]; [discriminate|].
    rewrite (IH eq_refl). destruct (strings.HasPrefix l "@@ "); reflexivity.
Qed.

Lemma Forall2_snoc_inv_l {A B} (P : A -> B -> Prop) l x k :
  Forall2 P (l ++ [x]) k ->
  exists k' y, k = k' ++ [y] /\ Forall2 P l k' /\ P x y.
Proof.
  intros H. apply Forall2_app_inv_l in H as (k1 & k2 & H1 & H2 & ->).
  inversion H2 as [|x' y l' k' Hxy Hnil]; subst. inversion Hnil; subst.
  exists k1, y. auto.
Qed.

Lemma Forall2_snoc {A B} (P : A -> B -> Prop) l x k y :
  Forall2 P l k -> P x y -> Forall2 P (l ++ [x]) (k ++ [y]).
Proof. intros H1 H2. apply Forall2_app; [exact H1|]. repeat constructor. exact H2. Qed.

(** More lines in the section, and the same hunks or a new one without
    lines, keep the content lines where they are. *)
Lemma fileLocated_weaken f f' sec t :
  (forall h, h ∈ Hunks f' ->
             h ∈ Hunks f \/ Lines (WholeRange h) = []) ->
  fileLocated f sec -> fileLocated f' (sec ++ t).
Proof.
  intros Hh HL h dl Hin Hdl. destruct (Hh h Hin) as [Hold|Hnil].
  - destruct (HL h dl Hold Hdl) as (k0 & l & E1 & E2 & E3 & E4 & E5).
    exists k0, l. repeat split; try assumption.
    + apply firstHunkHeader_app_Some, E1.
    + apply lookup_app_l_Some, E3.
  - rewrite Hnil in Hdl. apply elem_of_nil in Hdl. contradiction.
Qed.

Lemma WholeRange_addToHunk m nl ol h :
  Lines (WholeRange (addToHunk m nl ol h))
  = Lines (WholeRange h)
    ++ [match m with DiffLineModeRemoved => ol | _ => nl end].
Proof. destruct m; reflexivity. Qed.

Lemma FieldUpdate_not_hunk l g :
  FieldUpdate l g -> strings.HasPrefix l "@@ " = false.
Proof.
  intros H.
  destruct (strings.HasPrefix l "@@ ") eqn:E; [|reflexivity].
  apply HasPrefix_cons in E as (r & -> & _). inversion H; discriminate.
Qed.

Lemma diff_not_hunk l :
  strings.HasPrefix l "diff " = true -> strings.HasPrefix l "@@ " = false.
Proof.
  intros H. apply HasPrefix_cons in H as (r & -> & _). reflexivity.
Qed.

Lemma headerLine_hunk l :
  headerLine l = false -> strings.HasPrefix l "@@ " = false.
Proof. intros H. apply headerLine_false in H. tauto. Qed.

Lemma locatedInv_init : locatedInv [] init.
Proof.
  split; [simpl; lia|]. split; [discriminate|]. split; [constructor|].
  intros fs f secs sec H. destruct fs; discriminate.
Qed.

(** The state of the counter after a line that is not the header of a
    hunk. *)
Lemma located_last_keep (fh : bool) (c : Z) sec l :
  strings.HasPrefix l "@@ " = false ->
  (if fh then firstHunkHeader sec = None
   else exists k0 : nat,
          firstHunkHeader sec = Some k0
          /\ Z.of_nat (length sec) = Z.of_nat k0 + 1 + c) ->
  if fh then firstHunkHeader (sec ++ [l]) = None
  else exists k0 : nat,
         firstHunkHeader (sec ++ [l]) = Some k0
         /\ Z.of_nat (length (sec ++ [l])) = Z.of_nat k0 + 1 + (c + 1).
Proof.
  intros Hl H. destruct fh.
  - rewrite (firstHunkHeader_snoc_None _ _ H), Hl. reflexivity.
  - destruct H as (k0 & E1 & E2). exists k0.
    split; [apply firstHunkHeader_app_Some, E1|].
    rewrite length_app. simpl. lia.
Qed.

Lemma locatedInv_step all pre l rest st st' :
  Z.of_nat (length all) <= maxInt ->
  all = pre ++ l :: rest ->
  locatedInv pre st -> Step st l rest st' -> locatedInv (pre ++ [l]) st'.
Proof.
  intros Hlen -> (Hc & Hfh & HF & Hlast) HS.
  rewrite length_app in Hlen. simpl in Hlen.
  assert (Hincr : incr (diffPosCount st) = diffPosCount st + 1).
  { unfold incr. apply wrap_small. unfold minInt. lia. }
  unfold locatedInv. rewrite length_app, sections_snoc.
  (* the files and the sections, when the line opens no section *)
  assert (Hsame : forall fs f,
    strings.HasPrefix l "diff " = false ->
    diff_Files st = fs ++ [f] ->
    exists secs sec,
      sections pre = secs ++ [sec]
      /\ Forall2 fileLocated fs secs /\ fileLocated f sec
      /\ (if strings.HasPrefix l "diff " then sections pre ++ [[l]]
          else map_last (fun sec => sec ++ [l]) (sections pre))
         = secs ++ [sec ++ [l]]).
  { intros fs f Hd Hf. rewrite Hf in HF.
    apply Forall2_snoc_inv_l in HF as (secs & sec & E & HF1 & HF2).
    exists secs, sec. rewrite Hd, E, map_last_snoc. auto. }
  destruct HS; cbn [diff_Files set_diff_Files tick diffPosCount inHunk
                    firstHunkInFile length]; rewrite ?Hincr.
  - (* a new file *)
    rewrite H. split; [lia|]. split; [reflexivity|]. split.
    + apply Forall2_snoc; [exact HF|]. intros h dl Hh.
      apply elem_of_nil in Hh. contradiction.
    + intros fs f secs sec E1 E2.
      apply app_inj_tail in E1 as [_ <-]. apply app_inj_tail in E2 as [_ <-].
      rewrite firstHunkHeader_cons, (diff_not_hunk _ H). reflexivity.
  - (* a field of the file *)
    destruct (Hsame fs f H H1) as (secs & sec & E & HF1 & HF2 & ->).
    split; [lia|]. split; [exact Hfh|]. split.
    + apply Forall2_snoc; [exact HF1|].
      apply (fileLocated_weaken f); [|exact HF2].
      intros h Hh. left. rewrite (FieldUpdate_Hunks _ _ _ H0) in Hh. exact Hh.
    + intros fs' f' secs' sec' E1 E2.
      apply app_inj_tail in E2 as [_ <-].
      apply located_last_keep; [eapply FieldUpdate_not_hunk, H0|].
      apply (Hlast fs f secs sec H1 E).
  - (* a new hunk *)
    destruct (Hsame fs f H0 H3) as (secs & sec & E & HF1 & HF2 & ->).
    apply hunkOfHeader_Ok in H2 as (_ & _ & Lw & _ & _).
    specialize (Hlast fs f secs sec H3 E).
    split; [destruct (firstHunkInFile st); lia|].
    split; [discriminate|]. split.
    + apply Forall2_snoc; [exact HF1|].
      apply (fileLocated_weaken f); [|exact HF2].
      intros h Hh. simpl in Hh. apply elem_of_app in Hh as [Hh|Hh]; [left; exact Hh|].
      apply list_elem_of_singleton in Hh. subst h. right. exact Lw.
    + intros fs' f' secs' sec' E1 E2.
      apply app_inj_tail in E2 as [_ <-].
      destruct (firstHunkInFile st).
      * exists (length sec).
        rewrite (firstHunkHeader_snoc_None _ _ Hlast), H1.
        split; [reflexivity|]. rewrite length_app. simpl. lia.
      * destruct Hlast as (k0 & Ek & El). exists k0.
        split; [apply firstHunkHeader_app_Some, Ek|].
        rewrite length_app. simpl. lia.
  - (* a content line *)
    destruct (Hsame fs f (headerLine_diff _ H) H3)
      as (secs & sec & E & HF1 & HF2 & ->).
    specialize (Hlast fs f secs sec H3 E).
    destruct (firstHunkInFile st) eqn:Efh.
    { rewrite (Hfh eq_refl) in H0. discriminate. }
    destruct Hlast as (k0 & Ek & El).
    split; [lia|]. split; [discriminate|]. split.
    + apply Forall2_snoc; [exact HF1|].
      intros h' dl Hh' Hdl. simpl in Hh'.
      assert (Hold : forall h0, h0 ∈ Hunks f -> dl ∈ Lines (WholeRange h0) ->
                exists (k1 : nat) (l0 : string),
                  firstHunkHeader (sec ++ [l]) = Some k1
                  /\ 1 <= Position dl
                  /\ (sec ++ [l]) !! (k1 + Z.to_nat (Position dl))%nat
                     = Some l0
                  /\ Content dl = drop_str 1 l0
                  /\ lineMode l0 = Ok (LMode dl)).
      { intros h0 Hh0 Hdl0.
        apply (fileLocated_weaken f f sec [l] (fun h Hh => or_introl Hh) HF2
                 h0 dl Hh0 Hdl0). }
      apply elem_of_app in Hh' as [Hh'|Hh'].
      { apply (Hold h'); [rewrite H4; apply elem_of_app; left; exact Hh'|exact Hdl]. }
      apply list_elem_of_singleton in Hh'. subst h'.
      rewrite WholeRange_addToHunk in Hdl.
      apply elem_of_app in Hdl as [Hdl|Hdl].
      { apply (Hold h); [|exact Hdl]. rewrite H4. apply elem_of_app. right.
        apply list_elem_of_singleton. reflexivity. }
      apply list_elem_of_singleton in Hdl.
      exists k0, l.
      assert (Hdl' : Position dl = diffPosCount st + 1
                     /\ Content dl = drop_str 1 l /\ LMode dl = m).
      { subst dl. destruct m; simpl; auto. }
      destruct Hdl' as (Ep & Ec & Em). rewrite Ep, Em.
      split; [apply firstHunkHeader_app_Some, Ek|].
      split; [lia|]. split; [|split; assumption].
      replace (k0 + Z.to_nat (diffPosCount st + 1))%nat with (length sec) by lia.
      rewrite lookup_app_r by lia. rewrite Nat.sub_diag. reflexivity.
    + intros fs' f' secs' sec' E1 E2.
      apply app_inj_tail in E2 as [_ <-]. exists k0.
      split; [apply firstHunkHeader_app_Some, Ek|].
      rewrite length_app. simpl. lia.
  - (* a line that is passed over *)
    split; [lia|]. split; [exact Hfh|].
    rewrite (headerLine_diff _ H).
    destruct (diff_Files st) as [|f0 fs0] eqn:Efiles.
    { inversion HF; subst. split; [constructor|].
      intros fs f secs sec E1. destruct fs; discriminate. }
    destruct (exists_last (l := f0 :: fs0) ltac:(discriminate)) as (fs & f & Ef).
    rewrite Ef in *. clear Ef.
    apply Forall2_snoc_inv_l in HF as (secs & sec & E & HF1 & HF2).
    rewrite E, map_last_snoc. split.
    + apply Forall2_snoc; [exact HF1|].
      apply (fileLocated_weaken f); [|exact HF2]. intros h Hh. left. exact Hh.
    + intros fs' f' secs' sec' E1 E2.
      apply app_inj_tail in E2 as [_ <-].
      apply located_last_keep; [apply headerLine_hunk, H|].
      apply (Hlast fs f secs sec eq_refl E).
Qed.

Lemma Parse_located s d :
  Parse s = Ok d -> len s < maxInt ->
  Forall2 fileLocated (Files d) (sections (strings.Split s nl)).
Proof.
  intros HP Hlen.
  destruct (Parse_invariant locatedInv s d) as (st & E & (_ & _ & H & _)).
  - apply locatedInv_init.
  - intros pre l0 rest st st' Hsplit. eapply locatedInv_step; [|exact Hsplit].
    pose proof (Split_length s nl). unfold len in Hlen. lia.
  - exact HP.
  - rewrite E. exact H.
Qed.

(** ** The errors of [Parse] *)

Lemma bind_Err {A B} (r : result A) (k : A -> result B) e :
  (r ≫= k) = Err e -> r = Err e \/ exists a, r = Ok a /\ k a = Err e.
Proof.
  destruct r as [a|e'|]; simpl; intros H;
    [right; eauto | left; congruence | discriminate].
Qed.

Lemma assign_file_no_Err g st e : assign_file g st <> Err e.
Proof. unfold assign_file. destruct (file_of st); discriminate. Qed.

Lemma assign_hunk_no_Err g st e : assign_hunk g st <> Err e.
Proof.
  unfold assign_hunk. destruct (file_of st) as [f|]; [|discriminate].
  destruct (last (Hunks f)); [apply assign_file_no_Err | discriminate].
Qed.

Lemma atoi_Err s e : atoi s = Err e -> ParseError e.
Proof.
  unfold atoi, strconv.Atoi.
  destruct (match s with
            | String "-"%char r => (true, r)
            | String "+"%char r => (false, r)
            | _ => (false, s)
            end) as [neg body].
  destruct (is_empty body).
  { intros H. injection H as <-. constructor. }
  destruct (strconv.digits_val 0 body) as [v|].
  2:{ intros H. injection H as <-. constructor. }
  destruct (maxInt <? _).
  { intros H. injection H as <-. constructor. }
  destruct (_ <? minInt); [|discriminate].
  intros H. injection H as <-. constructor.
Qed.

Lemma hunkOfHeader_Err l e : hunkOfHeader l = Err e -> ParseError e.
Proof.
  unfold hunkOfHeader.
  destruct (regexp.hunkHeaderReg_FindStringSubmatch l)
    as [[|m0 [|m1 [|m2 [|m3 [|m4 [|m5 [|]]]]]]]|];
    try (intros H; injection H as <-; constructor).
  intros H.
  apply bind_Err in H as [H|(a & _ & H)]; [eapply atoi_Err, H|].
  apply bind_Err in H as [H|(b & _ & H)].
  { destruct (0 <? len m2); [eapply atoi_Err, H | discriminate]. }
  apply bind_Err in H as [H|(c & _ & H)]; [eapply atoi_Err, H|].
  apply bind_Err in H as [H|(d & _ & H)]; [|discriminate].
  destruct (0 <? len m4); [eapply atoi_Err, H | discriminate].
Qed.

Lemma lineMode_Err l e : lineMode l = Err e -> ParseError e.
Proof.
  destruct l as [|c r]; [discriminate|]. simpl.
  repeat (destruct (Ascii.eqb c _); [discriminate|]).
  intros H. injection H as <-. constructor.
Qed.

Lemma step_Err st l rest e : step st l rest = Err e -> ParseError e.
Proof.
  destruct (headerLine l) eqn:Hh.
  2:{ rewrite (step_noheader _ _ _ Hh).
      destruct (inHunk st && isSourceLine l); [|discriminate].
      intros H. apply bind_Err in H as [H|(m & _ & H)].
      - eapply lineMode_Err, H.
      - unfold addLine in H. apply bind_Err in H as [H|(st1 & _ & H)].
        + apply assign_hunk_no_Err in H. contradiction.
        + discriminate. }
  unfold step.
  destruct (strings.HasPrefix l "diff "); [discriminate|].
  repeat match goal with
         | |- (if ?c then assign_file ?g ?s else _) = Err e -> _ =>
             destruct c;
             [intros H; apply assign_file_no_Err in H; contradiction|]
         end.
  destruct (strings.HasPrefix l binaryPrefix).
  { intros H. apply bind_Err in H as [H|(st1 & _ & H)].
    - apply assign_file_no_Err in H. contradiction.
    - destruct (strings.Split _ _) as [|n0 [|n1 [|]]];
        try (injection H as <-; constructor).
      apply assign_file_no_Err in H. contradiction. }
  destruct (strings.HasPrefix l "@@ ").
  { intros H. apply bind_Err in H as [H|(st1 & _ & H)].
    - apply assign_file_no_Err in H. contradiction.
    - apply bind_Err in H as [H|(hunk & _ & H)]; [eapply hunkOfHeader_Err, H|].
      apply bind_Err in H as [H|(st2 & _ & H)]; [|discriminate].
      apply assign_file_no_Err in H. contradiction. }
  unfold headerLine in Hh. intros H.
  destruct (inHunk (tick st) && isSourceLine l); [|discriminate].
  apply bind_Err in H as [H|(m & _ & H)]; [eapply lineMode_Err, H|].
  unfold addLine in H. apply bind_Err in H as [H|(st1 & _ & H)].
  - apply assign_hunk_no_Err in H. contradiction.
  - discriminate.
Qed.

Lemma loop_Err lines : forall st e, loop st lines = Err e -> ParseError e.
Proof.
  induction lines as [|l rest IH]; intros st e H; [discriminate|].
  simpl in H. apply bind_Err in H as [H|(st1 & _ & H)].
  - eapply step_Err, H.
  - eapply IH, H.
Qed.

Lemma Parse_Err s e : Parse s = Err e -> ParseError e.
Proof.
  unfold Parse. intros H. apply bind_Err in H as [H|(st & _ & H)].
  - eapply loop_Err, H.
  - discriminate.
Qed.

(** ** [Changed] (C8) *)

Lemma appended_app o ns1 ns2 :
  appended (appended o ns1) ns2 = appended o (ns1 ++ ns2).
Proof.
  destruct ns1 as [|n1 ns1]; [reflexivity|].
  destruct ns2 as [|n2 ns2].
  - rewrite app_nil_r. reflexivity.
  - simpl. rewrite <- app_assoc. reflexivity.
Qed.

Lemma map_append_lookup k n (m : gmap string (list Z)) k' :
  map_append k n m !! k'
  = appended (m !! k') (if decide (k = k') then [n] else []).
Proof.
  unfold map_append. destruct (decide (k = k')) as [->|Hne].
  - rewrite lookup_insert_eq. reflexivity.
  - rewrite lookup_insert_ne by exact Hne. reflexivity.
Qed.

Lemma changed_lines_lookup k (ls : list DiffLine) :
  forall (m : gmap string (list Z)) k',
  foldl (fun dFiles dl =>
           if decide (LMode dl = DiffLineModeAdded)
           then map_append k (Number dl) dFiles else dFiles) m ls !! k'
  = appended (m !! k')
      (if decide (k = k')
       then map Number (filter (fun dl => LMode dl = DiffLineModeAdded) ls)
       else []).
Proof.
  induction ls as [|dl ls IH]; intros m k'; simpl.
  - destruct (decide (k = k')); reflexivity.
  - rewrite IH. rewrite filter_cons.
    destruct (decide (LMode dl = DiffLineModeAdded)).
    + rewrite map_append_lookup, appended_app.
      destruct (decide (k = k')); reflexivity.
    + reflexivity.
Qed.

Lemma changed_file_lookup (f : DiffFile) (m : gmap string (list Z)) k' :
  changed_file m f !! k'
  = appended (m !! k')
      (if decide (NewName f = k') then addedNumbers f else []).
Proof.
  unfold changed_file, addedNumbers.
  generalize (Hunks f) as hs. intros hs. revert m.
  induction hs as [|h hs IH]; intros m; simpl.
  - destruct (decide (NewName f = k')); reflexivity.
  - rewrite IH, changed_lines_lookup, appended_app.
    destruct (decide (NewName f = k')); reflexivity.
Qed.

Lemma changed_files_lookup (fs : list DiffFile) :
  forall (m : gmap string (list Z)) k',
  foldl (fun dFiles f =>
           if decide (Mode f = FileModeDeleted) then dFiles
           else changed_file dFiles f) m fs !! k'
  = appended (m !! k')
      (flat_map addedNumbers
         (filter (fun f => Mode f <> FileModeDeleted /\ NewName f = k') fs)).
Proof.
  induction fs as [|f fs IH]; intros m k'; simpl; [reflexivity|].
  rewrite IH, filter_cons.
  destruct (decide (Mode f = FileModeDeleted)) as [Hd|Hd].
  - destruct (decide (Mode f <> FileModeDeleted /\ NewName f = k'))
      as [[Hn _]|_]; [contradiction|reflexivity].
  - rewrite changed_file_lookup, appended_app.
    destruct (decide (NewName f = k')) as [Hk|Hk];
      destruct (decide (Mode f <> FileModeDeleted /\ NewName f = k'))
        as [[_ Hk']|Hno]; try reflexivity; try contradiction.
    exfalso. apply Hno. split; assumption.
Qed.

Lemma Changed_skips_deleted (fs : list DiffFile) :
  forall m : gmap string (list Z),
  foldl (fun dFiles f =>
           if decide (Mode f = FileModeDeleted) then dFiles
           else changed_file dFiles f) m
        (filter (fun f => Mode f <> FileModeDeleted) fs)
  = foldl (fun dFiles f =>
             if decide (Mode f = FileModeDeleted) then dFiles
             else changed_file dFiles f) m fs.
Proof.
  induction fs as [|f fs IH]; intros m; [reflexivity|].
  rewrite filter_cons. simpl.
  destruct (decide (Mode f <> FileModeDeleted)) as [Hd|Hd];
    destruct (decide (Mode f = FileModeDeleted)) as [Hd'|Hd'];
    try contradiction; simpl.
  - destruct (decide (Mode f = FileModeDeleted)); [contradiction|]. apply IH.
  - apply IH.
Qed.

(** * The properties of the specification *)

(** [parse_eval E]: the outcome of [Parse] on a sample input, named by
    the equation [E], is computed. *)
Ltac parse_eval E :=
  let E' := fresh E in
  pose proof E as E'; vm_compute in E'; try discriminate E';
  injection E' as <-.

(** ** C1 *)

(** C1, as amended: for the input
    [diff --git a/file4 b/file4\n--- /dev/null\n+++ b/file4\n@@ -0,0 +1,1 @@\n+hello\n],
    the scenario with the ["diff "] line that opens its section, [Parse]
    returns a [Diff] with one file whose [Mode] is [FileModeNew], whose
    [OrigName] is empty and whose [NewName] is [file4]. *)
Theorem C1_new_file_scenario :
  exists d f,
    Parse git_new_file = Ok d /\ Files d = [f]
    /\ Mode f = FileModeNew /\ OrigName f = EmptyString
    /\ NewName f = "file4".
Proof.
  destruct (Parse git_new_file) as [d|e|] eqn:E; parse_eval E.
  eexists _, _. split; [reflexivity|]. repeat split; reflexivity.
Qed.

(** C1 as stated fails: without a ["diff "] line [file] is nil when the
    first line assigns [file.Mode], and [Parse] panics; it returns no
    [Diff]. *)
Lemma C1_counterexample :
  Parse scenario_new_file = Panic
  /\ ~ exists d, Parse scenario_new_file = Ok d.
Proof.
  assert (E : Parse scenario_new_file = Panic) by (vm_compute; reflexivity).
  split; [exact E|]. intros [d Hd]. congruence.
Qed.

(** ** C2 *)

(** C2 fails on the code: a count that is left out is read as the start
    of its range, not as 1. For the header [@@ -5 +7 @@] the lengths are 5
    and 7. *)
Theorem C2_omitted_count_is_start :
  exists d f h,
    Parse omitted_counts = Ok d /\ Files d = [f] /\ Hunks f = [h]
    /\ Start (OrigRange h) = 5 /\ Length (OrigRange h) = 5
    /\ Start (NewRange h) = 7 /\ Length (NewRange h) = 7.
Proof.
  destruct (Parse omitted_counts) as [d|e|] eqn:E; parse_eval E.
  eexists _, _, _. split; [reflexivity|]. repeat split; reflexivity.
Qed.

(** The same for every header: when the second group of a range does not
    take part in the match, the length of the range is its start. *)
Lemma omitted_count_general l m0 m1 m2 m3 m4 m5 hunk :
  regexp.hunkHeaderReg_FindStringSubmatch l = Some [m0; m1; m2; m3; m4; m5] ->
  hunkOfHeader l = Ok hunk ->
  (m2 = EmptyString -> Length (OrigRange hunk) = Start (OrigRange hunk))
  /\ (m4 = EmptyString -> Length (NewRange hunk) = Start (NewRange hunk)).
Proof.
  intros Hm H. unfold hunkOfHeader in H. rewrite Hm in H.
  apply bind_Ok in H as (a & Ha & H). apply bind_Ok in H as (b & Hb & H).
  apply bind_Ok in H as (c & Hc & H). apply bind_Ok in H as (d & Hd & H).
  injection H as <-. simpl. split; intros ->; simpl in *; congruence.
Qed.

(** ** C3 *)

(** C3, as amended: for every successfully parsed diff of an input
    shorter than the largest [int], and every file in it, the position of
    a content line is the number of lines from the header of the first
    hunk of the file down to the line: in the section of the file, the
    line that many lines below its first ["@@ "] line is the content line
    itself. So the positions of the content lines of a file, taken in the
    order of the diff through all its hunks, and those of every hunk, are
    strictly increasing and at least 1; they start again at the first hunk
    of a file only, and they pass over the lines that are no content
    lines. *)
Theorem C3_positions_are_offsets s d :
  Parse s = Ok d -> len s < maxInt ->
  (forall f, f ∈ Files d ->
     increasing (filePositions f)
     /\ forall h, h ∈ Hunks f ->
          increasing (positions h)
          /\ Forall (fun p => 1 <= p) (positions h))
  /\ Forall2 fileLocated (Files d) (sections (strings.Split s nl)).
Proof.
  intros HP Hlen. split; [|apply Parse_located; assumption].
  intros f Hf.
  destruct (Parse_positioned s d f HP Hlen Hf) as [Hinc Hpos].
  split; [exact Hinc|]. intros h Hh.
  apply list_elem_of_split in Hh as (hs1 & hs2 & E).
  unfold filePositions in Hinc, Hpos. rewrite E in Hinc, Hpos.
  rewrite flat_map_app in Hinc, Hpos. simpl in Hinc, Hpos. split.
  - apply increasing_app_r in Hinc. apply increasing_app_l in Hinc.
    exact Hinc.
  - apply Forall_app in Hpos as [_ Hpos].
    apply Forall_app in Hpos as [Hpos _]. exact Hpos.
Qed.

Lemma C3_witness :
  exists d,
    Parse two_hunks = Ok d
    /\ (forall f, f ∈ Files d ->
          increasing (filePositions f)
          /\ forall h, h ∈ Hunks f ->
               increasing (positions h)
               /\ Forall (fun p => 1 <= p) (positions h))
    /\ Forall2 fileLocated (Files d) (sections (strings.Split two_hunks nl)).
Proof.
  destruct (Parse two_hunks) as [d|e|] eqn:E;
    try (vm_compute in E; discriminate E).
  exists d. split; [reflexivity|].
  apply (C3_positions_are_offsets two_hunks d);
    [exact E | vm_compute; reflexivity].
Defined.

(** C3 as stated fails: the counter does not restart at the second hunk
    of a file. Its header is the third line after the first header, and
    its two content lines have the positions 4 and 5. *)
Lemma C3_counterexample :
  exists d f h1 h2,
    Parse two_hunks = Ok d /\ Files d = [f] /\ Hunks f = [h1; h2]
    /\ positions h1 = [1; 2] /\ positions h2 = [4; 5]
    /\ positions h2 <> [1; 2].
Proof.
  destruct (Parse two_hunks) as [d|e|] eqn:E; parse_eval E.
  eexists _, _, _, _. split; [reflexivity|].
  repeat split; try reflexivity. discriminate.
Qed.

(** ** C4 *)

(** C4, as amended: for every successfully parsed diff and every hunk in
    it, when the numbers of the lines of the new range stay within [int]
    (its start plus the number of its lines is at most 2^63), the [Number]
    fields of [NewRange.Lines] form a strictly increasing sequence whose
    first element is [NewRange.Start]; and the same for [OrigRange]. *)
Theorem C4_numbers_increase s d f h :
  Parse s = Ok d -> f ∈ Files d -> h ∈ Hunks f ->
  (Start (NewRange h) + Z.of_nat (length (Lines (NewRange h))) <= maxInt + 1 ->
   increasing (numbers (NewRange h))
   /\ forall n, head (numbers (NewRange h)) = Some n -> n = Start (NewRange h))
  /\ (Start (OrigRange h) + Z.of_nat (length (Lines (OrigRange h)))
        <= maxInt + 1 ->
      increasing (numbers (OrigRange h))
      /\ forall n, head (numbers (OrigRange h)) = Some n ->
           n = Start (OrigRange h)).
Proof.
  intros HP Hf Hh. destruct (Parse_numbered s d f h HP Hf Hh) as [Ho Hn].
  split; intros Hno; apply rangeNumbered_increasing; assumption.
Qed.

Lemma C4_witness :
  exists d f h,
    Parse file1_diff = Ok d /\ f ∈ Files d /\ h ∈ Hunks f
    /\ numbers (NewRange h) = [1; 2; 3; 4]
    /\ numbers (OrigRange h) = [1; 2; 3; 4]
    /\ increasing (numbers (NewRange h))
    /\ increasing (numbers (OrigRange h)).
Proof.
  destruct (Parse file1_diff) as [d|e|] eqn:E; parse_eval E.
  eexists _, _, _. split; [reflexivity|].
  split; [apply list_elem_of_here|]. split; [apply list_elem_of_here|].
  split; [reflexivity|]. split; [reflexivity|].
  edestruct (C4_numbers_increase file1_diff) as [Hn Ho];
    [exact E | apply list_elem_of_here | apply list_elem_of_here |].
  split; [apply Hn | apply Ho]; vm_compute; discriminate.
Defined.

(** C4 as stated fails where the numbers leave [int]: the line after the
    line 2^63 - 1 gets the number -2^63. *)
Lemma C4_counterexample :
  exists d f h,
    Parse last_number = Ok d /\ Files d = [f] /\ Hunks f = [h]
    /\ numbers (NewRange h) = [9223372036854775807; -9223372036854775808]
    /\ ~ increasing (numbers (NewRange h)).
Proof.
  destruct (Parse last_number) as [d|e|] eqn:E; parse_eval E.
  eexists _, _, _. split; [reflexivity|].
  repeat split; try reflexivity.
  intros H. specialize (H 0%nat 1%nat _ _ eq_refl eq_refl). simpl in H. lia.
Qed.

(** ** C5 *)

Lemma ascii_eqb_false (c a : ascii) : c <> a -> Ascii.eqb c a = false.
Proof. intros H. apply Ascii.eqb_neq, H. Qed.

(** C5, as amended: when, while a hunk is active, a line is not empty,
    begins with a character other than [' '], ['+'] and ['-'], does not
    begin with one of the markers ["diff "], ["similarity index "],
    ["rename from "], ["rename to "], ["Binary files "] and ["@@ "] (a line
    that does is read as a header line, also inside a hunk), and is not
    the no-newline sentinel, [Parse] fails: it returns the error of
    [lineMode] and no [Diff]. *)
Theorem C5_unrecognized_line s pre l post st c r :
  strings.Split s nl = pre ++ l :: post ->
  loop_upto init pre (l :: post) = Ok st ->
  inHunk st = true ->
  l = String c r ->
  c <> " "%char -> c <> "+"%char -> c <> "-"%char ->
  l <> noNewline ->
  strings.HasPrefix l "diff " = false ->
  strings.HasPrefix l similarityPrefix = false ->
  strings.HasPrefix l renameFromPrefix = false ->
  strings.HasPrefix l renameToPrefix = false ->
  strings.HasPrefix l binaryPrefix = false ->
  strings.HasPrefix l "@@ " = false ->
  Parse s =
  Err (ErrorString
         ("could not parse line mode for line: " +:+ dquote +:+ l
          +:+ dquote)).
Proof.
  intros Hs Hrun Hin El Hsp Hpl Hmi Hnn H1 H2 H3 H4 H5 H6.
  apply ascii_eqb_false in Hsp, Hpl, Hmi.
  assert (Hh : headerLine l = false).
  { unfold headerLine. rewrite H1, H2, H3, H4, H5, H6. subst l. simpl.
    rewrite Hpl, Hmi. reflexivity. }
  assert (Hsrc : isSourceLine l = true).
  { unfold isSourceLine. rewrite (eqb_neq_false _ _ Hnn). subst l.
    destruct r as [|c2 [|c3 r]]; simpl; rewrite ?Hpl, ?Hmi; reflexivity. }
  assert (Hm : lineMode l =
               Err (ErrorString
                      ("could not parse line mode for line: " +:+ dquote
                       +:+ l +:+ dquote))).
  { subst l. simpl. rewrite Hsp, Hpl, Hmi. reflexivity. }
  unfold Parse. rewrite Hs, loop_app, Hrun. simpl.
  rewrite (step_noheader _ _ _ Hh), Hin, Hsrc, Hm. reflexivity.
Qed.

Lemma C5_witness :
  Parse garbage_in_hunk =
  Err (ErrorString
         ("could not parse line mode for line: " +:+ dquote +:+ "garbage"
          +:+ dquote)).
Proof.
  eapply (C5_unrecognized_line garbage_in_hunk
            ["diff --git a/f b/f"; "--- a/f"; "+++ b/f"; "@@ -1 +1 @@"; "-a"]
            "garbage" ["+b"; EmptyString] _ "g"%char "arbage");
    [ vm_compute; reflexivity | vm_compute; reflexivity | reflexivity
    | reflexivity | discriminate | discriminate | discriminate
    | discriminate | reflexivity | reflexivity | reflexivity | reflexivity
    | reflexivity | reflexivity ].
Defined.

(** C5 as stated fails: a line that begins with ['d'], the ["diff "] line
    of the next file, comes while the hunk of the first file is active,
    and [Parse] succeeds, with both files. *)
Lemma C5_counterexample :
  exists pre l post st d,
    strings.Split two_files nl = pre ++ l :: post
    /\ loop_upto init pre (l :: post) = Ok st
    /\ inHunk st = true
    /\ l = "diff --git a/g b/g" /\ l <> noNewline
    /\ Parse two_files = Ok d /\ length (Files d) = 2%nat.
Proof.
  destruct (Parse two_files) as [d|e|] eqn:E; parse_eval E.
  exists ["diff --git a/f b/f"; "--- a/f"; "+++ b/f"; "@@ -1 +1 @@";
          "-a"; "+b"],
         "diff --git a/g b/g",
         ["--- a/g"; "+++ b/g"; "@@ -1 +1 @@"; "-c"; "+d"; EmptyString].
  eexists _, _.
  split; [vm_compute; reflexivity|].
  split; [vm_compute; reflexivity|].
  split; [reflexivity|]. split; [reflexivity|].
  split; [discriminate|]. split; reflexivity.
Qed.

(** ** C6 *)

(** C6, as amended: for every input on which [Parse] succeeds, every
    [DiffFile] of the result and the section of the input it comes from
    (its ["diff "] line and the lines up to the next one): if [Mode] is
    [FileModeDeleted] the section holds the line [+++ /dev/null], and
    [NewName] is empty unless a line of the section assigns it (a
    [+++ name], [rename to] or [Binary files] line); if [Mode] is
    [FileModeNew] the section holds the line [--- /dev/null], and
    [OrigName] is empty unless a line of the section assigns it (a
    [--- name], [rename from] or [Binary files] line); if [Mode] is
    [FileModeRenamed] the section holds a [similarity index] line. *)
Theorem C6_modes_and_names s d :
  Parse s = Ok d ->
  Forall2
    (fun f sec =>
       (Mode f = FileModeDeleted ->
        "+++ /dev/null" ∈ sec
        /\ (existsb writesNewName sec = false -> NewName f = EmptyString))
       /\ (Mode f = FileModeNew ->
           "--- /dev/null" ∈ sec
           /\ (existsb writesOrigName sec = false ->
               OrigName f = EmptyString))
       /\ (Mode f = FileModeRenamed ->
           exists l, l ∈ sec
                     /\ strings.HasPrefix l similarityPrefix = true))
    (Files d) (sections (strings.Split s nl)).
Proof.
  intros HP. eapply Forall2_impl; [apply Parse_traced, HP|].
  intros f sec (H1 & H2 & H3 & H4 & H5). auto.
Qed.

Lemma C6_witness :
  exists d,
    Parse git_new_file = Ok d
    /\ Forall2
         (fun f sec =>
            (Mode f = FileModeDeleted ->
             "+++ /dev/null" ∈ sec
             /\ (existsb writesNewName sec = false ->
                 NewName f = EmptyString))
            /\ (Mode f = FileModeNew ->
                "--- /dev/null" ∈ sec
                /\ (existsb writesOrigName sec = false ->
                    OrigName f = EmptyString))
            /\ (Mode f = FileModeRenamed ->
                exists l, l ∈ sec
                          /\ strings.HasPrefix l similarityPrefix = true))
         (Files d) (sections (strings.Split git_new_file nl)).
Proof.
  destruct (Parse git_new_file) as [d|e|] eqn:E; try (vm_compute in E; discriminate E).
  exists d. split; [reflexivity|]. apply C6_modes_and_names, E.
Defined.

(** C6 as stated fails: the added line [+++ /dev/null] of a hunk sets the
    mode of the file to [FileModeDeleted], and its [NewName] stays
    [f]. *)
Lemma C6_counterexample :
  exists d f,
    Parse added_plus_line = Ok d /\ Files d = [f]
    /\ Mode f = FileModeDeleted /\ NewName f = "f"
    /\ NewName f <> EmptyString.
Proof.
  destruct (Parse added_plus_line) as [d|e|] eqn:E; parse_eval E.
  eexists _, _. split; [reflexivity|].
  repeat split; try reflexivity. discriminate.
Qed.

(** ** C7 *)




(** ** C8 *)

(** C8: for every [Diff], [Changed] returns a map keyed by new-file name;
    the value of a name is the list of the new-side [Number] fields of the
    lines with mode Added of the files with this name that are not
    deleted, in their order (a name without such a line is no key), and a
    file whose [Mode] is [FileModeDeleted] adds nothing to the map. *)
Theorem C8_Changed (d : Diff) (name : string) :
  Changed d !! name
  = match addedIn d name with
    | [] => None
    | ns => Some ns
    end
  /\ Changed d
     = Changed {| Files := filter (fun f => Mode f <> FileModeDeleted)
                                  (Files d);
                  Raw := Raw d; PullID := PullID d |}.
Proof.
  split.
  - unfold Changed, addedIn. rewrite changed_files_lookup.
    rewrite lookup_empty. destruct (flat_map _ _); reflexivity.
  - unfold Changed. simpl. symmetry. apply Changed_skips_deleted.
Qed.

(** ** C9 *)

Lemma length_append x y :
  String.length (x +:+ y) = (String.length x + String.length y)%nat.
Proof. induction x as [|c x IH]; simpl; [reflexivity|]. rewrite IH. reflexivity. Qed.

Lemma drop_str_app x y : drop_str (String.length x) (x +:+ y) = y.
Proof. induction x as [|c x IH]; simpl; [reflexivity|exact IH]. Qed.

Lemma take_str_app x y : take_str (String.length x) (x +:+ y) = x.
Proof. induction x as [|c x IH]; simpl; [destruct y; reflexivity|]. rewrite IH. reflexivity. Qed.

Lemma TrimSuffix_app x y : strings.TrimSuffix (x +:+ y) y = x.
Proof.
  unfold strings.TrimSuffix, strings.HasSuffix. rewrite length_append.
  replace (String.length x + String.length y - String.length y)%nat
    with (String.length x) by lia.
  rewrite drop_str_app, String.eqb_refl, take_str_app.
  destruct (_ <=? _)%nat eqn:E; [reflexivity|].
  apply Nat.leb_gt in E. lia.
Qed.

(** The decoder on a quoted token whose escapes are malformed: the quotes
    and the prefix are removed and the name is left as it is. *)
Lemma parseFileName_malformed s :
  strconv.Unquote (dquote +:+ s +:+ dquote) = None ->
  parseFileName (dquote +:+ "a/" +:+ s +:+ dquote) = s
  /\ parseFileName (dquote +:+ "b/" +:+ s +:+ dquote) = s.
Proof.
  intros Hu.
  assert (Hd : decodeOctalString s = s).
  { unfold decodeOctalString. rewrite Hu. reflexivity. }
  split; unfold parseFileName.
  - change (dquote +:+ "a/" +:+ s +:+ dquote)
      with (String "034" (("a/" +:+ s) +:+ dquote)).
    change (strings.TrimPrefix (String "034" (("a/" +:+ s) +:+ dquote)) dquote)
      with (("a/" +:+ s) +:+ dquote).
    rewrite TrimSuffix_app. exact Hd.
  - change (dquote +:+ "b/" +:+ s +:+ dquote)
      with (String "034" (("b/" +:+ s) +:+ dquote)).
    change (strings.TrimPrefix (String "034" (("b/" +:+ s) +:+ dquote)) dquote)
      with (("b/" +:+ s) +:+ dquote).
    rewrite TrimSuffix_app. exact Hd.
Qed.

(** C9: for every filename token whose escape sequences are malformed
    ([strconv.Unquote] fails on it) the decoder [decodeOctalString]
    returns the token unchanged, so that [parseFileName] gives the name
    between the quotes, after the prefix, as it is written; and filename
    decoding never makes [Parse] fail: when there is a file, the iteration
    on a line that carries a filename succeeds, except on a
    [Binary files] line that does not hold two names, whose error is
    raised before a name is decoded; and every error [Parse] returns, on
    any input, is one of the three errors of the structure of the diff. *)
Theorem C9_decoder_fails_soft s st l rest :
  strconv.Unquote (dquote +:+ s +:+ dquote) = None ->
  file_of st <> None ->
  writesOrigName l || writesNewName l = true ->
  decodeOctalString s = s
  /\ parseFileName (dquote +:+ "a/" +:+ s +:+ dquote) = s
  /\ ((exists st', step st l rest = Ok st')
      \/ (strings.HasPrefix l binaryPrefix = true
          /\ step st l rest = Err (ErrorString "invalid binary diff")))
  /\ forall input e, Parse input = Err e -> ParseError e.
Proof.
  intros Hu Hfile Hl. split.
  { unfold decodeOctalString. rewrite Hu. reflexivity. }
  split; [apply parseFileName_malformed, Hu|].
  split; [|intros input e; apply Parse_Err].
  destruct (file_of st) as [f|] eqn:Ef; [clear Hfile|contradiction].
  apply last_Some in Ef as [fs Ef].
  assert (Hassign : forall g, exists st', assign_file g (tick st) = Ok st').
  { intros g. eexists. apply (assign_file_snoc g (tick st) fs f Ef). }
  destruct (strings.HasPrefix l binaryPrefix) eqn:Hb.
  { rewrite (step_binary _ _ _ Hb).
    rewrite (assign_file_snoc _ (tick st) fs f Ef), bind_ret.
    destruct (strings.Split _ _) as [|n0 [|n1 [|]]];
      try (right; split; reflexivity).
    left. eexists.
    apply (assign_file_snoc _
             (set_diff_Files (fs ++ [set_Mode FileModeModified f]) (tick st))
             fs (set_Mode FileModeModified f) eq_refl). }
  left. unfold writesOrigName, writesNewName in Hl. rewrite Hb in Hl.
  rewrite !orb_false_r in Hl.
  destruct (strings.HasPrefix l renameFromPrefix) eqn:Hrf.
  { rewrite (step_renameFrom _ _ _ Hrf). apply Hassign. }
  destruct (strings.HasPrefix l renameToPrefix) eqn:Hrt.
  { rewrite (step_renameTo _ _ _ Hrt). apply Hassign. }
  rewrite !orb_false_r in Hl. apply orb_true_iff in Hl as [Hl|Hl];
    apply andb_true_iff in Hl as [Hp Hne]; apply negb_true_iff in Hne;
    apply String.eqb_neq in Hne.
  - rewrite (step_orig _ _ _ Hp Hne). apply Hassign.
  - rewrite (step_newname _ _ _ Hp Hne). apply Hassign.
Qed.

Lemma C9_witness :
  decodeOctalString "bad\q" = "bad\q"
  /\ parseFileName (dquote +:+ "a/" +:+ "bad\q" +:+ dquote) = "bad\q"
  /\ ((exists st',
         step in_hunk_state ("--- " +:+ dquote +:+ "a/bad\q" +:+ dquote) []
         = Ok st')
      \/ (strings.HasPrefix ("--- " +:+ dquote +:+ "a/bad\q" +:+ dquote)
            binaryPrefix = true
          /\ step in_hunk_state
               ("--- " +:+ dquote +:+ "a/bad\q" +:+ dquote) []
             = Err (ErrorString "invalid binary diff")))
  /\ forall input e, Parse input = Err e -> ParseError e.
Proof.
  apply (C9_decoder_fails_soft "bad\q" in_hunk_state
           ("--- " +:+ dquote +:+ "a/bad\q" +:+ dquote) []);
    [vm_compute; reflexivity | discriminate | vm_compute; reflexivity].
Defined.

(** ** C10 *)

(** C10: every line that begins with ["--- "] or ["+++ "], other than the
    exact lines [--- /dev/null] and [+++ /dev/null], is taken by the case
    of the file name, whatever the state and also while a hunk is active:
    the iteration is the assignment of the decoded name to [OrigName]
    (respectively [NewName]) of the file at hand, and it leaves the hunks
    of all files as they are; the line is not added to a range. *)
Theorem C10_name_lines_in_hunk st l rest :
  strings.HasPrefix l oldFilePrefix = true
  \/ strings.HasPrefix l newFilePrefix = true ->
  l <> "--- /dev/null" -> l <> "+++ /dev/null" ->
  step st l rest =
    assign_file
      (if strings.HasPrefix l oldFilePrefix
       then set_OrigName
              (parseFileName (strings.TrimPrefix l oldFilePrefix))
       else set_NewName
              (parseFileName (strings.TrimPrefix l newFilePrefix)))
      (tick st)
  /\ forall st', step st l rest = Ok st' ->
       map Hunks (diff_Files st') = map Hunks (diff_Files st)
       /\ inHunk st' = inHunk st.
Proof.
  intros Hp Hno Hnn.
  assert (E : step st l rest =
    assign_file
      (if strings.HasPrefix l oldFilePrefix
       then set_OrigName
              (parseFileName (strings.TrimPrefix l oldFilePrefix))
       else set_NewName
              (parseFileName (strings.TrimPrefix l newFilePrefix)))
      (tick st)).
  { destruct (strings.HasPrefix l oldFilePrefix) eqn:Ho.
    - apply step_orig; assumption.
    - destruct Hp as [Hp|Hp]; [discriminate|]. apply step_newname; assumption. }
  split; [exact E|]. intros st' H. rewrite E in H.
  apply assign_file_Ok in H as (fs & f & Hf & ->).
  change (diff_Files (tick st)) with (diff_Files st) in Hf.
  cbn [diff_Files set_diff_Files tick inHunk]. rewrite Hf, !map_app.
  cbn [map]. split; [|reflexivity]. do 2 f_equal.
  destruct (strings.HasPrefix l oldFilePrefix); reflexivity.
Qed.

Lemma C10_witness :
  exists st',
    step in_hunk_state "--- a/other" [] = Ok st'
    /\ (OrigName <$> file_of st') = Some "other"
    /\ map Hunks (diff_Files st') = map Hunks (diff_Files in_hunk_state)
    /\ inHunk st' = true.
Proof.
  destruct (C10_name_lines_in_hunk in_hunk_state "--- a/other" [])
    as [E H]; [left; reflexivity | discriminate | discriminate |].
  destruct (step in_hunk_state "--- a/other" []) as [st'| |] eqn:Es;
    try (vm_compute in Es; discriminate Es).
  exists st'. split; [reflexivity|].
  destruct (H st' eq_refl) as [H1 H2].
  split; [|split; [exact H1 | exact H2]].
  vm_compute in Es. injection Es as <-. reflexivity.
Defined.

(** * Further properties of the package *)

(** ** The iteration, file by file *)

Lemma FileStep_not_diff l g :
  FileStep l g -> strings.HasPrefix l "diff " = false.
Proof.
  intros H.
  destruct (strings.HasPrefix l "diff ") eqn:E; [|reflexivity].
  pose proof (diff_not_hunk _ E) as Hh.
  assert (Hl : headerLine l = true) by (unfold headerLine; rewrite E; reflexivity).
  destruct H as [g Hg|hunk Hp _| |]; try congruence.
  apply HasPrefix_cons in E as (r & -> & _). inversion Hg; discriminate.
Qed.

Lemma Step_files st l rest st' :
  Step st l rest st' ->
  (strings.HasPrefix l "diff " = true
   /\ diff_Files st' = diff_Files st ++ [newFile l rest])
  \/ (exists g, FileStep l g
                /\ diff_Files st' = map_last g (diff_Files st)).
Proof.
  intros HS. destruct HS.
  - left. split; [assumption | reflexivity].
  - right. exists g. split; [apply FS_field; assumption|].
    simpl. rewrite H1, map_last_snoc. reflexivity.
  - right. exists (fun f0 => set_Hunks (Hunks f0 ++ [hunk]) f0).
    split; [apply FS_hunk; assumption|].
    simpl. rewrite H3, map_last_snoc. reflexivity.
  - right. eexists. split; [eapply (FS_line l m); eassumption|].
    simpl. rewrite H3, map_last_snoc. simpl. rewrite H4, map_last_snoc.
    reflexivity.
  - right. exists (fun f => f). split; [apply FS_skip; assumption|].
    simpl. rewrite map_last_id. reflexivity.
Qed.

(** A property of a file and of its section that every iteration keeps
    holds for every file of a parsed diff. *)
Lemma Parse_local (P : DiffFile -> list string -> Prop) :
  (forall l rest, strings.HasPrefix l "diff " = true ->
                  P (newFile l rest) [l]) ->
  (forall l g f sec, FileStep l g -> P f sec -> P (g f) (sec ++ [l])) ->
  forall s d, Parse s = Ok d ->
              Forall2 P (Files d) (sections (strings.Split s nl)).
Proof.
  intros Hnew Hstep s d HP.
  destruct (Parse_invariant
              (fun pre st => Forall2 P (diff_Files st) (sections pre))
              s d) as (st & E & H).
  - constructor.
  - intros pre l rest st st' _ HI HS. rewrite sections_snoc.
    destruct (Step_files _ _ _ _ HS) as [[Hd ->]|(g & Hg & ->)].
    + rewrite Hd. apply Forall2_app; [exact HI|].
      constructor; [apply Hnew, Hd | constructor].
    + rewrite (FileStep_not_diff _ _ Hg).
      apply Forall2_map_last; [exact HI|].
      intros f sec. apply Hstep, Hg.
  - exact HP.
  - rewrite E. exact H.
Qed.

Lemma map_last_length {A} (g : A -> A) (l : list A) :
  length (map_last g l) = length l.
Proof.
  induction l as [|x [|y l] IH]; simpl in *; try reflexivity.
  f_equal. exact IH.
Qed.

Lemma sections_length lines :
  length (sections lines) = length (filter (fun l => isDiffLine l = true) lines).
Proof.
  induction lines as [|l lines IH] using rev_ind; [reflexivity|].
  rewrite sections_snoc, filter_app, length_app, filter_cons, filter_nil.
  unfold isDiffLine in *.
  destruct (strings.HasPrefix l "diff ") eqn:E.
  - rewrite decide_True by reflexivity. rewrite length_app, IH. reflexivity.
  - rewrite decide_False by discriminate.
    rewrite map_last_length, IH. cbn [length]. lia.
Qed.

Lemma sections_subset lines sec l :
  sec ∈ sections lines -> l ∈ sec -> l ∈ lines.
Proof.
  revert sec. induction lines as [|x lines IH] using rev_ind; intros sec Hs Hl.
  - apply elem_of_nil in Hs. contradiction.
  - rewrite sections_snoc in Hs.
    destruct (strings.HasPrefix x "diff ").
    + apply elem_of_app in Hs as [Hs|Hs].
      * apply elem_of_app. left. eapply IH; eassumption.
      * apply list_elem_of_singleton in Hs. subst sec.
        apply elem_of_app. right. exact Hl.
    + destruct (sections lines) as [|s0 secs] eqn:Es using rev_ind.
      { apply elem_of_nil in Hs. contradiction. }
      clear IHsecs. rewrite map_last_snoc in Hs.
      apply elem_of_app in Hs as [Hs|Hs].
      * apply elem_of_app. left. apply (IH sec); [|exact Hl].
        apply elem_of_app. left. exact Hs.
      * apply list_elem_of_singleton in Hs. subst sec.
        apply elem_of_app in Hl as [Hl|Hl].
        -- apply elem_of_app. left. apply (IH s0); [|exact Hl].
           apply elem_of_app. right. apply list_elem_of_singleton. reflexivity.
        -- apply elem_of_app. right. exact Hl.
Qed.

Lemma Forall2_elem_l {A B} (P : A -> B -> Prop) l k x :
  Forall2 P l k -> x ∈ l -> exists y, y ∈ k /\ P x y.
Proof.
  intros H. induction H as [|a b l k Hab H IH]; intros Hx.
  - apply elem_of_nil in Hx. contradiction.
  - apply elem_of_cons in Hx as [->|Hx].
    + exists b. split; [apply list_elem_of_here | exact Hab].
    + destruct (IH Hx) as (y & Hy & HP). exists y.
      split; [apply list_elem_of_further, Hy | exact HP].
Qed.

(** ** The files are counted by their header lines *)

(** X1: a parsed diff has one file for every line that starts with
    ["diff "]. *)
Theorem files_count s d :
  Parse s = Ok d ->
  length (Files d)
  = length (filter (fun l => isDiffLine l = true) (strings.Split s nl)).
Proof.
  intros HP. rewrite <- sections_length.
  eapply Forall2_length, Parse_traced, HP.
Qed.

Lemma files_count_witness :
  exists d, Parse two_files = Ok d /\ length (Files d) = 2%nat.
Proof.
  destruct (Parse two_files) as [d|e|] eqn:E;
    try (vm_compute in E; discriminate E).
  exists d. split; [reflexivity|].
  rewrite (files_count two_files d E). vm_compute. reflexivity.
Defined.

(** ** The three ranges of a hunk *)

Lemma Forall_map_last {A} (P : A -> Prop) (g : A -> A) (l : list A) :
  Forall P l -> (forall x, P x -> P (g x)) -> Forall P (map_last g l).
Proof.
  intros H Hg. induction H as [|x l Hx Hl IH]; [constructor|].
  destruct l as [|y l].
  - constructor; [apply Hg, Hx | constructor].
  - change (Forall P (x :: map_last g (y :: l))).
    constructor; [exact Hx | exact IH].
Qed.

Lemma hunkOfHeader_whole l hunk :
  hunkOfHeader l = Ok hunk -> WholeRange hunk = zeroRange.
Proof.
  unfold hunkOfHeader.
  destruct (regexp.hunkHeaderReg_FindStringSubmatch l)
    as [[|m0 [|m1 [|m2 [|m3 [|m4 [|m5 [|]]]]]]]|]; try discriminate.
  intros H.
  apply bind_Ok in H as (a & Ha & H). apply bind_Ok in H as (b & Hb & H).
  apply bind_Ok in H as (c & Hc & H). apply bind_Ok in H as (d & Hd & H).
  injection H as <-. reflexivity.
Qed.

Lemma hunkConsistent_addToHunk m l pos n1 n2 h :
  hunkConsistent h ->
  hunkConsistent (addToHunk m (mkLine m l pos n1) (mkLine m l pos n2) h).
Proof.
  intros (Hn & Ho & Hs & Hl).
  destruct m; unfold hunkConsistent; simpl;
    rewrite !filter_app, !filter_cons, !filter_nil; simpl;
    repeat match goal with
           | |- context [decide ?P] => destruct (decide P); try congruence
           end;
    rewrite ?app_nil_r, ?map_app; simpl;
    rewrite ?Hn, ?Ho; auto.
Qed.

(** A property of a hunk that holds when the hunk is opened and that
    every content line keeps holds for every hunk of a parsed diff. *)
Lemma Parse_hunks (Q : DiffHunk -> Prop) :
  (forall l hunk, strings.HasPrefix l "@@ " = true ->
                  hunkOfHeader l = Ok hunk -> Q hunk) ->
  (forall m l pos n1 n2 h,
      headerLine l = false -> isSourceLine l = true -> lineMode l = Ok m ->
      Q h -> Q (addToHunk m (mkLine m l pos n1) (mkLine m l pos n2) h)) ->
  forall s d f h, Parse s = Ok d -> f ∈ Files d -> h ∈ Hunks f -> Q h.
Proof.
  intros Hnew Hline s d f h HP Hf Hh.
  assert (H : Forall2 (fun f (_ : list string) => Forall Q (Hunks f))
                (Files d) (sections (strings.Split s nl))).
  { apply Parse_local; [intros l rest _; constructor| |exact HP].
    intros l g f0 sec Hg IH.
    destruct Hg as [g Hg|hunk Hp Hhk|m pos n1 n2 H1 H2 H3|_].
    - rewrite (FieldUpdate_Hunks _ _ _ Hg). exact IH.
    - cbn [Hunks set_Hunks]. apply Forall_app. split; [exact IH|].
      apply Forall_singleton. eapply Hnew; eassumption.
    - cbn [Hunks set_Hunks]. apply Forall_map_last; [exact IH|].
      intros x. apply Hline; assumption.
    - exact IH. }
  destruct (Forall2_elem_l _ _ _ f H Hf) as (sec & _ & Hall).
  rewrite Forall_forall in Hall. apply Hall, Hh.
Qed.

Lemma Parse_consistent s d f h :
  Parse s = Ok d -> f ∈ Files d -> h ∈ Hunks f -> hunkConsistent h.
Proof.
  apply (Parse_hunks hunkConsistent).
  - intros l hunk _ Hhk.
    pose proof (hunkOfHeader_whole _ _ Hhk) as Hw.
    apply hunkOfHeader_Ok in Hhk as (L1 & L2 & L3 & _ & _).
    unfold hunkConsistent. rewrite L1, L2, L3, Hw. auto.
  - intros m l pos n1 n2 h0 _ _ _. apply hunkConsistent_addToHunk.
Qed.

(** X2: in every hunk of a parsed diff the new range holds exactly the
    lines of the whole range that are not removed; the original range
    holds those that are not added, with the same mode, content and
    position; and the whole range has start 0 and length 0. *)
Theorem ranges_consistent s d f h :
  Parse s = Ok d -> f ∈ Files d -> h ∈ Hunks f -> hunkConsistent h.
Proof. apply Parse_consistent. Qed.

Lemma ranges_consistent_witness :
  exists d f h,
    Parse file1_diff = Ok d /\ f ∈ Files d /\ h ∈ Hunks f
    /\ hunkConsistent h.
Proof.
  destruct (Parse file1_diff) as [d|e|] eqn:E; parse_eval E.
  eexists _, _, _. split; [reflexivity|].
  split; [apply list_elem_of_here|]. split; [apply list_elem_of_here|].
  eapply (ranges_consistent file1_diff);
    [exact E | apply list_elem_of_here | apply list_elem_of_here].
Defined.

(** ** The lines that are recorded *)

Lemma lineMode_Ok l m :
  lineMode l = Ok m -> l = String (modeChar m) (drop_str 1 l).
Proof.
  destruct l as [|c r]; [discriminate|]. simpl.
  destruct (Ascii.eqb c " ") eqn:E1.
  { intros H. injection H as <-. apply Ascii.eqb_eq in E1. subst c. reflexivity. }
  destruct (Ascii.eqb c "+") eqn:E2.
  { intros H. injection H as <-. apply Ascii.eqb_eq in E2. subst c. reflexivity. }
  destruct (Ascii.eqb c "-") eqn:E3; [|discriminate].
  intros H. injection H as <-. apply Ascii.eqb_eq in E3. subst c. reflexivity.
Qed.

Lemma isSourceLine_prefixes l :
  isSourceLine l = true ->
  strings.HasPrefix l "---" = false /\ strings.HasPrefix l "+++" = false
  /\ l <> EmptyString /\ l <> noNewline.
Proof.
  unfold isSourceLine. destruct (String.eqb l noNewline) eqn:En; [discriminate|].
  apply String.eqb_neq in En. intros H.
  assert (Hne : l <> EmptyString) by (intros ->; discriminate).
  repeat split; try assumption.
  - destruct l as [|a [|b [|c r]]]; simpl in *;
      repeat match goal with
             | |- context [Ascii.eqb ?x ?y] => destruct (Ascii.eqb x y)
             end; try reflexivity; discriminate.
  - destruct l as [|a [|b [|c r]]]; simpl in *;
      repeat match goal with
             | |- context [Ascii.eqb ?x ?y] => destruct (Ascii.eqb x y)
             end;
      repeat match goal with
             | H : context [Ascii.eqb ?x ?y] |- _ => destruct (Ascii.eqb x y)
             end; try reflexivity; discriminate.
Qed.

Lemma elem_of_flat_map {A B} (g : A -> list B) (l : list A) (y : B) :
  y ∈ flat_map g l <-> exists x, x ∈ l /\ y ∈ g x.
Proof.
  rewrite list_elem_of_In, in_flat_map. split; intros (x & H1 & H2); exists x.
  - rewrite !list_elem_of_In. auto.
  - rewrite !list_elem_of_In in *. auto.
Qed.

Lemma hunkLines_addToHunk m nl ol h dl :
  dl ∈ hunkLines (addToHunk m nl ol h) ->
  dl ∈ hunkLines h \/ dl = nl \/ dl = ol.
Proof.
  unfold hunkLines. destruct m; simpl; intros H;
    repeat (apply elem_of_app in H as [H|H]);
    try (apply list_elem_of_singleton in H; auto);
    left; repeat (apply elem_of_app; auto; right); auto.
Qed.

Lemma fileLines_map_last m nl ol hs dl :
  dl ∈ flat_map hunkLines (map_last (addToHunk m nl ol) hs) ->
  dl ∈ flat_map hunkLines hs \/ dl = nl \/ dl = ol.
Proof.
  destruct hs as [|h0 hs0] using rev_ind; [auto|]. clear IHhs0.
  rewrite map_last_snoc, !flat_map_app. simpl. rewrite !app_nil_r.
  intros H. apply elem_of_app in H as [H|H].
  - left. apply elem_of_app. auto.
  - apply hunkLines_addToHunk in H as [H|H]; [|auto].
    left. apply elem_of_app. auto.
Qed.

(** X3: every line recorded in a parsed diff is a line of the input: its
    mode character followed by its content is one of the lines of the
    text. No recorded line begins with [---] or [+++]: inside a hunk such
    a line is read as a file name or passed over, never as a removed or an
    added line. *)
Theorem recorded_lines s d f h dl :
  Parse s = Ok d -> f ∈ Files d -> h ∈ Hunks f -> dl ∈ hunkLines h ->
  physical dl ∈ strings.Split s nl
  /\ strings.HasPrefix (physical dl) "---" = false
  /\ strings.HasPrefix (physical dl) "+++" = false.
Proof.
  intros HP Hf Hh Hdl.
  assert (H : Forall2
                (fun f sec =>
                   forall dl, dl ∈ fileLines f ->
                     physical dl ∈ sec /\ isSourceLine (physical dl) = true)
                (Files d) (sections (strings.Split s nl))).
  { apply Parse_local; [| |exact HP].
    - intros l rest _ dl0 H0. apply elem_of_nil in H0. contradiction.
    - intros l g f0 sec Hg IH dl0.
      assert (Hold : dl0 ∈ fileLines f0 ->
                     physical dl0 ∈ sec ++ [l]
                     /\ isSourceLine (physical dl0) = true).
      { intros H0. destruct (IH dl0 H0) as [H1 H2].
        split; [apply elem_of_app; left; exact H1 | exact H2]. }
      destruct Hg as [g Hg|hunk Hp Hhk|m pos n1 n2 H1 H2 H3|_].
      + unfold fileLines. rewrite (FieldUpdate_Hunks _ _ _ Hg). exact Hold.
      + unfold fileLines. cbn [Hunks set_Hunks]. rewrite flat_map_app.
        intros H0. apply elem_of_app in H0 as [H0|H0]; [apply Hold, H0|].
        apply hunkOfHeader_Ok in Hhk as (L1 & L2 & L3 & _ & _).
        simpl in H0. unfold hunkLines in H0. rewrite L1, L2, L3 in H0.
        apply elem_of_nil in H0. contradiction.
      + unfold fileLines at 1. cbn [Hunks set_Hunks]. intros H0.
        apply fileLines_map_last in H0 as [H0|H0]; [apply Hold, H0|].
        assert (Hphys : physical dl0 = l).
        { destruct H0 as [-> | ->]; symmetry; apply (lineMode_Ok l m H3). }
        rewrite Hphys. split; [|exact H2].
        apply elem_of_app. right. apply list_elem_of_singleton. reflexivity.
      + exact Hold. }
  destruct (Forall2_elem_l _ _ _ f H Hf) as (sec & Hsec & Hall).
  destruct (Hall dl) as [H1 H2].
  { unfold fileLines. apply elem_of_flat_map. exists h. auto. }
  split; [eapply sections_subset; eassumption|].
  apply isSourceLine_prefixes in H2. tauto.
Qed.

Lemma recorded_lines_witness :
  exists d f h dl,
    Parse file1_diff = Ok d /\ f ∈ Files d /\ h ∈ Hunks f
    /\ dl ∈ hunkLines h /\ physical dl = " some"
    /\ physical dl ∈ strings.Split file1_diff nl.
Proof.
  destruct (Parse file1_diff) as [d|e|] eqn:E; parse_eval E.
  eexists _, _, _, _. split; [reflexivity|].
  split; [apply list_elem_of_here|]. split; [apply list_elem_of_here|].
  split; [apply list_elem_of_here|]. split; [reflexivity|].
  eapply (recorded_lines file1_diff);
    [exact E | apply list_elem_of_here | apply list_elem_of_here
    | apply list_elem_of_here].
Defined.

(** ** [Length] of a hunk *)

Lemma sections_length_le lines sec :
  sec ∈ sections lines -> (length sec <= length lines)%nat.
Proof.
  revert sec. induction lines as [|x lines IH] using rev_ind; intros sec Hs.
  - apply elem_of_nil in Hs. contradiction.
  - rewrite sections_snoc in Hs. rewrite length_app. simpl.
    destruct (strings.HasPrefix x "diff ").
    + apply elem_of_app in Hs as [Hs|Hs].
      * specialize (IH sec Hs). lia.
      * apply list_elem_of_singleton in Hs. subst sec. simpl. lia.
    + destruct (sections lines) as [|s0 secs] eqn:Es using rev_ind.
      { apply elem_of_nil in Hs. contradiction. }
      clear IHsecs. rewrite map_last_snoc in Hs.
      apply elem_of_app in Hs as [Hs|Hs].
      * assert (Hin : sec ∈ secs ++ [s0]) by (apply elem_of_app; auto).
        specialize (IH sec Hin). lia.
      * apply list_elem_of_singleton in Hs. subst sec.
        assert (Hin : s0 ∈ secs ++ [s0]).
        { apply elem_of_app. right. apply list_elem_of_singleton. reflexivity. }
        specialize (IH s0 Hin). rewrite length_app. simpl. lia.
Qed.

Lemma whole_map_last m nl ol hs :
  (length (flat_map (fun h => Lines (WholeRange h))
             (map_last (addToHunk m nl ol) hs))
   <= S (length (flat_map (fun h => Lines (WholeRange h)) hs)))%nat.
Proof.
  destruct hs as [|h0 hs0] using rev_ind; [simpl; lia|]. clear IHhs0.
  rewrite map_last_snoc, !flat_map_app, !length_app. simpl.
  rewrite !app_nil_r, WholeRange_addToHunk, length_app. simpl. lia.
Qed.

Lemma whole_bound s d f h :
  Parse s = Ok d -> f ∈ Files d -> h ∈ Hunks f ->
  (length (Lines (WholeRange h)) + 1 <= S (String.length s))%nat.
Proof.
  intros HP Hf Hh.
  assert (H : Forall2
                (fun f sec =>
                   (length (flat_map (fun h => Lines (WholeRange h)) (Hunks f))
                    + 1 <= length sec)%nat)
                (Files d) (sections (strings.Split s nl))).
  { apply Parse_local; [| |exact HP].
    - intros l rest _. simpl. lia.
    - intros l g f0 sec Hg IH. rewrite length_app. simpl.
      destruct Hg as [g Hg|hunk Hp Hhk|m pos n1 n2 H1 H2 H3|_].
      + rewrite (FieldUpdate_Hunks _ _ _ Hg). lia.
      + cbn [Hunks set_Hunks]. rewrite flat_map_app, length_app. simpl.
        apply hunkOfHeader_Ok in Hhk as (_ & _ & L3 & _ & _).
        rewrite L3. simpl. lia.
      + cbn [Hunks set_Hunks].
        pose proof (whole_map_last m (mkLine m l pos n1) (mkLine m l pos n2)
                      (Hunks f0)). lia.
      + lia. }
  destruct (Forall2_elem_l _ _ _ f H Hf) as (sec & Hsec & Hle).
  apply sections_length_le in Hsec.
  pose proof (Split_length s nl) as Hsp.
  apply list_elem_of_split in Hh as (hs1 & hs2 & E).
  rewrite E, flat_map_app, length_app in Hle. simpl in Hle.
  rewrite length_app in Hle. lia.
Qed.

Lemma filter_mode_split (l : list DiffLine) (m : DiffLineMode) :
  length l
  = (length (filter (fun dl => LMode dl <> m) l)
     + length (filter (fun dl => LMode dl = m) l))%nat.
Proof.
  induction l as [|dl l IH]; [reflexivity|].
  rewrite !filter_cons.
  destruct (decide (LMode dl <> m)) as [Hn|Hn];
    destruct (decide (LMode dl = m)) as [He|He]; simpl; try lia.
  - contradiction.
  - exfalso. apply Hn. exact He.
Qed.

Lemma removed_count_core (l1 : list DiffLine) :
  forall l2, map lineCore l1 = map lineCore l2 ->
  length (filter (fun dl => LMode dl = DiffLineModeRemoved) l1)
  = length (filter (fun dl => LMode dl = DiffLineModeRemoved) l2).
Proof.
  induction l1 as [|a l1 IH]; intros [|b l2] H; try discriminate; [reflexivity|].
  simpl in H. injection H as Hm _ _ Ht. rewrite !filter_cons.
  destruct (decide (LMode a = DiffLineModeRemoved)) as [Ha|Ha];
    destruct (decide (LMode b = DiffLineModeRemoved)) as [Hb|Hb];
    simpl; try congruence; rewrite (IH l2 Ht); reflexivity.
Qed.

Lemma removed_count_not_added (l : list DiffLine) :
  length (filter (fun dl => LMode dl = DiffLineModeRemoved)
            (filter (fun dl => LMode dl <> DiffLineModeAdded) l))
  = length (filter (fun dl => LMode dl = DiffLineModeRemoved) l).
Proof.
  induction l as [|dl l IH]; [reflexivity|].
  rewrite !filter_cons.
  destruct (decide (LMode dl <> DiffLineModeAdded)) as [Hn|Hn];
    rewrite ?filter_cons;
    destruct (decide (LMode dl = DiffLineModeRemoved)) as [He|He];
    simpl; try congruence.
  exfalso. apply Hn. rewrite He. discriminate.
Qed.

(** X4: for a hunk of a parsed diff (of an input shorter than the largest
    [int]), [Length] is one more than the number of its content lines:
    the lines of the new range, the removed lines of the original range,
    and the header. *)
Theorem hunk_Length s d f h :
  Parse s = Ok d -> len s < maxInt -> f ∈ Files d -> h ∈ Hunks f ->
  DiffHunk_Length h
  = Z.of_nat (length (Lines (NewRange h)))
    + Z.of_nat (length (filter (fun dl => LMode dl = DiffLineModeRemoved)
                               (Lines (OrigRange h))))
    + 1.
Proof.
  intros HP Hlen Hf Hh.
  pose proof (whole_bound s d f h HP Hf Hh) as Hb.
  destruct (Parse_consistent s d f h HP Hf Hh) as (Hn & Ho & _ & _).
  unfold DiffHunk_Length. rewrite wrap_small.
  2:{ unfold minInt. unfold len in Hlen. lia. }
  rewrite (filter_mode_split (Lines (WholeRange h)) DiffLineModeRemoved).
  rewrite <- Hn, (removed_count_core _ _ Ho), removed_count_not_added. lia.
Qed.

Lemma hunk_Length_witness :
  exists d f h,
    Parse file1_diff = Ok d /\ f ∈ Files d /\ h ∈ Hunks f
    /\ DiffHunk_Length h = 6.
Proof.
  destruct (Parse file1_diff) as [d|e|] eqn:E; parse_eval E.
  eexists _, _, _. split; [reflexivity|].
  split; [apply list_elem_of_here|]. split; [apply list_elem_of_here|].
  erewrite (hunk_Length file1_diff);
    [reflexivity | exact E | vm_compute; reflexivity
    | apply list_elem_of_here | apply list_elem_of_here].
Defined.

(** ** Hunk headers *)

Lemma span_digits s d r :
  regexp.span is_digit s = (d, r) -> allDigits d = true /\ s = d +:+ r.
Proof.
  revert d r. induction s as [|c s IH]; intros d r H; simpl in H.
  - injection H as <- <-. split; reflexivity.
  - destruct (is_digit c) eqn:E.
    + destruct (regexp.span is_digit s) as [a b].
      injection H as <- <-. destruct (IH a b eq_refl) as [Ha Hs].
      split; [simpl; rewrite E, Ha; reflexivity|].
      simpl. rewrite Hs at 1. reflexivity.
    + injection H as <- <-. split; reflexivity.
Qed.

Lemma is_empty_false s : is_empty s = false -> s <> EmptyString.
Proof. destruct s; [discriminate|]. intros _. discriminate. Qed.

Lemma range_digits s d1 d2 r :
  regexp.range s = Some (d1, d2, r) ->
  allDigits d1 = true /\ d1 <> EmptyString /\ allDigits d2 = true.
Proof.
  unfold regexp.range.
  destruct (regexp.span is_digit s) as [a r1] eqn:E1.
  destruct (is_empty a) eqn:Ea; [discriminate|].
  destruct (regexp.span is_digit (regexp.opt_lit "," r1)) as [b r2] eqn:E2.
  intros H. injection H as <- <- <-.
  apply span_digits in E1 as [E1 _]. apply span_digits in E2 as [E2 _].
  split; [exact E1|]. split; [apply is_empty_false, Ea | exact E2].
Qed.

Lemma option_bind_Some {A B} (o : option A) (k : A -> option B) b :
  (o ≫= k) = Some b -> exists a, o = Some a /\ k a = Some b.
Proof. destruct o as [a|]; simpl; [eauto | discriminate]. Qed.

Lemma hunkHeaderReg_at_groups s m :
  regexp.hunkHeaderReg_at s = Some m ->
  exists m0 m1 m2 m3 m4 m5,
    m = [m0; m1; m2; m3; m4; m5]
    /\ allDigits m1 = true /\ m1 <> EmptyString /\ allDigits m2 = true
    /\ allDigits m3 = true /\ m3 <> EmptyString /\ allDigits m4 = true.
Proof.
  unfold regexp.hunkHeaderReg_at. intros H.
  apply option_bind_Some in H as (r0 & _ & H).
  apply option_bind_Some in H as ([[m1 m2] r1] & H1 & H).
  apply option_bind_Some in H as (r2 & _ & H).
  apply option_bind_Some in H as ([[m3 m4] r3] & H3 & H).
  apply option_bind_Some in H as (r4 & _ & H).
  destruct (regexp.span regexp.dot (regexp.opt_lit " " r4)) as [m5 r5].
  injection H as <-.
  apply range_digits in H1 as (A1 & A2 & A3).
  apply range_digits in H3 as (B1 & B2 & B3).
  eexists _, m1, m2, m3, m4, m5. repeat split; assumption.
Qed.

Lemma FindStringSubmatch_groups s m :
  regexp.hunkHeaderReg_FindStringSubmatch s = Some m ->
  exists m0 m1 m2 m3 m4 m5,
    m = [m0; m1; m2; m3; m4; m5]
    /\ allDigits m1 = true /\ m1 <> EmptyString /\ allDigits m2 = true
    /\ allDigits m3 = true /\ m3 <> EmptyString /\ allDigits m4 = true.
Proof.
  assert (Heq : forall s,
             regexp.hunkHeaderReg_FindStringSubmatch s
             = match regexp.hunkHeaderReg_at s with
               | Some m => Some m
               | None =>
                   match s with
                   | EmptyString => None
                   | String _ s' => regexp.hunkHeaderReg_FindStringSubmatch s'
                   end
               end) by (intros [|? ?]; reflexivity).
  induction s as [|c s IH]; rewrite Heq;
    destruct (regexp.hunkHeaderReg_at _) as [m'|] eqn:E.
  - intros H. injection H as <-. eapply hunkHeaderReg_at_groups, E.
  - discriminate.
  - intros H. injection H as <-. eapply hunkHeaderReg_at_groups, E.
  - exact IH.
Qed.

Lemma digits_val_digits d :
  allDigits d = true ->
  forall acc, 0 <= acc ->
    exists v, strconv.digits_val acc d = Some v /\ 0 <= v.
Proof.
  induction d as [|c d IH]; intros H acc Hacc; simpl in *.
  - eauto.
  - apply andb_true_iff in H as [Hc Hd]. rewrite Hc.
    apply IH; [exact Hd|].
    unfold is_digit in Hc. apply andb_true_iff in Hc as [H1 H2].
    apply Z.leb_le in H1, H2. lia.
Qed.

Lemma digit_not_sign c r :
  is_digit c = true ->
  match String c r with
  | String "-"%char r' => (true, r')
  | String "+"%char r' => (false, r')
  | _ => (false, String c r)
  end = (false, String c r).
Proof.
  destruct c as [[] [] [] [] [] [] [] []]; intros H;
    try reflexivity; vm_compute in H; discriminate.
Qed.

(** [strconv.Atoi] on a string of digits: its value, or a range error. *)
Lemma Atoi_digits d :
  allDigits d = true -> d <> EmptyString ->
  exists v,
    strconv.digits_val 0 d = Some v /\ 0 <= v
    /\ strconv.Atoi d
       = if maxInt <? v
         then (maxInt, Some (NumError "Atoi" d ErrRange))
         else (v, None).
Proof.
  intros Hd Hne.
  destruct (digits_val_digits d Hd 0 (Z.le_refl 0)) as (v & Hv & Hv0).
  exists v. split; [exact Hv|]. split; [exact Hv0|].
  destruct d as [|c r]; [contradiction|].
  unfold strconv.Atoi.
  rewrite (digit_not_sign c r) by (simpl in Hd; apply andb_true_iff in Hd; tauto).
  cbn [is_empty]. rewrite Hv.
  destruct (maxInt <? v); [reflexivity|].
  replace (v <? minInt) with false; [reflexivity|].
  symmetry. apply Z.ltb_ge. unfold minInt. lia.
Qed.

Lemma atoi_digits_Ok d n :
  allDigits d = true -> d <> EmptyString -> atoi d = Ok n ->
  0 <= n <= maxInt /\ strconv.digits_val 0 d = Some n.
Proof.
  intros Hd Hne. destruct (Atoi_digits d Hd Hne) as (v & Hv & Hv0 & E).
  unfold atoi. rewrite E. destruct (maxInt <? v) eqn:El; [discriminate|].
  intros H. injection H as <-. apply Z.ltb_ge in El. auto.
Qed.

Lemma atoi_digits_Err d e :
  allDigits d = true -> d <> EmptyString -> atoi d = Err e ->
  e = NumError "Atoi" d ErrRange.
Proof.
  intros Hd Hne. destruct (Atoi_digits d Hd Hne) as (v & Hv & Hv0 & E).
  unfold atoi. rewrite E. destruct (maxInt <? v); [|discriminate].
  intros H. injection H as <-. reflexivity.
Qed.

Lemma len_pos s : (0 <? len s) = true -> s <> EmptyString.
Proof. destruct s; [discriminate|]. intros _. discriminate. Qed.

Lemma hunkOfHeader_bounds l hunk :
  hunkOfHeader l = Ok hunk ->
  0 <= Start (OrigRange hunk) <= maxInt
  /\ 0 <= Length (OrigRange hunk) <= maxInt
  /\ 0 <= Start (NewRange hunk) <= maxInt
  /\ 0 <= Length (NewRange hunk) <= maxInt.
Proof.
  unfold hunkOfHeader.
  destruct (regexp.hunkHeaderReg_FindStringSubmatch l) as [m|] eqn:Em;
    [|discriminate].
  destruct (FindStringSubmatch_groups _ _ Em)
    as (m0 & m1 & m2 & m3 & m4 & m5 & -> & A1 & A2 & A3 & B1 & B2 & B3).
  intros H.
  apply bind_Ok in H as (a & Ha & H). apply bind_Ok in H as (b & Hb & H).
  apply bind_Ok in H as (c & Hc & H). apply bind_Ok in H as (d & Hd & H).
  injection H as <-. simpl.
  apply atoi_digits_Ok in Ha as [Ha _]; [|assumption..].
  apply atoi_digits_Ok in Hc as [Hc _]; [|assumption..].
  assert (Hb' : 0 <= b <= maxInt).
  { destruct (0 <? len m2) eqn:E2.
    - apply atoi_digits_Ok in Hb as [Hb _]; [exact Hb|exact A3|].
      apply len_pos, E2.
    - injection Hb as <-. exact Ha. }
  assert (Hd' : 0 <= d <= maxInt).
  { destruct (0 <? len m4) eqn:E4.
    - apply atoi_digits_Ok in Hd as [Hd _]; [exact Hd|exact B3|].
      apply len_pos, E4.
    - injection Hd as <-. exact Hc. }
  auto.
Qed.

(** X5: in a parsed diff the start and the length of both ranges of every
    hunk are numbers between 0 and the largest [int]: the header holds no
    sign, and a number that is too large is an error. *)
Theorem ranges_not_negative s d f h :
  Parse s = Ok d -> f ∈ Files d -> h ∈ Hunks f ->
  0 <= Start (OrigRange h) <= maxInt
  /\ 0 <= Length (OrigRange h) <= maxInt
  /\ 0 <= Start (NewRange h) <= maxInt
  /\ 0 <= Length (NewRange h) <= maxInt.
Proof.
  apply (Parse_hunks
           (fun h => 0 <= Start (OrigRange h) <= maxInt
                     /\ 0 <= Length (OrigRange h) <= maxInt
                     /\ 0 <= Start (NewRange h) <= maxInt
                     /\ 0 <= Length (NewRange h) <= maxInt)).
  - intros l hunk _. apply hunkOfHeader_bounds.
  - intros m l pos n1 n2 h0 _ _ _ H. destruct m; exact H.
Qed.

Lemma ranges_not_negative_witness :
  exists d f h,
    Parse omitted_counts = Ok d /\ f ∈ Files d /\ h ∈ Hunks f
    /\ 0 <= Start (OrigRange h) <= maxInt
    /\ 0 <= Length (OrigRange h) <= maxInt
    /\ 0 <= Start (NewRange h) <= maxInt
    /\ 0 <= Length (NewRange h) <= maxInt.
Proof.
  destruct (Parse omitted_counts) as [d|e|] eqn:E; parse_eval E.
  eexists _, _, _. split; [reflexivity|].
  split; [apply list_elem_of_here|]. split; [apply list_elem_of_here|].
  eapply (ranges_not_negative omitted_counts);
    [exact E | apply list_elem_of_here | apply list_elem_of_here].
Defined.

(** ** The nil pointer *)

Lemma Step_pointers st l rest st' :
  Step st l rest st' ->
  strings.HasPrefix l "diff " = true \/ pointersSet st ->
  pointersSet st'.
Proof.
  intros HS HP.
  destruct HS as [Hd | g fs f Hd Hg Hf | hunk fs f _ Hd _ _ Hf
                 | m fs f hs h _ _ _ _ Hf Hh | Hh _].
  - eexists _, _. split; [reflexivity|]. discriminate.
  - destruct HP as [HP | (fs' & f' & Hf' & Hin)]; [congruence|].
    rewrite Hf in Hf'. apply app_inj_tail in Hf' as [<- <-].
    exists fs, (g f). split; [reflexivity|].
    rewrite (FieldUpdate_Hunks _ _ f Hg). exact Hin.
  - eexists _, _. split; [reflexivity|]. intros _. simpl.
    destruct (Hunks f); discriminate.
  - eexists _, _. split; [reflexivity|]. intros _. simpl.
    destruct hs; discriminate.
  - destruct HP as [HP | (fs & f & Hf & Hin)].
    + apply headerLine_diff in Hh. congruence.
    + exists fs, f. split; assumption.
Qed.

Lemma lineMode_no_Panic l : isSourceLine l = true -> lineMode l <> Panic.
Proof.
  destruct l as [|c r]; [discriminate|]. intros _. simpl.
  repeat (destruct (Ascii.eqb c _); [discriminate|]). discriminate.
Qed.

Lemma atoi_no_Panic s : atoi s <> Panic.
Proof. unfold atoi. destruct (strconv.Atoi s) as [n [e|]]; discriminate. Qed.

Lemma bind_Panic {A B} (r : result A) (k : A -> result B) :
  (r ≫= k) = Panic -> r = Panic \/ exists a, r = Ok a /\ k a = Panic.
Proof.
  destruct r as [a|e'|]; simpl; intros H;
    [right; eauto | discriminate | left; reflexivity].
Qed.

Lemma hunkOfHeader_no_Panic l : hunkOfHeader l <> Panic.
Proof.
  unfold hunkOfHeader.
  destruct (regexp.hunkHeaderReg_FindStringSubmatch l)
    as [[|m0 [|m1 [|m2 [|m3 [|m4 [|m5 [|]]]]]]]|]; try discriminate.
  intros H.
  apply bind_Panic in H as [H|(a & _ & H)]; [eapply atoi_no_Panic, H|].
  apply bind_Panic in H as [H|(b & _ & H)].
  { destruct (0 <? len m2); [eapply atoi_no_Panic, H | discriminate]. }
  apply bind_Panic in H as [H|(c & _ & H)]; [eapply atoi_no_Panic, H|].
  apply bind_Panic in H as [H|(d & _ & H)]; [|discriminate].
  destruct (0 <? len m4); [eapply atoi_no_Panic, H | discriminate].
Qed.

Lemma assign_file_no_Panic g st fs f :
  diff_Files st = fs ++ [f] -> assign_file g st <> Panic.
Proof. intros H. rewrite (assign_file_snoc _ _ _ _ H). discriminate. Qed.

(** Once [file] points to a file no iteration panics. *)
Lemma step_no_Panic st l rest :
  pointersSet st -> step st l rest <> Panic.
Proof.
  intros (fs & f & Hf & Hin).
  assert (Hft : diff_Files (tick st) = fs ++ [f]) by exact Hf.
  destruct (headerLine l) eqn:Hh.
  2:{ rewrite (step_noheader _ _ _ Hh).
      destruct (inHunk st && isSourceLine l) eqn:Hc; [|discriminate].
      apply andb_true_iff in Hc as [Hi Hs]. specialize (Hin Hi).
      intros H. apply bind_Panic in H as [H|(m & _ & H)].
      - eapply lineMode_no_Panic; eassumption.
      - unfold addLine in H. apply bind_Panic in H as [H|(st1 & _ & H)];
          [|discriminate].
        unfold assign_hunk in H. rewrite (file_of_snoc _ _ _ Hft) in H.
        destruct (last (Hunks f)) eqn:El.
        + eapply assign_file_no_Panic, H. exact Hft.
        + apply last_None in El. contradiction. }
  unfold step.
  destruct (strings.HasPrefix l "diff "); [discriminate|].
  repeat match goal with
         | |- (if ?c then assign_file ?g ?s else _) <> Panic =>
             destruct c; [eapply assign_file_no_Panic, Hft|]
         end.
  destruct (strings.HasPrefix l binaryPrefix).
  { rewrite (assign_file_snoc _ _ _ _ Hft), bind_ret.
    destruct (strings.Split _ _) as [|n0 [|n1 [|]]]; try discriminate.
    eapply assign_file_no_Panic. reflexivity. }
  destruct (strings.HasPrefix l "@@ ").
  { intros H. apply bind_Panic in H as [H|(st1 & H1 & H)].
    - eapply assign_file_no_Panic in H; [exact H | exact Hft].
    - apply assign_file_Ok in H1 as (fs1 & f1 & Hf1 & ->).
      apply bind_Panic in H as [H|(hunk & _ & H)];
        [eapply hunkOfHeader_no_Panic, H|].
      apply bind_Panic in H as [H|(st2 & _ & H)]; [|discriminate].
      eapply assign_file_no_Panic in H; [exact H | reflexivity]. }
  unfold headerLine in Hh. intros H.
  destruct (inHunk (tick st) && isSourceLine l) eqn:Hc; [|discriminate].
  apply andb_true_iff in Hc as [Hi Hs]. specialize (Hin Hi).
  apply bind_Panic in H as [H|(m & _ & H)];
    [eapply lineMode_no_Panic; eassumption|].
  unfold addLine in H. apply bind_Panic in H as [H|(st1 & _ & H)];
    [|discriminate].
  unfold assign_hunk in H. rewrite (file_of_snoc _ _ _ Hft) in H.
  destruct (last (Hunks f)) eqn:El.
  - eapply assign_file_no_Panic, H. exact Hft.
  - apply last_None in El. contradiction.
Qed.

Lemma loop_no_Panic lines :
  forall st, pointersSet st -> loop st lines <> Panic.
Proof.
  induction lines as [|l rest IH]; intros st HP; [discriminate|].
  simpl. intros H. apply bind_Panic in H as [H|(st1 & H1 & H)].
  - eapply step_no_Panic; eassumption.
  - apply (IH st1); [|exact H].
    eapply Step_pointers; [apply step_sound, H1 | right; exact HP].
Qed.

(** Before the first ["diff "] line: a header line panics, every other
    line is passed over. *)
Lemma step_before st l rest :
  diff_Files st = [] -> inHunk st = false ->
  strings.HasPrefix l "diff " = false ->
  step st l rest = if headerLine l then Panic else Ok (tick st).
Proof.
  intros Hnil Hin Hd.
  assert (Hnt : diff_Files (tick st) = []) by exact Hnil.
  destruct (headerLine l) eqn:Hh.
  2:{ rewrite (step_noheader _ _ _ Hh), Hin. reflexivity. }
  unfold step. rewrite Hd.
  repeat match goal with
         | |- (if ?c then assign_file ?g ?s else _) = Panic =>
             destruct c eqn:?; [apply assign_file_nil, Hnt|]
         end.
  destruct (strings.HasPrefix l binaryPrefix) eqn:Hb.
  { rewrite (assign_file_nil _ _ Hnt). reflexivity. }
  destruct (strings.HasPrefix l "@@ ") eqn:Hk.
  { rewrite assign_file_nil by exact Hnt. reflexivity. }
  exfalso. revert Hh. unfold headerLine. rewrite Hd, Hb, Hk.
  repeat match goal with
         | H : ?c = false |- context [?c] => rewrite H
         end.
  discriminate.
Qed.

Lemma loop_before_Panic lines :
  forall st,
    diff_Files st = [] -> inHunk st = false ->
    loop st lines = Panic ->
    exists pre l post,
      lines = pre ++ l :: post
      /\ Forall (fun x => isDiffLine x = false) pre
      /\ isDiffLine l = false /\ headerLine l = true.
Proof.
  induction lines as [|l rest IH]; intros st Hnil Hin H; [discriminate|].
  cbn [loop] in H.
  destruct (isDiffLine l) eqn:Hd.
  - apply bind_Panic in H as [H|(st1 & H1 & H)].
    + unfold step in H. unfold isDiffLine in Hd. rewrite Hd in H.
      discriminate.
    + exfalso. eapply loop_no_Panic; [|exact H].
      eapply Step_pointers; [apply step_sound, H1 | left; exact Hd].
  - rewrite (step_before st l rest Hnil Hin Hd) in H.
    destruct (headerLine l) eqn:Hh.
    + exists [], l, rest.
      split; [reflexivity|]. split; [constructor|]. split; [exact Hd|].
      exact Hh.
    + rewrite bind_ret in H.
      apply IH in H as (pre & x & post & -> & Hpre & Hx & Hhx);
        [|exact Hnil | exact Hin].
      exists (l :: pre), x, post.
      split; [reflexivity|]. split; [constructor; assumption|].
      split; assumption.
Qed.

Lemma loop_header_Panic pre :
  forall st l post,
    diff_Files st = [] -> inHunk st = false ->
    Forall (fun x => isDiffLine x = false) pre ->
    isDiffLine l = false -> headerLine l = true ->
    loop st (pre ++ l :: post) = Panic.
Proof.
  induction pre as [|x pre IH]; intros st l post Hnil Hin Hpre Hd Hh.
  - cbn [app loop]. rewrite (step_before st l post Hnil Hin Hd), Hh.
    reflexivity.
  - apply Forall_cons in Hpre as [Hx Hpre].
    cbn [app loop]. rewrite (step_before st x _ Hnil Hin Hx).
    destruct (headerLine x); [reflexivity|].
    rewrite bind_ret. apply IH; assumption.
Qed.

(** X6: [Parse] panics (it dereferences the nil [file]) exactly when a
    line that one of the header cases of the switch takes, other than a
    ["diff "] line, comes before the first ["diff "] line of the input;
    no other input makes it panic. *)
Theorem Parse_panics s :
  Parse s = Panic <->
  exists pre l post,
    strings.Split s nl = pre ++ l :: post
    /\ Forall (fun x => isDiffLine x = false) pre
    /\ isDiffLine l = false /\ headerLine l = true.
Proof.
  unfold Parse. split.
  - intros H. apply bind_Panic in H as [H|(st & _ & H)]; [|discriminate].
    apply (loop_before_Panic _ init); [reflexivity | reflexivity | exact H].
  - intros (pre & l & post & -> & Hpre & Hd & Hh).
    rewrite (loop_header_Panic pre init l post); try assumption; reflexivity.
Qed.

(** ** Where the errors come from *)

Lemma hunkOfHeader_Err_origin l e :
  hunkOfHeader l = Err e ->
  e = ErrorString ("Error parsing line: " +:+ l)
  \/ exists num, allDigits num = true /\ e = NumError "Atoi" num ErrRange.
Proof.
  unfold hunkOfHeader.
  destruct (regexp.hunkHeaderReg_FindStringSubmatch l) as [m|] eqn:Em.
  2:{ intros H. injection H as <-. left. reflexivity. }
  destruct (FindStringSubmatch_groups _ _ Em)
    as (m0 & m1 & m2 & m3 & m4 & m5 & -> & A1 & A2 & A3 & B1 & B2 & B3).
  intros H. right.
  apply bind_Err in H as [H|(a & _ & H)].
  { exists m1. split; [exact A1|]. eapply atoi_digits_Err; eassumption. }
  apply bind_Err in H as [H|(b & _ & H)].
  { destruct (0 <? len m2) eqn:E2; [|discriminate].
    exists m2. split; [exact A3|].
    eapply atoi_digits_Err; [exact A3 | apply len_pos, E2 | exact H]. }
  apply bind_Err in H as [H|(c & _ & H)].
  { exists m3. split; [exact B1|]. eapply atoi_digits_Err; eassumption. }
  apply bind_Err in H as [H|(d & _ & H)]; [|discriminate].
  destruct (0 <? len m4) eqn:E4; [|discriminate].
  exists m4. split; [exact B3|].
  eapply atoi_digits_Err; [exact B3 | apply len_pos, E4 | exact H].
Qed.

Lemma lineMode_Err_origin l e :
  lineMode l = Err e ->
  e = ErrorString
        ("could not parse line mode for line: " +:+ dquote +:+ l +:+ dquote).
Proof.
  destruct l as [|c r]; [discriminate|]. cbn [lineMode].
  repeat (destruct (Ascii.eqb c _); [discriminate|]).
  intros H. injection H as <-. reflexivity.
Qed.

(** The three places of an iteration that return an error. *)
Lemma step_Err_origin st l rest e :
  step st l rest = Err e ->
  (strings.HasPrefix l binaryPrefix = true
   /\ e = ErrorString "invalid binary diff"
   /\ forall name0 name1, binaryNames l <> [name0; name1])
  \/ (isHunkLine l = true /\ hunkOfHeader l = Err e)
  \/ (headerLine l = false /\ inHunk st = true /\ isSourceLine l = true
      /\ lineMode l = Err e).
Proof.
  destruct (headerLine l) eqn:Hh.
  2:{ rewrite (step_noheader _ _ _ Hh).
      destruct (inHunk st && isSourceLine l) eqn:Hc; [|discriminate].
      apply andb_true_iff in Hc as [Hi Hs].
      intros H. apply bind_Err in H as [H|(m & _ & H)].
      - right. right. auto.
      - unfold addLine in H. apply bind_Err in H as [H|(st1 & _ & H)].
        + apply assign_hunk_no_Err in H. contradiction.
        + discriminate. }
  unfold step.
  destruct (strings.HasPrefix l "diff ") eqn:Hd; [discriminate|].
  repeat match goal with
         | |- (if ?c then assign_file ?g ?s else _) = Err e -> _ =>
             destruct c eqn:?;
             [intros H; apply assign_file_no_Err in H; contradiction|]
         end.
  destruct (strings.HasPrefix l binaryPrefix) eqn:Hb.
  { intros H. left. split; [reflexivity|].
    apply bind_Err in H as [H|(st1 & _ & H)].
    - apply assign_file_no_Err in H. contradiction.
    - unfold binaryNames. revert H.
      destruct (strings.Split _ _) as [|n0 [|n1 [|]]]; intros H;
        try (injection H as <-; split; [reflexivity | discriminate]).
      apply assign_file_no_Err in H. contradiction. }
  destruct (strings.HasPrefix l "@@ ") eqn:Hk.
  { intros H. right. left. split; [exact Hk|].
    apply bind_Err in H as [H|(st1 & _ & H)].
    - apply assign_file_no_Err in H. contradiction.
    - apply bind_Err in H as [H|(hunk & _ & H)]; [exact H|].
      apply bind_Err in H as [H|(st2 & _ & H)]; [|discriminate].
      apply assign_file_no_Err in H. contradiction. }
  exfalso. revert Hh. unfold headerLine. rewrite Hd, Hb, Hk.
  repeat match goal with
         | H : ?c = false |- context [?c] => rewrite H
         end.
  discriminate.
Qed.

(** The first iteration that fails. *)
Lemma loop_Err_split lines :
  forall st e,
    loop st lines = Err e ->
    exists pre l post st1,
      lines = pre ++ l :: post
      /\ loop_upto st pre (l :: post) = Ok st1
      /\ step st1 l post = Err e.
Proof.
  induction lines as [|l rest IH]; intros st e H; [discriminate|].
  cbn [loop] in H. apply bind_Err in H as [H|(st1 & H1 & H)].
  - exists [], l, rest, st. split; [reflexivity|]. split; [reflexivity|].
    exact H.
  - apply IH in H as (pre & x & post & st2 & -> & Hrun & Hx).
    exists (l :: pre), x, post, st2. split; [reflexivity|].
    split; [|exact Hx]. cbn [loop_upto]. rewrite H1, bind_ret. exact Hrun.
Qed.

Lemma Step_inHunk st l rest st' :
  Step st l rest st' -> inHunk st' = true ->
  isHunkLine l = true \/ inHunk st = true.
Proof.
  intros HS. destruct HS; cbn; intros Hi; try discriminate; auto.
Qed.

Lemma loop_upto_inHunk pre :
  forall st tail st1,
    loop_upto st pre tail = Ok st1 -> inHunk st1 = true ->
    inHunk st = true \/ exists hl, hl ∈ pre /\ isHunkLine hl = true.
Proof.
  induction pre as [|l pre IH]; intros st tail st1 H Hi.
  - injection H as <-. left. exact Hi.
  - cbn [loop_upto] in H. apply bind_Ok in H as (st2 & H2 & H).
    destruct (IH _ _ _ H Hi) as [Hi2 | (hl & Hhl & Hk)].
    + apply step_sound in H2.
      destruct (Step_inHunk _ _ _ _ H2 Hi2) as [Hk | Hst]; [|left; exact Hst].
      right. exists l. split; [apply list_elem_of_here | exact Hk].
    + right. exists hl. split; [apply list_elem_of_further, Hhl | exact Hk].
Qed.

(** X7: every error that [Parse] returns comes from one of three lines:
    a ["Binary files "] line that does not name two files, a ["@@ "] line
    that the hunk header expression does not match or one of whose
    numbers is too large for an [int] (no other numeric error occurs),
    or a line after a ["@@ "] line that is a source line and begins with
    none of [' '], ['+'] and ['-']. The lines before it were read without
    an error. *)
Theorem Parse_error_origin s e :
  Parse s = Err e ->
  exists pre l post,
    strings.Split s nl = pre ++ l :: post
    /\ (exists st, loop_upto init pre (l :: post) = Ok st)
    /\ ((strings.HasPrefix l binaryPrefix = true
         /\ (forall name0 name1, binaryNames l <> [name0; name1])
         /\ e = ErrorString "invalid binary diff")
        \/ (isHunkLine l = true
            /\ (e = ErrorString ("Error parsing line: " +:+ l)
                \/ exists num, allDigits num = true
                               /\ e = NumError "Atoi" num ErrRange))
        \/ (headerLine l = false /\ isSourceLine l = true
            /\ (exists hl, hl ∈ pre /\ isHunkLine hl = true)
            /\ e = ErrorString
                     ("could not parse line mode for line: " +:+ dquote
                      +:+ l +:+ dquote))).
Proof.
  unfold Parse. intros H. apply bind_Err in H as [H|(st & _ & H)];
    [|discriminate].
  apply loop_Err_split in H as (pre & l & post & st1 & Hs & Hrun & Hstep).
  exists pre, l, post. split; [exact Hs|]. split; [eauto|].
  apply step_Err_origin in Hstep
    as [(Hb & He & Hn) | [[Hk He] | (Hh & Hi & Hsrc & He)]].
  - left. auto.
  - right. left. split; [exact Hk|]. apply hunkOfHeader_Err_origin, He.
  - right. right. split; [exact Hh|]. split; [exact Hsrc|].
    split; [|apply lineMode_Err_origin, He].
    destruct (loop_upto_inHunk _ _ _ _ Hrun Hi) as [Hinit | Hex];
      [discriminate | exact Hex].
Qed.

Lemma Parse_error_origin_witness :
  exists e,
    Parse garbage_in_hunk = Err e
    /\ exists pre l post,
         strings.Split garbage_in_hunk nl = pre ++ l :: post
         /\ (exists st, loop_upto init pre (l :: post) = Ok st)
         /\ ((strings.HasPrefix l binaryPrefix = true
              /\ (forall name0 name1, binaryNames l <> [name0; name1])
              /\ e = ErrorString "invalid binary diff")
             \/ (isHunkLine l = true
                 /\ (e = ErrorString ("Error parsing line: " +:+ l)
                     \/ exists num, allDigits num = true
                                    /\ e = NumError "Atoi" num ErrRange))
             \/ (headerLine l = false /\ isSourceLine l = true
                 /\ (exists hl, hl ∈ pre /\ isHunkLine hl = true)
                 /\ e = ErrorString
                          ("could not parse line mode for line: " +:+ dquote
                           +:+ l +:+ dquote))).
Proof.
  eexists. split; [vm_compute; reflexivity|].
  apply (Parse_error_origin garbage_in_hunk). vm_compute. reflexivity.
Defined.

(** ** A hunk header in full *)

Lemma HasPrefix_app p x : strings.HasPrefix (p +:+ x) p = true.
Proof.
  induction p as [|c p IH]; [reflexivity|].
  change (String c p +:+ x) with (String c (p +:+ x)).
  cbn [strings.HasPrefix]. rewrite Ascii.eqb_refl. exact IH.
Qed.

Lemma lit_app p x : regexp.lit p (p +:+ x) = Some x.
Proof. unfold regexp.lit. rewrite HasPrefix_app, drop_str_app. reflexivity. Qed.

Lemma opt_lit_app p x : regexp.opt_lit p (p +:+ x) = x.
Proof.
  unfold regexp.opt_lit. rewrite HasPrefix_app, drop_str_app. reflexivity.
Qed.

Lemma span_digits_app d c r :
  allDigits d = true -> is_digit c = false ->
  regexp.span is_digit (d +:+ String c r) = (d, String c r).
Proof.
  intros Hd Hc. induction d as [|x d IH]; simpl.
  - rewrite Hc. reflexivity.
  - cbn [allDigits] in Hd. apply andb_true_iff in Hd as [Hx Hd].
    rewrite Hx, (IH Hd). reflexivity.
Qed.

Lemma not_empty s : s <> EmptyString -> is_empty s = false.
Proof. destruct s; [contradiction | reflexivity]. Qed.

Lemma range_full da db r :
  allDigits da = true -> da <> EmptyString -> allDigits db = true ->
  regexp.range (da +:+ "," +:+ db +:+ String " " r)
  = Some (da, db, String " " r).
Proof.
  intros Ha Hne Hb. unfold regexp.range.
  change ("," +:+ db +:+ String " " r)
    with (String "," (db +:+ String " " r)).
  rewrite (span_digits_app da "," _ Ha eq_refl), (not_empty _ Hne).
  change (String "," (db +:+ String " " r))
    with ("," +:+ (db +:+ String " " r)).
  rewrite opt_lit_app, (span_digits_app db " " _ Hb eq_refl). reflexivity.
Qed.

Lemma span_oneLine t :
  oneLine t = true -> regexp.span regexp.dot t = (t, EmptyString).
Proof.
  induction t as [|c t IH]; cbn [oneLine regexp.span]; [reflexivity|].
  intros H. apply andb_true_iff in H as [Hc Ht].
  rewrite Hc, (IH Ht). reflexivity.
Qed.

Lemma oneLine_TrimPrefix t p :
  oneLine t = true -> oneLine (strings.TrimPrefix t p) = true.
Proof.
  unfold strings.TrimPrefix. intros H.
  destruct (strings.HasPrefix t p); [|exact H].
  generalize (String.length p). intros n. revert t H.
  induction n as [|n IH]; intros t H; [exact H|].
  destruct t as [|c t]; [reflexivity|]. cbn [drop_str].
  cbn [oneLine] in H. apply andb_true_iff in H as [_ H]. apply IH, H.
Qed.

Lemma FindStringSubmatch_at s m :
  regexp.hunkHeaderReg_at s = Some m ->
  regexp.hunkHeaderReg_FindStringSubmatch s = Some m.
Proof.
  intros H. destruct s; cbn [regexp.hunkHeaderReg_FindStringSubmatch];
    rewrite H; reflexivity.
Qed.

Lemma atoi_numeral ds n : numeral ds n -> atoi ds = Ok n.
Proof.
  intros (Hne & Hd & Hv & Hle).
  destruct (Atoi_digits ds Hd Hne) as (v & Hv' & _ & E).
  rewrite Hv in Hv'. injection Hv' as <-.
  unfold atoi. rewrite E.
  replace (maxInt <? n) with false; [reflexivity|].
  symmetry. apply Z.ltb_ge. exact Hle.
Qed.

Lemma len_not_empty s : s <> EmptyString -> (0 <? len s) = true.
Proof.
  destruct s; [contradiction|]. intros _.
  apply Z.ltb_lt. unfold len. cbn [String.length]. lia.
Qed.

Lemma keep_header m5 :
  (if 0 <? len m5 then m5 else EmptyString) = m5.
Proof. destruct m5; reflexivity. Qed.

(** X8: a hunk header written in full, [@@ -a,b +c,d @@] and a rest of
    the line, where [a], [b], [c] and [d] are decimal numerals that an
    [int] holds, is read as the hunk with the original range [a], [b] and
    the new range [c], [d], no lines yet, and for [HunkHeader] the rest of
    the line without one leading space. *)
Theorem hunk_header_read da db dc dd a b c d tail :
  numeral da a -> numeral db b -> numeral dc c -> numeral dd d ->
  oneLine tail = true ->
  hunkOfHeader
    ("@@ -" +:+ da +:+ "," +:+ db +:+ " +" +:+ dc +:+ "," +:+ dd
     +:+ " @@" +:+ tail)
  = Ok {| HunkHeader := strings.TrimPrefix tail " ";
          OrigRange := {| Start := a; Length := b; Lines := [] |};
          NewRange := {| Start := c; Length := d; Lines := [] |};
          WholeRange := zeroRange |}.
Proof.
  intros Ha Hb Hc Hd Ht.
  pose proof Ha as (Ha1 & Ha2 & _). pose proof Hb as (Hb1 & Hb2 & _).
  pose proof Hc as (Hc1 & Hc2 & _). pose proof Hd as (Hd1 & Hd2 & _).
  unfold hunkOfHeader.
  erewrite FindStringSubmatch_at.
  2:{ unfold regexp.hunkHeaderReg_at. rewrite lit_app.
      cbn [mbind option_bind].
      change (" +" +:+ dc +:+ "," +:+ dd +:+ " @@" +:+ tail)
        with (String " " ("+" +:+ dc +:+ "," +:+ dd +:+ " @@" +:+ tail)).
      rewrite (range_full da db _ Ha2 Ha1 Hb2).
      cbn [mbind option_bind].
      change (String " " ("+" +:+ dc +:+ "," +:+ dd +:+ " @@" +:+ tail))
        with (" +" +:+ (dc +:+ "," +:+ dd +:+ " @@" +:+ tail)).
      rewrite lit_app. cbn [mbind option_bind].
      change (" @@" +:+ tail) with (String " " ("@@" +:+ tail)).
      rewrite (range_full dc dd _ Hc2 Hc1 Hd2).
      cbn [mbind option_bind].
      change (String " " ("@@" +:+ tail)) with (" @@" +:+ tail).
      rewrite lit_app. cbn [mbind option_bind].
      change (regexp.opt_lit " " tail) with (strings.TrimPrefix tail " ").
      rewrite (span_oneLine _ (oneLine_TrimPrefix tail " " Ht)).
      reflexivity. }
  cbv beta iota.
  rewrite (atoi_numeral _ _ Ha), bind_ret, (len_not_empty _ Hb1).
  rewrite (atoi_numeral _ _ Hb), bind_ret.
  rewrite (atoi_numeral _ _ Hc), bind_ret, (len_not_empty _ Hd1).
  rewrite (atoi_numeral _ _ Hd), bind_ret.
  rewrite keep_header. reflexivity.
Qed.

Lemma hunk_header_read_witness :
  hunkOfHeader "@@ -12,3 +14,5 @@ func main() {"
  = Ok {| HunkHeader := "func main() {";
          OrigRange := {| Start := 12; Length := 3; Lines := [] |};
          NewRange := {| Start := 14; Length := 5; Lines := [] |};
          WholeRange := zeroRange |}.
Proof.
  apply (hunk_header_read "12" "3" "14" "5" 12 3 14 5 " func main() {");
    try reflexivity;
    (split; [discriminate|]; split; [reflexivity|];
     split; [reflexivity|]; unfold maxInt; lia).
Defined.

(** ** The similarity index *)

Lemma FieldUpdate_similarity l g f :
  FieldUpdate l g ->
  SimilarityIndex (g f)
  = if isSimilarityLine l then similarityOf l else SimilarityIndex f.
Proof.
  unfold isSimilarityLine.
  intros [-> | -> | H | H _ | H _ | H | H | n0 n1 H _];
    try reflexivity;
    try (apply HasPrefix_cons in H as (r & -> & _); reflexivity).
  rewrite H. reflexivity.
Qed.

Lemma FileStep_similarity l g f :
  FileStep l g ->
  SimilarityIndex (g f)
  = if isSimilarityLine l then similarityOf l else SimilarityIndex f.
Proof.
  intros [g' Hg | hunk Hk _ | m pos n1 n2 Hh _ _ | Hh].
  - apply FieldUpdate_similarity, Hg.
  - unfold isSimilarityLine.
    apply HasPrefix_cons in Hk as (r & -> & _). reflexivity.
  - unfold isSimilarityLine. apply headerLine_false in Hh.
    destruct Hh as (_ & _ & _ & -> & _). reflexivity.
  - unfold isSimilarityLine. apply headerLine_false in Hh.
    destruct Hh as (_ & _ & _ & -> & _). reflexivity.
Qed.

Lemma Parse_similarity s d :
  Parse s = Ok d ->
  Forall2 (fun f sec => SimilarityIndex f = similarityIndexOf sec)
    (Files d) (sections (strings.Split s nl)).
Proof.
  apply (Parse_local (fun f sec => SimilarityIndex f = similarityIndexOf sec)).
  - intros l rest Hd. unfold similarityIndexOf, isSimilarityLine.
    apply HasPrefix_cons in Hd as (r & -> & _). reflexivity.
  - intros l g f sec Hg IH. unfold similarityIndexOf.
    rewrite foldl_snoc. fold (similarityIndexOf sec). rewrite <- IH.
    apply FileStep_similarity, Hg.
Qed.

Lemma similarityIndexOf_none sec :
  Forall (fun l => isSimilarityLine l = false) sec ->
  forall acc,
    foldl (fun acc l => if isSimilarityLine l then similarityOf l else acc)
      acc sec = acc.
Proof.
  induction 1 as [|l sec Hl _ IH]; intros acc; [reflexivity|].
  cbn [foldl]. rewrite Hl. apply IH.
Qed.

Lemma similarityIndexOf_last pre l post :
  isSimilarityLine l = true ->
  Forall (fun l => isSimilarityLine l = false) post ->
  similarityIndexOf (pre ++ l :: post) = similarityOf l.
Proof.
  intros Hl Hpost. unfold similarityIndexOf.
  rewrite foldl_app. cbn [foldl]. rewrite Hl.
  apply similarityIndexOf_none, Hpost.
Qed.

Lemma TrimPrefix_app p x : strings.TrimPrefix (p +:+ x) p = x.
Proof.
  unfold strings.TrimPrefix. rewrite HasPrefix_app. apply drop_str_app.
Qed.

Lemma similarityOf_numeral ds n :
  numeral ds n -> similarityOf (similarityPrefix +:+ ds +:+ "%") = n.
Proof.
  intros Hn. unfold similarityOf.
  rewrite TrimPrefix_app, TrimSuffix_app.
  apply atoi_numeral in Hn. unfold atoi in Hn.
  destruct (strconv.Atoi ds) as [v [e|]]; [discriminate|].
  injection Hn as <-. reflexivity.
Qed.

(** X9: the [SimilarityIndex] of every file of a parsed diff is 0 when
    its section holds no ["similarity index "] line, and otherwise what
    the last such line of the section gives: for a line
    [similarity index N%], where [N] is a decimal numeral an [int] holds,
    the number [N]. *)
Theorem similarity_index s d :
  Parse s = Ok d ->
  Forall2
    (fun f sec =>
       (Forall (fun l => isSimilarityLine l = false) sec ->
        SimilarityIndex f = 0)
       /\ (forall pre ds n post,
              sec = pre ++ (similarityPrefix +:+ ds +:+ "%") :: post ->
              numeral ds n ->
              Forall (fun l => isSimilarityLine l = false) post ->
              SimilarityIndex f = n))
    (Files d) (sections (strings.Split s nl)).
Proof.
  intros HP. eapply Forall2_impl; [apply Parse_similarity, HP|].
  intros f sec ->. split.
  - intros Hnone. apply (similarityIndexOf_none sec Hnone 0).
  - intros pre ds n post -> Hn Hpost.
    rewrite similarityIndexOf_last;
      [apply similarityOf_numeral, Hn | apply HasPrefix_app | exact Hpost].
Qed.

Lemma similarity_index_witness :
  exists d f,
    Parse renamed_file = Ok d /\ Files d = [f] /\ SimilarityIndex f = 90.
Proof.
  destruct (Parse renamed_file) as [d|e|] eqn:E; parse_eval E.
  eexists _, _. split; [reflexivity|]. split; [reflexivity|].
  pose proof (similarity_index renamed_file _ E) as H.
  assert (Hs : sections (strings.Split renamed_file nl)
               = [["diff --git a/old.txt b/new.txt"; "similarity index 90%";
                   "rename from old.txt"; "rename to new.txt"; EmptyString]])
    by (vm_compute; reflexivity).
  rewrite Hs in H. apply Forall2_cons_1 in H as [[_ H] _].
  apply (H ["diff --git a/old.txt b/new.txt"] "90" 90
           ["rename from old.txt"; "rename to new.txt"; EmptyString]).
  - reflexivity.
  - split; [discriminate|]. split; [reflexivity|].
    split; [reflexivity|]. unfold maxInt. lia.
  - repeat constructor.
Defined.

(** ** Quoted file names *)

Lemma of_byte_byte_of c : of_byte (byte_of c) = c.
Proof. destruct c as [[] [] [] [] [] [] [] []]; reflexivity. Qed.

Lemma UnquoteChar_plain c rest :
  plainChar c = true ->
  strconv.UnquoteChar (String c rest) "034"%char
  = Some (byte_of c, false, rest).
Proof.
  destruct c as [[] [] [] [] [] [] [] []]; intros H;
    try (vm_compute in H; discriminate H); reflexivity.
Qed.

Lemma UnquoteChar_octal c rest :
  strconv.UnquoteChar (String "\"%char (octal3 (byte_of c) +:+ rest))
    "034"%char
  = Some (byte_of c, false, rest).
Proof. destruct c as [[] [] [] [] [] [] [] []]; reflexivity. Qed.

Lemma UnquoteChar_named e c rest :
  namedEscape e = Some c ->
  strconv.UnquoteChar (String "\"%char (String e rest)) "034"%char
  = Some (byte_of c, false, rest).
Proof.
  destruct e as [[] [] [] [] [] [] [] []]; intros H;
    try (vm_compute in H; discriminate H);
    vm_compute in H; injection H as <-; reflexivity.
Qed.

Lemma plainChar_head c :
  plainChar c = true ->
  Ascii.eqb c "034"%char = false /\ Ascii.eqb c "010"%char = false.
Proof.
  destruct c as [[] [] [] [] [] [] [] []]; intros H;
    try (vm_compute in H; discriminate H); split; reflexivity.
Qed.

(** What one iteration of the loop of [unquote] sees of a quoted byte. *)
Lemma quotedByte_read e c rest :
  quotedByte e c ->
  exists h t,
    e +:+ rest = String h t
    /\ Ascii.eqb h "034"%char = false /\ Ascii.eqb h "010"%char = false
    /\ strconv.UnquoteChar (String h t) "034"%char
       = Some (byte_of c, false, rest).
Proof.
  intros [c' Hp | c' | e' c' Hn].
  - exists c', rest. destruct (plainChar_head _ Hp) as [H1 H2].
    split; [reflexivity|]. split; [exact H1|]. split; [exact H2|].
    apply UnquoteChar_plain, Hp.
  - exists "\"%char, (octal3 (byte_of c') +:+ rest).
    split; [reflexivity|]. split; [reflexivity|]. split; [reflexivity|].
    apply UnquoteChar_octal.
  - exists "\"%char, (String e' rest).
    split; [reflexivity|]. split; [reflexivity|]. split; [reflexivity|].
    apply UnquoteChar_named, Hn.
Qed.

Lemma append_assoc (x y z : string) : (x +:+ y) +:+ z = x +:+ (y +:+ z).
Proof.
  induction x as [|c x IH]; [reflexivity|].
  change (String c ((x +:+ y) +:+ z) = String c (x +:+ (y +:+ z))).
  rewrite IH. reflexivity.
Qed.

Lemma append_nil_r (x : string) : x +:+ EmptyString = x.
Proof.
  induction x as [|c x IH]; [reflexivity|].
  change (String c (x +:+ EmptyString) = String c x).
  rewrite IH. reflexivity.
Qed.

Lemma unquote_loop_quoted e bs :
  quoted e bs ->
  forall fuel buf,
    (String.length bs < fuel)%nat ->
    strconv.unquote_loop fuel (e +:+ dquote) buf = Some (buf +:+ bs).
Proof.
  induction 1 as [|e c es cs Hb Hq IH]; intros fuel buf Hf.
  - destruct fuel as [|fuel]; [inversion Hf|].
    rewrite append_nil_r. reflexivity.
  - destruct fuel as [|fuel]; [inversion Hf|].
    rewrite append_assoc.
    destruct (quotedByte_read e c (es +:+ dquote) Hb)
      as (h & t & -> & H1 & H2 & Hu).
    cbn [strconv.unquote_loop]. rewrite H1, H2, Hu.
    rewrite orb_true_r, of_byte_byte_of.
    rewrite IH by (cbn [String.length] in Hf; lia).
    rewrite append_assoc. reflexivity.
Qed.

Lemma quotedByte_length e c : quotedByte e c -> (1 <= String.length e)%nat.
Proof. intros [? ? | ? | ? ? ?]; cbn [String.length str1]; lia. Qed.

Lemma quoted_length e bs :
  quoted e bs -> (String.length bs <= String.length e)%nat.
Proof.
  induction 1 as [|e c es cs Hb Hq IH]; [reflexivity|].
  rewrite length_append. apply quotedByte_length in Hb.
  cbn [String.length]. lia.
Qed.

Lemma Unquote_quoted e bs :
  quoted e bs -> strconv.Unquote (dquote +:+ e +:+ dquote) = Some bs.
Proof.
  intros Hq.
  change (dquote +:+ e +:+ dquote) with (String "034"%char (e +:+ dquote)).
  cbn [strconv.Unquote]. rewrite Ascii.eqb_refl.
  replace (is_empty (e +:+ dquote)) with false
    by (destruct e; reflexivity).
  cbn [negb andb].
  rewrite (unquote_loop_quoted e bs Hq); [reflexivity|].
  apply quoted_length in Hq. rewrite length_append.
  cbn [String.length dquote str1]. lia.
Qed.

(** X10: the decoder reads quoted file names back: when [e] writes the
    bytes [bs] in the quoting of [git diff] (printable ASCII characters
    as they are, other bytes as a backslash and three octal digits or as
    a named escape), [decodeOctalString e] is [bs], and [parseFileName]
    gives [bs] for the quoted token with the prefix [a/] or [b/]. *)
Theorem quoted_name_decoded e bs :
  quoted e bs ->
  decodeOctalString e = bs
  /\ parseFileName (dquote +:+ "a/" +:+ e +:+ dquote) = bs
  /\ parseFileName (dquote +:+ "b/" +:+ e +:+ dquote) = bs.
Proof.
  intros Hq.
  assert (Hd : decodeOctalString e = bs).
  { unfold decodeOctalString. rewrite (Unquote_quoted e bs Hq). reflexivity. }
  split; [exact Hd|].
  split; unfold parseFileName.
  - change (dquote +:+ "a/" +:+ e +:+ dquote)
      with (String "034" (("a/" +:+ e) +:+ dquote)).
    change (strings.TrimPrefix (String "034" (("a/" +:+ e) +:+ dquote)) dquote)
      with (("a/" +:+ e) +:+ dquote).
    rewrite TrimSuffix_app. exact Hd.
  - change (dquote +:+ "b/" +:+ e +:+ dquote)
      with (String "034" (("b/" +:+ e) +:+ dquote)).
    change (strings.TrimPrefix (String "034" (("b/" +:+ e) +:+ dquote)) dquote)
      with (("b/" +:+ e) +:+ dquote).
    rewrite TrimSuffix_app. exact Hd.
Qed.

Lemma quoted_name_decoded_witness :
  decodeOctalString "t\303\244st\t1.txt"
  = String "t" (String (of_byte 195) (String (of_byte 164)
      (String "s" (String "t" (String (of_byte 9) "1.txt")))))
  /\ parseFileName (dquote +:+ "a/" +:+ "t\303\244st\t1.txt" +:+ dquote)
     = String "t" (String (of_byte 195) (String (of_byte 164)
         (String "s" (String "t" (String (of_byte 9) "1.txt")))))
  /\ parseFileName (dquote +:+ "b/" +:+ "t\303\244st\t1.txt" +:+ dquote)
     = String "t" (String (of_byte 195) (String (of_byte 164)
         (String "s" (String "t" (String (of_byte 9) "1.txt"))))).
Proof.
  apply (quoted_name_decoded "t\303\244st\t1.txt").
  apply (Q_cons "t" "t" _ _ (QB_plain "t" eq_refl)).
  apply (Q_cons _ _ _ _ (QB_octal (of_byte 195))).
  apply (Q_cons _ _ _ _ (QB_octal (of_byte 164))).
  apply (Q_cons "s" "s" _ _ (QB_plain "s" eq_refl)).
  apply (Q_cons "t" "t" _ _ (QB_plain "t" eq_refl)).
  apply (Q_cons _ _ "1.txt" _ (QB_named "t" (of_byte 9) eq_refl)).
  apply (Q_cons "1" "1" _ _ (QB_plain "1" eq_refl)).
  apply (Q_cons "." "." _ _ (QB_plain "." eq_refl)).
  apply (Q_cons "t" "t" _ _ (QB_plain "t" eq_refl)).
  apply (Q_cons "x" "x" _ _ (QB_plain "x" eq_refl)).
  apply (Q_cons "t" "t" _ _ (QB_plain "t" eq_refl)).
  apply Q_nil.
Defined.

(** ** One diff after another *)

Lemma split_from_line l s :
  oneLine l = true ->
  strings.split_from nl 0 (l +:+ nl +:+ s) = (l, strings.Split s nl).
Proof.
  induction l as [|c l IH]; intros H.
  - change (EmptyString +:+ nl +:+ s) with (String "010"%char s).
    cbn [strings.split_from].
    change (strings.HasPrefix (String "010"%char s) nl) with true.
    cbv iota. change (String.length nl - 1)%nat with 0%nat.
    unfold strings.Split. destruct (strings.split_from nl 0 s). reflexivity.
  - cbn [oneLine] in H. apply andb_true_iff in H as [Hc Hl].
    change (String c l +:+ nl +:+ s) with (String c (l +:+ nl +:+ s)).
    cbn [strings.split_from].
    replace (strings.HasPrefix (String c (l +:+ nl +:+ s)) nl) with false.
    + rewrite (IH Hl). reflexivity.
    + unfold regexp.dot in Hc. apply negb_true_iff in Hc.
      change (strings.HasPrefix (String c (l +:+ nl +:+ s)) nl)
        with (Ascii.eqb c "010"%char && true).
      rewrite Hc. reflexivity.
Qed.

Lemma Split_unlines ls :
  Forall (fun l => oneLine l = true) ls ->
  strings.Split (unlines ls) nl = ls ++ [EmptyString].
Proof.
  induction 1 as [|l ls Hl _ IH]; [reflexivity|].
  cbn [unlines foldr]. fold (unlines ls).
  unfold strings.Split at 1. rewrite (split_from_line l _ Hl), IH.
  reflexivity.
Qed.

Lemma unlines_app a b : unlines (a ++ b) = unlines a +:+ unlines b.
Proof.
  induction a as [|l a IH]; [reflexivity|].
  cbn [app unlines foldr]. fold (unlines (a ++ b)) (unlines a).
  rewrite IH, !append_assoc. reflexivity.
Qed.

Lemma step_diff st l rest :
  strings.HasPrefix l "diff " = true ->
  step st l rest =
  Ok {| diff_Files := diff_Files st ++ [newFile l rest];
        addedCount := addedCount st; removedCount := removedCount st;
        inHunk := false; diffPosCount := incr (diffPosCount st);
        firstHunkInFile := true |}.
Proof. intros H. unfold step. rewrite H. reflexivity. Qed.

Section Simulation.

Variable R : DiffFile -> DiffFile -> Prop.
Hypothesis R_Hunks : forall f1 f2, R f1 f2 -> Hunks f1 = Hunks f2.
Hypothesis R_step :
  forall l g f1 f2, FileStep l g -> R f1 f2 -> R (g f1) (g f2).

(** The iteration on the same line in two states of which the second
    follows the first. *)
Lemma follows_step fs s1 s2 l r1 r2 s1' :
  R (newFile l r1) (newFile l r2) ->
  follows R fs s1 s2 -> Step s1 l r1 s1' ->
  exists s2', step s2 l r2 = Ok s2' /\ follows R fs s1' s2'.
Proof.
  intros Hnew ((fs2 & Hf2 & HF) & Hin & Hfh & Hpos & Hcnt) HS.
  destruct HS as [Hd | g fs1 f Hd Hg Hf | hunk fs1 f Hh Hd Hk Hhk Hf
                 | m fs1 f hs h Hh Hi Hs Hm Hf Hhs | Hh Hc].
  - eexists. split; [apply step_diff, Hd|].
    split.
    { exists (fs2 ++ [newFile l r2]). cbn [diff_Files].
      rewrite Hf2, app_assoc. split; [reflexivity|].
      apply Forall2_snoc; assumption. }
    cbn. split; [reflexivity|]. split; [reflexivity|].
    split; [left; split; reflexivity | discriminate].
  - rewrite Hf in HF.
    apply Forall2_snoc_inv_l in HF as (fs2' & f2 & -> & HF & Hff).
    rewrite app_assoc in Hf2.
    exists (set_diff_Files ((fs ++ fs2') ++ [g f2]) (tick s2)).
    split.
    { rewrite (step_field _ _ _ _ Hg).
      apply (assign_file_snoc g (tick s2) _ _ Hf2). }
    split.
    { exists (fs2' ++ [g f2]). cbn [diff_Files set_diff_Files].
      rewrite app_assoc. split; [reflexivity|].
      apply Forall2_snoc; [exact HF|].
      apply (R_step l); [apply FS_field, Hg | exact Hff]. }
    cbn. split; [exact Hin|]. split; [exact Hfh|].
    split; [|exact Hcnt].
    destruct Hpos as [Hp | Hp]; [left; exact Hp | right; rewrite Hp; reflexivity].
  - rewrite Hf in HF.
    apply Forall2_snoc_inv_l in HF as (fs2' & f2 & -> & HF & Hff).
    rewrite app_assoc in Hf2.
    eexists. split; [apply (step_hunk _ _ _ _ _ _ Hk Hf2 Hhk)|].
    split.
    { eexists. cbn [diff_Files]. rewrite <- app_assoc.
      split; [reflexivity|].
      apply Forall2_snoc; [exact HF|].
      apply (R_step l (fun f0 => set_Hunks (Hunks f0 ++ [hunk]) f0));
        [apply FS_hunk; assumption | exact Hff]. }
    cbn. split; [reflexivity|]. split; [reflexivity|].
    split; [|auto].
    right. rewrite <- Hfh. destruct (firstHunkInFile s1) eqn:E;
      [reflexivity|].
    destruct Hpos as [[_ Hp] | Hp]; [discriminate | rewrite Hp; reflexivity].
  - rewrite Hf in HF.
    apply Forall2_snoc_inv_l in HF as (fs2' & f2 & -> & HF & Hff).
    rewrite app_assoc in Hf2.
    assert (Hhs2 : Hunks f2 = hs ++ [h])
      by (rewrite <- (R_Hunks _ _ Hff); exact Hhs).
    assert (Hi2 : inHunk s2 = true) by (rewrite <- Hin; exact Hi).
    destruct (Hcnt Hi) as [Ha Hr].
    assert (Hp : diffPosCount s1 = diffPosCount s2).
    { destruct Hpos as [[Hp _] | Hp]; [congruence | exact Hp]. }
    pose proof (R_step l _ f f2
                  (FS_line l m (incr (diffPosCount s1)) (addedCount s1)
                     (removedCount s1) Hh Hs Hm) Hff) as HR.
    cbv beta in HR. rewrite Hhs, Hhs2, !map_last_snoc in HR.
    eexists. split.
    { apply (step_content s2 l r2 (fs ++ fs2') f2 hs h m); try assumption.
      split; assumption. }
    split.
    { eexists. cbn [diff_Files]. rewrite <- app_assoc.
      split; [reflexivity|].
      apply Forall2_snoc; [exact HF|].
      rewrite <- Ha, <- Hr, <- Hp. exact HR. }
    cbn. split; [reflexivity|]. split; [exact Hfh|].
    split; [right; rewrite Hp; reflexivity|].
    intros _. rewrite Ha, Hr. split; reflexivity.
  - exists (tick s2). split.
    { rewrite (step_noheader _ _ _ Hh), <- Hin, Hc. reflexivity. }
    split; [exists fs2; split; assumption|].
    cbn. split; [exact Hin|]. split; [exact Hfh|].
    split; [|exact Hcnt].
    destruct Hpos as [Hp | Hp]; [left; exact Hp | right; rewrite Hp; reflexivity].
Qed.

Lemma follows_run fs t1 t2 pre :
  (forall l rest, R (newFile l (rest ++ t1)) (newFile l (rest ++ t2))) ->
  forall s1 s2 s1',
    follows R fs s1 s2 -> loop_upto s1 pre t1 = Ok s1' ->
    exists s2', loop_upto s2 pre t2 = Ok s2' /\ follows R fs s1' s2'.
Proof.
  intros Hnew. induction pre as [|l pre IH]; intros s1 s2 s1' HF H.
  - injection H as <-. exists s2. split; [reflexivity | exact HF].
  - cbn [loop_upto] in H. apply bind_Ok in H as (s1m & Hs & H).
    apply step_sound in Hs.
    destruct (follows_step fs s1 s2 l (pre ++ t1) (pre ++ t2) s1m
                (Hnew l pre) HF Hs) as (s2m & Hs2 & HFm).
    destruct (IH s1m s2m s1' HFm H) as (s2' & H2 & HF').
    exists s2'. split; [|exact HF'].
    cbn [loop_upto]. rewrite Hs2, bind_ret. exact H2.
Qed.

End Simulation.

Lemma sameButHeader_Hunks f1 f2 : sameButHeader f1 f2 -> Hunks f1 = Hunks f2.
Proof. intros (_ & _ & _ & H & _). exact H. Qed.

Lemma sameButHeader_step l g f1 f2 :
  FileStep l g -> sameButHeader f1 f2 -> sameButHeader (g f1) (g f2).
Proof.
  unfold sameButHeader. intros Hg (H1 & H2 & H3 & H4 & H5).
  destruct Hg as [g Hg | hunk _ _ | m pos n1 n2 _ _ _ | _];
    [destruct Hg | | |]; cbn; rewrite ?H1, ?H2, ?H3, ?H4, ?H5;
    repeat split; reflexivity.
Qed.

Lemma Forall2_eq_inv {A} (l k : list A) : Forall2 eq l k -> l = k.
Proof. induction 1 as [|x y l k -> _ ->]; reflexivity. Qed.

Lemma step_empty st : step st EmptyString [] = Ok (tick st).
Proof.
  rewrite (step_noheader st EmptyString [] eq_refl).
  rewrite andb_false_r. reflexivity.
Qed.

Lemma loop_as_upto ls : forall st, loop st ls = loop_upto st ls [].
Proof.
  induction ls as [|l ls IH]; intros st; [reflexivity|].
  cbn [loop loop_upto]. rewrite app_nil_r.
  destruct (step st l ls) as [st'| |]; [|reflexivity..].
  rewrite !bind_ret. apply IH.
Qed.

Lemma follows_init R : follows R [] init init.
Proof.
  split; [exists []; split; [reflexivity | constructor]|].
  split; [reflexivity|]. split; [reflexivity|].
  split; [right; reflexivity | discriminate].
Qed.

(** The two instances of the simulation: the same lines read with other
    lines after them, and the same lines read after other files. *)
Lemma follows_run_header t1 t2 pre s1 s2 s1' :
  follows sameButHeader [] s1 s2 -> loop_upto s1 pre t1 = Ok s1' ->
  exists s2',
    loop_upto s2 pre t2 = Ok s2' /\ follows sameButHeader [] s1' s2'.
Proof.
  apply (follows_run sameButHeader sameButHeader_Hunks sameButHeader_step).
  intros l rest. repeat split.
Qed.

Lemma follows_run_eq fs t pre s1 s2 s1' :
  follows eq fs s1 s2 -> loop_upto s1 pre t = Ok s1' ->
  exists s2', loop_upto s2 pre t = Ok s2' /\ follows eq fs s1' s2'.
Proof.
  apply (follows_run eq).
  - intros f1 f2 ->. reflexivity.
  - intros l g f1 f2 _ ->. reflexivity.
  - reflexivity.
Qed.

Lemma follows_after_diff st l rest s1 s2 :
  strings.HasPrefix l "diff " = true ->
  step init l rest = Ok s1 -> step st l rest = Ok s2 ->
  follows eq (diff_Files st) s1 s2.
Proof.
  intros Hd H1 H2.
  rewrite (step_diff init _ _ Hd) in H1. rewrite (step_diff st _ _ Hd) in H2.
  injection H1 as <-. injection H2 as <-.
  split.
  { exists [newFile l rest]. cbn [diff_Files].
    split; [reflexivity | repeat constructor]. }
  cbn. split; [reflexivity|]. split; [reflexivity|].
  split; [left; split; reflexivity | discriminate].
Qed.

(** X11: one diff after another. When [Parse] succeeds on two inputs,
    each written line by line, and the second one begins with a ["diff "]
    line, [Parse] succeeds on the first followed by the second, and its
    files are the files of the first, up to their [DiffHeader] (which
    looks at the three lines after the ["diff "] line), followed by the
    files of the second, as they are. *)
Theorem Parse_concat La Lb l0 da db :
  Forall (fun l => oneLine l = true) La ->
  Forall (fun l => oneLine l = true) Lb ->
  head Lb = Some l0 -> isDiffLine l0 = true ->
  Parse (unlines La) = Ok da -> Parse (unlines Lb) = Ok db ->
  exists d fa,
    Parse (unlines La +:+ unlines Lb) = Ok d
    /\ Files d = fa ++ Files db
    /\ Forall2 sameButHeader (Files da) fa.
Proof.
  intros HLa HLb Hhd Hd0 HPa HPb.
  destruct Lb as [|l0' Lb']; [discriminate|]. injection Hhd as ->.
  rewrite <- unlines_app. unfold Parse in *.
  rewrite Split_unlines in HPa by exact HLa.
  rewrite Split_unlines in HPb by exact HLb.
  rewrite Split_unlines by (apply Forall_app; split; assumption).
  apply bind_Ok in HPa as (sa & Ha & HPa). injection HPa as <-.
  apply bind_Ok in HPb as (sb & Hb & HPb). injection HPb as <-.
  cbn [Files].
  (* the first input alone: its lines, then the empty last line *)
  rewrite loop_app in Ha. apply bind_Ok in Ha as (sa0 & Ha0 & Ha).
  cbn [loop] in Ha. rewrite step_empty, bind_ret in Ha. injection Ha as <-.
  (* the second input alone: its first line, then the others *)
  cbn [app loop] in Hb. apply bind_Ok in Hb as (sb1 & Hb1 & Hb).
  rewrite loop_as_upto in Hb.
  (* the lines of the first input, followed by those of the second *)
  rewrite <- app_assoc, loop_app.
  destruct (follows_run_header [EmptyString] ((l0 :: Lb') ++ [EmptyString])
              La init init sa0 (follows_init _) Ha0)
    as (s2 & Hs2 & ((fa & Hfa & HFa) & _)).
  rewrite Hs2, bind_ret. cbn [app loop].
  (* the lines of the second input, after the files of the first *)
  assert (H2b : step s2 l0 (Lb' ++ [EmptyString])
                = Ok {| diff_Files :=
                          diff_Files s2
                          ++ [newFile l0 (Lb' ++ [EmptyString])];
                        addedCount := addedCount s2;
                        removedCount := removedCount s2;
                        inHunk := false;
                        diffPosCount := incr (diffPosCount s2);
                        firstHunkInFile := true |})
    by apply step_diff, Hd0.
  rewrite H2b, bind_ret, loop_as_upto.
  destruct (follows_run_eq (diff_Files s2) [] (Lb' ++ [EmptyString])
              sb1 _ sb (follows_after_diff s2 l0 _ _ _ Hd0 Hb1 H2b) Hb)
    as (s2' & Hs2' & ((fb & Hfb & HFb) & _)).
  rewrite Hs2', bind_ret. apply Forall2_eq_inv in HFb. subst fb.
  eexists _, (diff_Files s2). split; [reflexivity|].
  cbn [Files]. split; [exact Hfb|].
  cbn [app] in Hfa. rewrite Hfa. exact HFa.
Qed.

Lemma Parse_concat_witness :
  exists da db,
    Parse file1_diff = Ok da /\ Parse omitted_counts = Ok db
    /\ exists d fa,
         Parse (file1_diff +:+ omitted_counts) = Ok d
         /\ Files d = fa ++ Files db
         /\ Forall2 sameButHeader (Files da) fa.
Proof.
  destruct (Parse file1_diff) as [da|e|] eqn:Ea; parse_eval Ea.
  destruct (Parse omitted_counts) as [db|e|] eqn:Eb; parse_eval Eb.
  eexists _, _. split; [reflexivity|]. split; [reflexivity|].
  apply (Parse_concat
           ["diff --git a/file1 b/file1"; "--- a/file1"; "+++ b/file1";
            "@@ -1,4 +1,4 @@"; "+add a line"; " some"; " lines"; "-in";
            " file1"]
           ["diff --git a/f b/f"; "--- a/f"; "+++ b/f"; "@@ -5 +7 @@";
            "-x"; "+y"]
           "diff --git a/f b/f").
  - repeat constructor.
  - repeat constructor.
  - reflexivity.
  - reflexivity.
  - exact Ea.
  - exact Eb.
Defined.

(** ** The structure of a parsed diff *)

Lemma FieldUpdate_header l g : FieldUpdate l g -> headerLine l = true.
Proof.
  intros H. destruct (headerLine l) eqn:E; [reflexivity|].
  apply headerLine_false in E.
  destruct E as (E1 & E2 & E3 & E4 & E5 & E6 & E7 & E8 & E9 & E10).
  destruct H; subst; try congruence; discriminate.
Qed.

Lemma hunkBlocks_snoc sec l :
  hunkBlocks (sec ++ [l]) =
  if isHunkLine l then hunkBlocks sec ++ [[l]]
  else map_last (fun b => b ++ [l]) (hunkBlocks sec).
Proof. unfold hunkBlocks. rewrite foldl_app. reflexivity. Qed.

Lemma hunkBlocks_single l : isHunkLine l = false -> hunkBlocks [l] = [].
Proof. intros H. unfold hunkBlocks. cbn [foldl]. rewrite H. reflexivity. Qed.

Lemma hunkOfBlock_more h b l :
  isContentLine l = false -> hunkOfBlock h b -> hunkOfBlock h (b ++ [l]).
Proof.
  intros Hl (l0 & body & h0 & -> & H1 & H2 & H3 & H4 & H5 & H6 & H7).
  exists l0, (body ++ [l]), h0. repeat split; try assumption.
  rewrite filter_app, filter_cons, filter_nil.
  rewrite decide_False by (rewrite Hl; discriminate).
  rewrite app_nil_r. exact H7.
Qed.

Lemma physical_mkLine m l pos n :
  lineMode l = Ok m -> physical (mkLine m l pos n) = l.
Proof. intros H. symmetry. apply (lineMode_Ok l m H). Qed.

Lemma hunkOfBlock_line h b l m pos n1 n2 :
  isContentLine l = true -> lineMode l = Ok m ->
  hunkOfBlock h b ->
  hunkOfBlock (addToHunk m (mkLine m l pos n1) (mkLine m l pos n2) h)
    (b ++ [l]).
Proof.
  intros Hl Hm (l0 & body & h0 & -> & H1 & H2 & H3 & H4 & H5 & H6 & H7).
  exists l0, (body ++ [l]), h0.
  split; [reflexivity|]. split; [exact H1|].
  split; [destruct m; exact H2|]. split; [destruct m; exact H3|].
  split; [destruct m; exact H4|]. split; [destruct m; exact H5|].
  split; [destruct m; exact H6|].
  rewrite WholeRange_addToHunk, map_app, H7.
  rewrite filter_app, filter_cons, filter_nil.
  rewrite decide_True by exact Hl.
  f_equal. cbn [map]. f_equal.
  destruct m; apply physical_mkLine, Hm.
Qed.

Lemma hunkOfBlock_new l hunk :
  hunkOfHeader l = Ok hunk -> hunkOfBlock hunk [l].
Proof.
  intros H. exists l, [], hunk. repeat split; try assumption.
  rewrite (hunkOfHeader_whole _ _ H). reflexivity.
Qed.

Lemma last_section_keep pre l (st st' : state) :
  isDiffLine l = false -> isHunkLine l = false ->
  inHunk st' = inHunk st ->
  (inHunk st = false ->
   forall secs sec, sections pre = secs ++ [sec] -> hunkBlocks sec = []) ->
  inHunk st' = false ->
  forall secs sec,
    sections (pre ++ [l]) = secs ++ [sec] -> hunkBlocks sec = [].
Proof.
  intros Hd Hk Hin H Hst' secs sec E.
  rewrite sections_snoc in E. unfold isDiffLine in Hd. rewrite Hd in E.
  destruct (sections pre) as [|sec0 secs0 _] using rev_ind.
  - destruct secs; discriminate.
  - rewrite map_last_snoc in E. apply app_inj_tail in E as [<- <-].
    rewrite hunkBlocks_snoc, Hk.
    rewrite Hin in Hst'. rewrite (H Hst' secs0 sec0 eq_refl). reflexivity.
Qed.

Lemma structureInv_step pre l rest st st' :
  structureInv pre st -> Step st l rest st' -> structureInv (pre ++ [l]) st'.
Proof.
  intros [HF Hopen] HS.
  destruct HS as [Hd | g fs f Hd Hg Hf | hunk fs f Hh Hd Hk Hhk Hf
                 | m fs f hs h Hh Hi Hs Hm Hf Hhs | Hh Hc].
  - split.
    + rewrite sections_snoc, Hd. cbn [diff_Files].
      apply Forall2_snoc; [exact HF|].
      rewrite (hunkBlocks_single l (diff_not_hunk _ Hd)).
      cbn [Hunks set_Mode set_DiffHeader zeroFile]. constructor.
    + intros _ secs sec E. rewrite sections_snoc, Hd in E.
      apply app_inj_tail in E as [_ <-].
      apply hunkBlocks_single, (diff_not_hunk _ Hd).
  - split.
    + rewrite sections_snoc, Hd. rewrite Hf in HF.
      apply Forall2_snoc_inv_l in HF as (secs & sec & -> & HF & Hfs).
      rewrite map_last_snoc. cbn [diff_Files set_diff_Files].
      apply Forall2_snoc; [exact HF|].
      rewrite (FieldUpdate_Hunks _ _ _ Hg), hunkBlocks_snoc.
      unfold isHunkLine. rewrite (FieldUpdate_not_hunk _ _ Hg).
      rewrite <- (map_last_id (Hunks f)).
      apply Forall2_map_last; [exact Hfs|].
      intros x y. apply hunkOfBlock_more.
      unfold isContentLine. rewrite (FieldUpdate_header _ _ Hg). reflexivity.
    + apply (last_section_keep pre l st); try assumption.
      * apply (FieldUpdate_not_hunk _ _ Hg).
      * reflexivity.
  - split; [|discriminate].
    rewrite sections_snoc, Hd. rewrite Hf in HF.
    apply Forall2_snoc_inv_l in HF as (secs & sec & -> & HF & Hfs).
    rewrite map_last_snoc. cbn [diff_Files].
    apply Forall2_snoc; [exact HF|].
    cbn [Hunks set_Hunks]. rewrite hunkBlocks_snoc.
    unfold isHunkLine. rewrite Hk.
    apply Forall2_snoc; [exact Hfs | apply hunkOfBlock_new, Hhk].
  - split; [|discriminate].
    rewrite sections_snoc, (headerLine_diff _ Hh). rewrite Hf in HF.
    apply Forall2_snoc_inv_l in HF as (secs & sec & -> & HF & Hfs).
    rewrite map_last_snoc. cbn [diff_Files].
    apply Forall2_snoc; [exact HF|].
    cbn [Hunks set_Hunks]. rewrite hunkBlocks_snoc.
    unfold isHunkLine. rewrite (headerLine_hunk _ Hh).
    rewrite Hhs in Hfs.
    apply Forall2_snoc_inv_l in Hfs as (bs & b & -> & Hbs & Hb).
    rewrite map_last_snoc.
    apply Forall2_snoc; [exact Hbs|].
    apply hunkOfBlock_line; [|exact Hm|exact Hb].
    unfold isContentLine. rewrite Hh, Hs. reflexivity.
  - split.
    + rewrite sections_snoc, (headerLine_diff _ Hh).
      change (diff_Files (tick st)) with (diff_Files st).
      destruct (diff_Files st) as [|f fs _] using rev_ind.
      { inversion HF. constructor. }
      apply Forall2_snoc_inv_l in HF as (secs & sec & E & HF & Hfs).
      rewrite E, map_last_snoc.
      apply Forall2_snoc; [exact HF|].
      rewrite hunkBlocks_snoc. unfold isHunkLine.
      rewrite (headerLine_hunk _ Hh).
      apply andb_false_iff in Hc as [Hc | Hc].
      * rewrite (Hopen Hc secs sec E) in *. exact Hfs.
      * rewrite <- (map_last_id (Hunks f)).
        apply Forall2_map_last; [exact Hfs|].
        intros x y. apply hunkOfBlock_more.
        unfold isContentLine. rewrite Hc. apply andb_false_r.
    + apply (last_section_keep pre l st); try assumption.
      * apply (headerLine_diff _ Hh).
      * apply (headerLine_hunk _ Hh).
      * reflexivity.
Qed.

(** X12: the structure of a parsed diff is the structure of the text.
    The files are the sections of the text, in their order, the hunks of
    a file are the blocks of its section, in their order, and for every
    hunk and its block: the header and the bounds of the two ranges are
    what the ["@@ "] line of the block gives, and the lines of the whole
    range are exactly the content lines of the block, in their order
    (each as its mode character followed by its content). *)
Theorem Parse_structure s d :
  Parse s = Ok d ->
  Forall2 (fun f sec => Forall2 hunkOfBlock (Hunks f) (hunkBlocks sec))
    (Files d) (sections (strings.Split s nl)).
Proof.
  intros HP.
  destruct (Parse_invariant structureInv s d) as (st & E & H & _).
  - split; [constructor|]. intros _ secs sec E. destruct secs; discriminate.
  - intros pre l rest st st' _. apply structureInv_step.
  - exact HP.
  - rewrite E. exact H.
Qed.

Lemma Parse_structure_witness :
  exists d,
    Parse two_hunks = Ok d
    /\ Forall2 (fun f sec => Forall2 hunkOfBlock (Hunks f) (hunkBlocks sec))
         (Files d) (sections (strings.Split two_hunks nl)).
Proof.
  destruct (Parse two_hunks) as [d|e|] eqn:E;
    try (vm_compute in E; discriminate E).
  exists d. split; [reflexivity|]. apply Parse_structure, E.
Defined.

(** ** The header of a file *)

Lemma lastWritten_fold {A} (w : string -> option A) (d : A) sec :
  lastWritten w d sec (foldl (fun acc l => default acc (w l)) d sec).
Proof.
  assert (Hnone : forall post acc,
             Forall (fun x => w x = None) post ->
             foldl (fun acc l => default acc (w l)) acc post = acc).
  { intros post acc H. revert acc.
    induction H as [|x post Hx _ IH]; intros acc; [reflexivity|].
    cbn [foldl]. rewrite Hx. apply IH. }
  split.
  - intros H. apply Hnone, H.
  - intros pre l post a -> Hl Hpost.
    rewrite foldl_app. cbn [foldl]. rewrite Hl. apply Hnone, Hpost.
Qed.

Ltac literal_prefix H :=
  let E := fresh "E" in
  let t := fresh "t" in
  pose proof (HasPrefix_inv _ _ H) as E;
  match type of E with
  | ?l = _ +:+ ?u => set (t := u) in E; clearbody t; clear H; subst l
  end.

Lemma FieldUpdate_fields l g f :
  FieldUpdate l g ->
  Mode (g f) = default (Mode f) (modeWritten l)
  /\ OrigName (g f) = default (OrigName f) (origNameWritten l)
  /\ NewName (g f) = default (NewName f) (newNameWritten l)
  /\ DiffHeader (g f) = DiffHeader f.
Proof.
  intros [-> | -> | H | H Hne | H Hne | H | H | n0 n1 H Hs].
  - repeat split.
  - repeat split.
  - literal_prefix H. repeat split.
  - unfold modeWritten, origNameWritten, newNameWritten.
    rewrite (eqb_neq_false _ _ Hne), H.
    literal_prefix H. repeat split.
  - unfold modeWritten, origNameWritten, newNameWritten.
    rewrite (eqb_neq_false _ _ Hne), H.
    literal_prefix H. repeat split.
  - literal_prefix H. repeat split.
  - literal_prefix H. repeat split.
  - unfold modeWritten, origNameWritten, newNameWritten, binaryNames.
    rewrite Hs, H. literal_prefix H. repeat split.
Qed.

Lemma FileStep_fields l g f :
  FileStep l g ->
  Mode (g f) = default (Mode f) (modeWritten l)
  /\ OrigName (g f) = default (OrigName f) (origNameWritten l)
  /\ NewName (g f) = default (NewName f) (newNameWritten l)
  /\ DiffHeader (g f) = DiffHeader f.
Proof.
  intros [g' Hg | hunk Hk _ | m pos n1 n2 Hh _ _ | Hh].
  - apply FieldUpdate_fields, Hg.
  - literal_prefix Hk. repeat split.
  - apply headerLine_false in Hh.
    destruct Hh as (E1 & E2 & E3 & E4 & E5 & E6 & E7 & E8 & E9 & E10).
    unfold modeWritten, origNameWritten, newNameWritten.
    rewrite E2, E3, E4, E5, E6, E7, E8, E9. repeat split.
  - apply headerLine_false in Hh.
    destruct Hh as (E1 & E2 & E3 & E4 & E5 & E6 & E7 & E8 & E9 & E10).
    unfold modeWritten, origNameWritten, newNameWritten.
    rewrite E2, E3, E4, E5, E6, E7, E8, E9. repeat split.
Qed.

Lemma diffHeader_prefix l rest :
  strings.HasPrefix (diffHeader l rest) l = true.
Proof.
  assert (Hl : strings.HasPrefix l l = true).
  { rewrite <- (append_nil_r l) at 1. apply HasPrefix_app. }
  unfold diffHeader. destruct rest as [|i [|m1 [|m2 rest]]]; try exact Hl.
  destruct (regexp.reinReg_MatchString i);
    destruct (regexp.rempReg_MatchString m1 && regexp.rempReg_MatchString m2);
    rewrite ?append_assoc; try exact Hl; apply HasPrefix_app.
Qed.

Lemma Parse_fields s d :
  Parse s = Ok d ->
  Forall2
    (fun f sec =>
       Mode f = foldl (fun acc l => default acc (modeWritten l))
                  FileModeModified sec
       /\ OrigName f = foldl (fun acc l => default acc (origNameWritten l))
                         EmptyString sec
       /\ NewName f = foldl (fun acc l => default acc (newNameWritten l))
                        EmptyString sec
       /\ exists l tl,
            sec = l :: tl /\ isDiffLine l = true
            /\ strings.HasPrefix (DiffHeader f) l = true)
    (Files d) (sections (strings.Split s nl)).
Proof.
  apply (Parse_local
           (fun f sec =>
              Mode f = foldl (fun acc l => default acc (modeWritten l))
                         FileModeModified sec
              /\ OrigName f
                 = foldl (fun acc l => default acc (origNameWritten l))
                     EmptyString sec
              /\ NewName f
                 = foldl (fun acc l => default acc (newNameWritten l))
                     EmptyString sec
              /\ exists l tl,
                   sec = l :: tl /\ isDiffLine l = true
                   /\ strings.HasPrefix (DiffHeader f) l = true)).
  - intros l rest Hd.
    assert (Hp : strings.HasPrefix (DiffHeader (newFile l rest)) l = true)
      by apply diffHeader_prefix.
    split; [|split; [|split]].
    + literal_prefix Hd. reflexivity.
    + literal_prefix Hd. reflexivity.
    + literal_prefix Hd. reflexivity.
    + exists l, []. split; [reflexivity|]. split; [exact Hd | exact Hp].
  - intros l g f sec Hg (Hm & Ho & Hn & (l0 & tl & -> & Hd & Hp)).
    destruct (FileStep_fields l g f Hg) as (Fm & Fo & Fn & Fh).
    rewrite !foldl_snoc, <- Hm, <- Ho, <- Hn.
    split; [exact Fm|]. split; [exact Fo|]. split; [exact Fn|].
    exists l0, (tl ++ [l]). split; [reflexivity|].
    split; [exact Hd|]. rewrite Fh. exact Hp.
Qed.

(** X13: the header of every file of a parsed diff is what its section
    says, line by line, the last line that writes a field being the one
    that counts. [Mode] is [FileModeModified] unless a line sets it
    ([+++ /dev/null] to Deleted, [--- /dev/null] to New, a similarity
    line to Renamed, a [Binary files] line to Modified); [OrigName] and
    [NewName] are empty unless a line writes them (a [--- ] or [+++ ]
    line other than those of [/dev/null], a rename line, a [Binary files]
    line), and then they are the decoded name of that line; and
    [DiffHeader] begins with the ["diff "] line that opens the section. *)
Theorem header_fields s d :
  Parse s = Ok d ->
  Forall2
    (fun f sec =>
       lastWritten modeWritten FileModeModified sec (Mode f)
       /\ lastWritten origNameWritten EmptyString sec (OrigName f)
       /\ lastWritten newNameWritten EmptyString sec (NewName f)
       /\ exists l tl,
            sec = l :: tl /\ isDiffLine l = true
            /\ strings.HasPrefix (DiffHeader f) l = true)
    (Files d) (sections (strings.Split s nl)).
Proof.
  intros HP. eapply Forall2_impl; [apply Parse_fields, HP|].
  intros f sec (-> & -> & -> & H).
  split; [apply lastWritten_fold|]. split; [apply lastWritten_fold|].
  split; [apply lastWritten_fold | exact H].
Qed.

Lemma header_fields_witness :
  exists d f,
    Parse git_new_file = Ok d /\ Files d = [f]
    /\ Mode f = FileModeNew /\ NewName f = "file4".
Proof.
  destruct (Parse git_new_file) as [d|e|] eqn:E; parse_eval E.
  eexists _, _. split; [reflexivity|]. split; [reflexivity|].
  pose proof (header_fields git_new_file _ E) as H.
  assert (Hs : sections (strings.Split git_new_file nl)
               = [["diff --git a/file4 b/file4"; "--- /dev/null";
                   "+++ b/file4"; "@@ -0,0 +1,1 @@"; "+hello";
                   EmptyString]])
    by (vm_compute; reflexivity).
  rewrite Hs in H.
  apply Forall2_cons_1 in H as [([_ Hm] & _ & [_ Hn] & _) _].
  split.
  - apply (Hm ["diff --git a/file4 b/file4"] "--- /dev/null"
              ["+++ b/file4"; "@@ -0,0 +1,1 @@"; "+hello"; EmptyString]);
      [reflexivity | reflexivity | repeat constructor].
  - apply (Hn ["diff --git a/file4 b/file4"; "--- /dev/null"] "+++ b/file4"
              ["@@ -0,0 +1,1 @@"; "+hello"; EmptyString]);
      [reflexivity | reflexivity | repeat constructor].
Defined.

(** ** The header block of a file *)

Lemma split_from_oneLine s :
  oneLine (fst (strings.split_from nl 0 s)) = true
  /\ Forall (fun l => oneLine l = true) (snd (strings.split_from nl 0 s)).
Proof.
  induction s as [|c s [IH1 IH2]]; [split; [reflexivity | constructor]|].
  cbn [strings.split_from].
  change (strings.HasPrefix (String c s) nl) with (Ascii.eqb c "010"%char && true).
  change (String.length nl - 1)%nat with 0%nat.
  destruct (strings.split_from nl 0 s) as [h t].
  destruct (Ascii.eqb c "010"%char) eqn:E; cbn [andb fst snd] in *.
  - split; [reflexivity | constructor; assumption].
  - split; [|exact IH2]. cbn [oneLine]. unfold regexp.dot. rewrite E.
    exact IH1.
Qed.

(** No line of [lines] holds a line feed. *)
Lemma Split_oneLine s :
  Forall (fun l => oneLine l = true) (strings.Split s nl).
Proof.
  unfold strings.Split. pose proof (split_from_oneLine s) as [H1 H2].
  destruct (strings.split_from nl 0 s) as [h t]. constructor; assumption.
Qed.

Lemma oneLine_app_r x y : oneLine (x +:+ y) = true -> oneLine y = true.
Proof.
  induction x as [|c x IH]; [intros H; exact H|].
  change (String c x +:+ y) with (String c (x +:+ y)). cbn [oneLine].
  intros H. apply andb_true_iff in H as [_ H]. apply IH, H.
Qed.

Lemma dot_plus_eot_oneLine t :
  t <> EmptyString -> oneLine t = true -> regexp.dot_plus_eot t = true.
Proof.
  intros Hne Ht. unfold regexp.dot_plus_eot.
  rewrite (not_empty _ Hne), (span_oneLine _ Ht). reflexivity.
Qed.

Lemma reinReg_index i :
  i <> EmptyString -> oneLine i = true ->
  regexp.reinReg_MatchString ("index " +:+ i) = true.
Proof.
  intros Hne Hi. unfold regexp.reinReg_MatchString. rewrite lit_app.
  apply dot_plus_eot_oneLine; assumption.
Qed.

Lemma rempReg_names o :
  o <> EmptyString -> oneLine o = true ->
  regexp.rempReg_MatchString ("--- " +:+ o) = true
  /\ regexp.rempReg_MatchString ("+++ " +:+ o) = true.
Proof.
  intros Hne Ho. split.
  - change (regexp.rempReg_MatchString ("--- " +:+ o))
      with (regexp.dot_plus_eot o).
    apply dot_plus_eot_oneLine; assumption.
  - change (regexp.rempReg_MatchString ("+++ " +:+ o))
      with (regexp.dot_plus_eot o).
    apply dot_plus_eot_oneLine; assumption.
Qed.

Lemma Parse_diffHeader s d :
  Parse s = Ok d ->
  Forall (fun f =>
            exists p l r,
              strings.Split s nl = p ++ l :: r /\ isDiffLine l = true
              /\ DiffHeader f = diffHeader l r)
    (Files d).
Proof.
  intros HP.
  destruct (Parse_invariant
              (fun (_ : list string) st =>
                 Forall (fun f =>
                           exists p l r,
                             strings.Split s nl = p ++ l :: r
                             /\ isDiffLine l = true
                             /\ DiffHeader f = diffHeader l r)
                   (diff_Files st))
              s d) as (st & E & H).
  - constructor.
  - intros pre l rest st st' Hs HI HS.
    destruct (Step_files _ _ _ _ HS) as [[Hd ->]|(g & Hg & ->)].
    + apply Forall_app. split; [exact HI|].
      apply Forall_singleton. exists pre, l, rest.
      split; [exact Hs|]. split; [exact Hd | reflexivity].
    + apply Forall_map_last; [exact HI|].
      intros f (p & l0 & r & H1 & H2 & H3). exists p, l0, r.
      split; [exact H1|]. split; [exact H2|].
      destruct (FileStep_fields l g f Hg) as (_ & _ & _ & ->). exact H3.
  - exact HP.
  - rewrite E. exact H.
Qed.

(** X14: the [DiffHeader] of every file of a parsed diff is made from a
    ["diff "] line of the text and the three lines after it, and no later
    line changes it. With fewer than three lines after it, it is the
    ["diff "] line alone; when the three lines are an [index] line, a
    [--- ] line and a [+++ ] line, as [git diff] writes them, it is the
    four lines, joined by line feeds. *)
Theorem diff_header s d f :
  Parse s = Ok d -> f ∈ Files d ->
  exists p l r,
    strings.Split s nl = p ++ l :: r /\ isDiffLine l = true
    /\ DiffHeader f = diffHeader l r
    /\ ((length r < 3)%nat -> DiffHeader f = l)
    /\ (forall i o n r',
           r = ("index " +:+ i) :: ("--- " +:+ o) :: ("+++ " +:+ n) :: r' ->
           i <> EmptyString -> o <> EmptyString -> n <> EmptyString ->
           DiffHeader f
           = l +:+ nl +:+ ("index " +:+ i) +:+ nl +:+ ("--- " +:+ o)
               +:+ nl +:+ ("+++ " +:+ n)).
Proof.
  intros HP Hf.
  pose proof (Parse_diffHeader s d HP) as H.
  rewrite Forall_forall in H.
  destruct (H f Hf) as (p & l & r & Hs & Hd & Hh).
  exists p, l, r. split; [exact Hs|]. split; [exact Hd|].
  split; [exact Hh|]. split.
  - intros Hlen. rewrite Hh. unfold diffHeader.
    destruct r as [|i [|m1 [|m2 r']]]; try reflexivity.
    cbn [length] in Hlen. lia.
  - intros i o n r' -> Hi Ho Hn.
    pose proof (Split_oneLine s) as Hall. rewrite Hs in Hall.
    apply Forall_app in Hall as [_ Hall].
    apply Forall_cons in Hall as [_ Hall].
    apply Forall_cons in Hall as [Hli Hall].
    apply Forall_cons in Hall as [Hlo Hall].
    apply Forall_cons in Hall as [Hln _].
    apply oneLine_app_r in Hli, Hlo, Hln.
    rewrite Hh. unfold diffHeader.
    rewrite (reinReg_index i Hi Hli).
    destruct (rempReg_names o Ho Hlo) as [-> _].
    destruct (rempReg_names n Hn Hln) as [_ ->].
    cbn [andb]. rewrite !append_assoc. reflexivity.
Qed.

Lemma diff_header_witness :
  exists d f,
    Parse file1_diff = Ok d /\ Files d = [f]
    /\ exists p l r,
         strings.Split file1_diff nl = p ++ l :: r /\ isDiffLine l = true
         /\ DiffHeader f = diffHeader l r
         /\ ((length r < 3)%nat -> DiffHeader f = l)
         /\ (forall i o n r',
                r = ("index " +:+ i) :: ("--- " +:+ o) :: ("+++ " +:+ n)
                      :: r' ->
                i <> EmptyString -> o <> EmptyString -> n <> EmptyString ->
                DiffHeader f
                = l +:+ nl +:+ ("index " +:+ i) +:+ nl +:+ ("--- " +:+ o)
                    +:+ nl +:+ ("+++ " +:+ n)).
Proof.
  destruct (Parse file1_diff) as [d|e|] eqn:E; parse_eval E.
  eexists _, _. split; [reflexivity|]. split; [reflexivity|].
  eapply (diff_header file1_diff); [exact E | apply list_elem_of_here].
Defined.

(** ** The inputs on which [Parse] succeeds *)

Lemma openHunk_snoc pre l :
  openHunk (pre ++ [l]) =
  if isDiffLine l then false
  else if isHunkLine l then true else openHunk pre.
Proof. unfold openHunk. rewrite foldl_app. reflexivity. Qed.

Lemma runInv_init : runInv [] init.
Proof.
  split; [reflexivity|]. split.
  - intros _. split; [reflexivity | constructor].
  - intros H. contradiction.
Qed.

Lemma snoc_not_nil {A} (l : list A) (x : A) : l ++ [x] <> [].
Proof. destruct l; discriminate. Qed.

Lemma runInv_step pre l rest st st' :
  runInv pre st -> Step st l rest st' -> runInv (pre ++ [l]) st'.
Proof.
  intros (Hin & Hnil & Hcons) HS.
  assert (Hptr : diff_Files st' <> [] -> pointersSet st').
  { intros Hne. apply (Step_pointers _ _ _ _ HS).
    destruct (strings.HasPrefix l "diff ") eqn:Hd; [left; reflexivity|].
    right. apply Hcons. intros E.
    destruct HS as [Hd' | g fs f _ _ Hf | hunk fs f _ _ _ _ Hf
                   | m fs f hs h _ Hi _ _ Hf _ | _ _].
    - congruence.
    - rewrite Hf in E. apply (snoc_not_nil _ _ E).
    - rewrite Hf in E. apply (snoc_not_nil _ _ E).
    - rewrite Hf in E. apply (snoc_not_nil _ _ E).
    - apply Hne. exact E. }
  unfold runInv. rewrite openHunk_snoc. unfold isDiffLine, isHunkLine.
  destruct HS as [Hd | g fs f Hd Hg Hf | hunk fs f Hh Hd Hk Hhk Hf
                 | m fs f hs h Hh Hi Hs Hm Hf Hhs | Hh Hc].
  - rewrite Hd. split; [reflexivity|]. split.
    + intros E. cbn in E. apply snoc_not_nil in E. contradiction.
    + intros Hne. split; [apply Hptr, Hne|].
      exists l. split; [apply elem_of_app; right; apply list_elem_of_here|].
      exact Hd.
  - rewrite Hd, (FieldUpdate_not_hunk _ _ Hg).
    split; [exact Hin|]. split.
    + intros E. cbn in E. apply snoc_not_nil in E. contradiction.
    + intros Hne. split; [apply Hptr, Hne|].
      destruct Hcons as (_ & x & Hx & Hxd);
        [rewrite Hf; apply snoc_not_nil|].
      exists x. split; [apply elem_of_app; left; exact Hx | exact Hxd].
  - rewrite Hd, Hk. split; [reflexivity|]. split.
    + intros E. cbn in E. apply snoc_not_nil in E. contradiction.
    + intros Hne. split; [apply Hptr, Hne|].
      destruct Hcons as (_ & x & Hx & Hxd);
        [rewrite Hf; apply snoc_not_nil|].
      exists x. split; [apply elem_of_app; left; exact Hx | exact Hxd].
  - rewrite (headerLine_diff _ Hh), (headerLine_hunk _ Hh).
    split; [cbn; rewrite <- Hin; symmetry; exact Hi|]. split.
    + intros E. cbn in E. apply snoc_not_nil in E. contradiction.
    + intros Hne. split; [apply Hptr, Hne|].
      destruct Hcons as (_ & x & Hx & Hxd);
        [rewrite Hf; apply snoc_not_nil|].
      exists x. split; [apply elem_of_app; left; exact Hx | exact Hxd].
  - rewrite (headerLine_diff _ Hh), (headerLine_hunk _ Hh).
    split; [exact Hin|]. split.
    + intros E. destruct (Hnil E) as [Hi Hall]. split; [exact Hi|].
      apply Forall_app. split; [exact Hall|].
      apply Forall_singleton. apply (headerLine_diff _ Hh).
    + intros Hne. split; [apply Hptr, Hne|].
      destruct (Hcons Hne) as (_ & x & Hx & Hxd).
      exists x. split; [apply elem_of_app; left; exact Hx | exact Hxd].
Qed.

Lemma loop_upto_invariant (I : list string -> state -> Prop) :
  (forall pre l rest st st',
      I pre st -> Step st l rest st' -> I (pre ++ [l]) st') ->
  forall pre pre0 st tail st',
    I pre0 st -> loop_upto st pre tail = Ok st' -> I (pre0 ++ pre) st'.
Proof.
  intros Hstep pre.
  induction pre as [|l pre IH]; intros pre0 st tail st' HI H.
  - injection H as <-. rewrite app_nil_r. exact HI.
  - cbn [loop_upto] in H. apply bind_Ok in H as (st1 & H1 & H).
    apply step_sound in H1.
    replace (pre0 ++ l :: pre) with ((pre0 ++ [l]) ++ pre)
      by (rewrite <- app_assoc; reflexivity).
    apply (IH _ st1 tail); [|exact H].
    apply (Hstep _ _ _ _ _ HI H1).
Qed.

Lemma FieldUpdate_binary l g :
  FieldUpdate l g -> strings.HasPrefix l binaryPrefix = true ->
  exists name0 name1, binaryNames l = [name0; name1].
Proof.
  intros [-> | -> | H | H _ | H _ | H | H | n0 n1 H Hs] Hb;
    try discriminate Hb;
    try (literal_prefix H; discriminate Hb).
  exists n0, n1. exact Hs.
Qed.

(** An iteration that ends without an error has read a line that is
    accepted. *)
Lemma step_Ok_accepted pre st l rest st' :
  runInv pre st -> step st l rest = Ok st' -> lineAccepted pre l.
Proof.
  intros (Hin & Hnil & Hcons) H.
  pose proof (step_sound _ _ _ _ H) as HS.
  split; [|split; [|split]].
  - intros Hh Hd.
    destruct (diff_Files st) as [|f0 fs0] eqn:Ef.
    + destruct (Hnil eq_refl) as [Hi _].
      rewrite (step_before st l rest Ef Hi Hd), Hh in H. discriminate.
    + apply Hcons. discriminate.
  - intros Hb.
    destruct HS as [Hd | g fs f Hd Hg Hf | hunk fs f Hh Hd Hk Hhk Hf
                   | m fs f hs h Hh Hi Hs Hm Hf Hhs | Hh Hc].
    + literal_prefix Hd. discriminate Hb.
    + apply (FieldUpdate_binary _ _ Hg Hb).
    + literal_prefix Hk. discriminate Hb.
    + apply headerLine_false in Hh. destruct Hh as (_&_&_&_&_&_&_&_&E&_).
      congruence.
    + apply headerLine_false in Hh. destruct Hh as (_&_&_&_&_&_&_&_&E&_).
      congruence.
  - unfold isHunkLine. intros Hk'.
    destruct HS as [Hd | g fs f Hd Hg Hf | hunk fs f Hh Hd Hk Hhk Hf
                   | m fs f hs h Hh Hi Hs Hm Hf Hhs | Hh Hc].
    + rewrite (diff_not_hunk _ Hd) in Hk'. discriminate.
    + rewrite (FieldUpdate_not_hunk _ _ Hg) in Hk'. discriminate.
    + exists hunk. exact Hhk.
    + rewrite (headerLine_hunk _ Hh) in Hk'. discriminate.
    + rewrite (headerLine_hunk _ Hh) in Hk'. discriminate.
  - intros Hopen Hc'. unfold isContentLine in Hc'.
    apply andb_true_iff in Hc' as [Hh' Hs'].
    apply negb_true_iff in Hh'.
    destruct HS as [Hd | g fs f Hd Hg Hf | hunk fs f Hh Hd Hk Hhk Hf
                   | m fs f hs h Hh Hi Hs Hm Hf Hhs | Hh Hc].
    + rewrite (headerLine_diff _ Hh') in Hd. discriminate.
    + rewrite (FieldUpdate_header _ _ Hg) in Hh'. discriminate.
    + congruence.
    + exists m. exact Hm.
    + rewrite Hin, Hopen, Hs' in Hc. discriminate.
Qed.

(** An accepted line is read without an error. *)
Lemma accepted_step pre st l rest :
  runInv pre st -> lineAccepted pre l -> exists st', step st l rest = Ok st'.
Proof.
  intros (Hin & Hnil & Hcons) (A1 & A2 & A3 & A4).
  destruct (step st l rest) as [st'|e|] eqn:E; [eauto | exfalso..].
  - apply step_Err_origin in E
      as [(Hb & _ & Hn) | [[Hk He] | (Hh & Hi & Hs & He)]].
    + destruct (A2 Hb) as (n0 & n1 & E). apply (Hn n0 n1 E).
    + destruct (A3 Hk) as (hunk & E). congruence.
    + assert (Hopen : openHunk pre = true) by congruence.
      destruct (A4 Hopen) as (m & E); [|congruence].
      unfold isContentLine. rewrite Hh, Hs. reflexivity.
  - destruct (isDiffLine l) eqn:Hd.
    { rewrite (step_diff _ _ _ Hd) in E. discriminate. }
    destruct (diff_Files st) as [|f0 fs0] eqn:Ef.
    + destruct (Hnil eq_refl) as [Hi Hall].
      rewrite (step_before st l rest Ef Hi Hd) in E.
      destruct (headerLine l) eqn:Hh; [|discriminate].
      destruct (A1 eq_refl eq_refl) as (x & Hx & Hxd).
      rewrite Forall_forall in Hall. rewrite (Hall x Hx) in Hxd.
      discriminate.
    + destruct Hcons as [Hp _]; [discriminate|].
      apply (step_no_Panic st l rest); [|exact E].
      exact Hp.
Qed.

Lemma accepted_run lines :
  forall pre st,
    runInv pre st ->
    (forall p l q, lines = p ++ l :: q -> lineAccepted (pre ++ p) l) ->
    exists st', loop st lines = Ok st'.
Proof.
  induction lines as [|l rest IH]; intros pre st HI Hacc;
    [eexists; reflexivity|].
  destruct (accepted_step pre st l rest HI) as (st1 & H1).
  { rewrite <- (app_nil_r pre). apply (Hacc [] l rest). reflexivity. }
  destruct (IH (pre ++ [l]) st1) as (st' & H').
  - apply (runInv_step _ _ rest st); [exact HI | apply step_sound, H1].
  - intros p l' q ->. rewrite <- app_assoc. apply (Hacc (l :: p) l' q).
    reflexivity.
  - exists st'. cbn [loop]. rewrite H1, bind_ret. exact H'.
Qed.

(** X15: the inputs on which [Parse] succeeds. [Parse] returns a [Diff]
    if and only if every line of the input is accepted where it stands:
    a line that a header case other than ["diff "] takes comes after a
    ["diff "] line; a [Binary files] line names two files; a ["@@ "] line
    holds a hunk header whose numbers an [int] holds; and inside a hunk
    (after a ["@@ "] line, with no ["diff "] line since) a content line
    begins with [' '], ['+'] or ['-']. *)
Theorem Parse_succeeds s :
  (exists d, Parse s = Ok d) <->
  (forall pre l post,
      strings.Split s nl = pre ++ l :: post -> lineAccepted pre l).
Proof.
  split.
  - intros (d & HP) pre l post Hs.
    apply Parse_Ok in HP as (st & Hrun & _).
    rewrite Hs, loop_app in Hrun.
    apply bind_Ok in Hrun as (st1 & H1 & Hrun).
    cbn [loop] in Hrun. apply bind_Ok in Hrun as (st2 & H2 & _).
    apply (step_Ok_accepted pre st1 l post st2); [|exact H2].
    apply (loop_upto_invariant runInv runInv_step pre [] init (l :: post) st1
             runInv_init H1).
  - intros Hacc.
    destruct (accepted_run (strings.Split s nl) [] init runInv_init)
      as (st & Hst).
    + intros p l q E. apply (Hacc p l q E).
    + eexists. unfold Parse. rewrite Hst, bind_ret. reflexivity.
Qed.

(** ** The numbers of the lines *)

(** X16: in a parsed diff the lines of a range are numbered one after
    the other from the start of the range: the line at index [i] of
    [NewRange.Lines] has the number [NewRange.Start + i], and the line at
    index [i] of [OrigRange.Lines] the number [OrigRange.Start + i], as
    long as that is a number an [int] holds. *)
Theorem line_numbers s d f h i dl :
  Parse s = Ok d -> f ∈ Files d -> h ∈ Hunks f ->
  (Lines (NewRange h) !! i = Some dl ->
   Start (NewRange h) + Z.of_nat i <= maxInt ->
   Number dl = Start (NewRange h) + Z.of_nat i)
  /\ (Lines (OrigRange h) !! i = Some dl ->
      Start (OrigRange h) + Z.of_nat i <= maxInt ->
      Number dl = Start (OrigRange h) + Z.of_nat i).
Proof.
  intros HP Hf Hh.
  destruct (Parse_numbered s d f h HP Hf Hh) as [[Ho Hon] [Hn Hnn]].
  split; intros Hdl Hle.
  - rewrite (Hnn i dl Hdl). apply wrap_small. lia.
  - rewrite (Hon i dl Hdl). apply wrap_small. lia.
Qed.

Lemma line_numbers_witness :
  exists d f h dl,
    Parse omitted_counts = Ok d /\ f ∈ Files d /\ h ∈ Hunks f
    /\ Lines (NewRange h) !! 0%nat = Some dl
    /\ Start (NewRange h) = 7
    /\ Number dl = Start (NewRange h) + Z.of_nat 0.
Proof.
  destruct (Parse omitted_counts) as [d|e|] eqn:E; parse_eval E.
  eexists _, _, _, _. split; [reflexivity|].
  split; [apply list_elem_of_here|]. split; [apply list_elem_of_here|].
  split; [reflexivity|]. split; [reflexivity|].
  refine (proj1 (line_numbers omitted_counts _ _ _ 0%nat _ E _ _) _ _);
    [apply list_elem_of_here | apply list_elem_of_here
    | reflexivity | vm_compute; discriminate].
Defined.
